(** * Ren'Py syntax-highlighting lexers: a shallow embedding

    Source: [RTE/syntaxhighlight/lexer.py].  The module declares rule tables
    for three [RegexLexer] subclasses ([RenpyBlockLexer], [RenpyLexer],
    [RenpyTracebackLexer]) and one hand-written [Lexer]
    ([RenpyConsoleLexer]).  The rule tables are interpreted by the Pygments
    library ([pygments.lexer]) on top of Python's [re] module, so the
    embedding has three layers:

    - [Re]: the fragment of Python regular expressions that the rule tables
      use, with a backtracking matcher that follows [re]'s ordered-choice
      semantics;
    - [Pygments]: token kinds, rule tables, [include]/[combined]/[words]/
      [bygroups]/[using], the [RegexLexer.get_tokens_unprocessed] loop and
      [do_insertions];
    - the rule tables and [RenpyConsoleLexer.get_tokens_unprocessed],
      transcribed from [lexer.py].

    Text is a [string]; a character is a code point below 256. *)

From Stdlib Require Import List String Ascii Arith NArith ZArith Lia Bool.
Import ListNotations.
Open Scope string_scope.
Open Scope list_scope.

(* ================================================================== *)
(** ** Characters and string helpers *)

Definition NL : ascii := "010"%char.
Definition TAB : ascii := "009"%char.
Definition DQUOTE : ascii := "034"%char.
Definition nl : string := String NL EmptyString.
Definition dq : string := String DQUOTE EmptyString.

Definition code (c : ascii) : N := N_of_ascii c.

Definition between (lo hi n : N) : bool := (N.leb lo n && N.leb n hi)%bool.

(** [str.isspace], which is also [\s] for [str] patterns. *)
Definition is_space (c : ascii) : bool :=
  let n := code c in
  (between 9 13 n || between 28 32 n || N.eqb n 133 || N.eqb n 160)%bool.

(** [\d] for [str] patterns: the decimal digits. *)
Definition is_digit (c : ascii) : bool := between 48 57 (code c).

(** [\w] for [str] patterns: alphanumeric characters and the underscore. *)
Definition is_word (c : ascii) : bool :=
  let n := code c in
  (between 48 57 n || between 65 90 n || between 97 122 n || N.eqb n 95
   || N.eqb n 170 || between 178 179 n || N.eqb n 181 || between 185 186 n
   || between 188 190 n || between 192 214 n || between 216 246 n
   || between 248 255 n)%bool.

(** The slice [s[i:]]. *)
Fixpoint drop (i : nat) (s : string) : string :=
  match i, s with
  | 0, _ => s
  | S i', String _ s' => drop i' s'
  | S _, EmptyString => EmptyString
  end.

(** The slice [s[:n]]. *)
Fixpoint take (n : nat) (s : string) : string :=
  match n, s with
  | S n', String c s' => String c (take n' s')
  | _, _ => EmptyString
  end.

(** The slice [s[i:j]] for [0 <= i], [0 <= j]. *)
Definition slice (i j : nat) (s : string) : string := take (j - i) (drop i s).

Definition is_empty (s : string) : bool :=
  match s with EmptyString => true | _ => false end.

(** [s.startswith(pre)]. *)
Definition startswith (pre s : string) : bool := String.prefix pre s.

Fixpoint lstrip (s : string) : string :=
  match s with
  | String c s' => if is_space c then lstrip s' else s
  | EmptyString => EmptyString
  end.

(** [s.rstrip()]. *)
Fixpoint rstrip (s : string) : string :=
  match s with
  | String c s' =>
      let r := rstrip s' in
      if (is_empty r && is_space c)%bool then EmptyString else String c r
  | EmptyString => EmptyString
  end.

(** [s.strip()]. *)
Definition strip (s : string) : string := rstrip (lstrip s).

Fixpoint last_char (s : string) : option ascii :=
  match s with
  | EmptyString => None
  | String c EmptyString => Some c
  | String _ s' => last_char s'
  end.

(* ================================================================== *)
(** ** Python regular expressions *)

Module Re.

(** Items of a bracketed character set. *)
Inductive cc : Type :=
| CChar (c : ascii)
| CRange (lo hi : ascii)
| CSpace        (* \s *)
| CNotSpace     (* \S *)
| CWord         (* \w *)
| CDigit.       (* \d *)

Definition in_cc (c : ascii) (i : cc) : bool :=
  match i with
  | CChar d => Ascii.eqb c d
  | CRange lo hi => between (code lo) (code hi) (code c)
  | CSpace => is_space c
  | CNotSpace => negb (is_space c)
  | CWord => is_word c
  | CDigit => is_digit c
  end.

Definition in_set (items : list cc) (c : ascii) : bool :=
  existsb (in_cc c) items.

(** The characters of a string as set items: [chars "abc"] is [[abc]]. *)
Fixpoint chars (s : string) : list cc :=
  match s with
  | EmptyString => []
  | String c s' => CChar c :: chars s'
  end.

Inductive regex : Type :=
| Eps                               (* empty pattern *)
| Lit (s : string)                  (* literal (escaped) text *)
| InSet (items : list cc)           (* [...] *)
| NotInSet (items : list cc)        (* [^...] *)
| Any                               (* .   (no DOTALL: not a newline) *)
| Seq (a b : regex)
| Alt (a b : regex)                 (* a|b *)
| Star (a : regex)                  (* a*  greedy *)
| LazyStar (a : regex)              (* a*? *)
| Grp (i : nat) (a : regex)         (* capturing group number i *)
| Bol                               (* ^   with MULTILINE *)
| Eol                               (* $   with MULTILINE *)
| BoS                               (* \A *)
| EndDollar                         (* $   without MULTILINE *)
| WordB                             (* \b *)
| Ahead (a : regex)                 (* (?=a) *)
| NotBehind (items : list cc).      (* (?<![...]) on one character *)

(** Derived forms. *)
Definition Plus (a : regex) : regex := Seq a (Star a).          (* a+ *)
Definition Opt (a : regex) : regex := Alt a Eps.                (* a? *)
Fixpoint Times (n : nat) (a : regex) : regex :=                 (* a{n} *)
  match n with 0 => Eps | S n' => Seq a (Times n' a) end.
Fixpoint UpTo (n : nat) (a : regex) : regex :=                  (* a{,n} *)
  match n with 0 => Eps | S n' => Opt (Seq a (UpTo n' a)) end.
Definition Chr (c : ascii) : regex := Lit (String c EmptyString).
Fixpoint seqs (l : list regex) : regex :=
  match l with
  | [] => Eps
  | [a] => a
  | a :: l' => Seq a (seqs l')
  end.
Fixpoint alts (l : list regex) : regex :=
  match l with
  | [] => NotInSet [CSpace; CNotSpace]    (* matches nothing *)
  | [a] => a
  | a :: l' => Alt a (alts l')
  end.

(** Captured groups: the most recent binding of a group comes first. *)
Definition groups := list (nat * (nat * nat)).

Fixpoint group (g : groups) (i : nat) : option (nat * nat) :=
  match g with
  | [] => None
  | (j, span) :: g' => if Nat.eqb i j then Some span else group g' i
  end.

Section Matcher.
Variable text : string.

Definition char_at (p : nat) : option ascii := String.get p text.

Definition prev_at (p : nat) : option ascii :=
  match p with 0 => None | S q => char_at q end.

Definition word_opt (o : option ascii) : bool :=
  match o with Some c => is_word c | None => false end.

Definition at_wordb (p : nat) : bool :=
  xorb (word_opt (prev_at p)) (word_opt (char_at p)).

Definition at_bol (p : nat) : bool :=
  match p with
  | 0 => true
  | S q => match char_at q with Some c => Ascii.eqb c NL | None => false end
  end.

Definition at_eol (p : nat) : bool :=
  match char_at p with Some c => Ascii.eqb c NL | None => true end.

Definition at_end_dollar (p : nat) : bool :=
  match char_at p with
  | None => true
  | Some c => (Ascii.eqb c NL && Nat.eqb (S p) (String.length text))%bool
  end.

Fixpoint lit_at (s : string) (p : nat) : bool :=
  match s with
  | EmptyString => true
  | String c s' =>
      match char_at p with
      | Some d => (Ascii.eqb c d && lit_at s' (S p))%bool
      | None => false
      end
  end.

(** The backtracking matcher, in continuation-passing style: [k] is
    what remains to be matched after [r].  Alternatives are tried left
    to right, a greedy star tries one more iteration before stopping and
    a lazy star stops before trying one more iteration, as in [re].  An
    iteration of a star has to consume a character. *)
Fixpoint rmatch {R : Type} (r : regex) (p : nat) (g : groups)
         (k : nat -> groups -> option R) {struct r} : option R :=
  match r with
  | Eps => k p g
  | Lit s => if lit_at s p then k (p + String.length s) g else None
  | InSet items =>
      match char_at p with
      | Some c => if in_set items c then k (S p) g else None
      | None => None
      end
  | NotInSet items =>
      match char_at p with
      | Some c => if in_set items c then None else k (S p) g
      | None => None
      end
  | Any =>
      match char_at p with
      | Some c => if Ascii.eqb c NL then None else k (S p) g
      | None => None
      end
  | Seq a b => rmatch a p g (fun p1 g1 => rmatch b p1 g1 k)
  | Alt a b =>
      match rmatch a p g k with
      | Some x => Some x
      | None => rmatch b p g k
      end
  | Star a =>
      (fix loop (n : nat) (p : nat) (g : groups) {struct n} : option R :=
         match n with
         | 0 => k p g
         | S n' =>
             match rmatch a p g
                     (fun p1 g1 =>
                        if Nat.ltb p p1 then loop n' p1 g1 else None) with
             | Some x => Some x
             | None => k p g
             end
         end) (String.length text - p) p g
  | LazyStar a =>
      (fix loop (n : nat) (p : nat) (g : groups) {struct n} : option R :=
         match n with
         | 0 => k p g
         | S n' =>
             match k p g with
             | Some x => Some x
             | None =>
                 rmatch a p g
                   (fun p1 g1 =>
                      if Nat.ltb p p1 then loop n' p1 g1 else None)
             end
         end) (String.length text - p) p g
  | Grp i a => rmatch a p g (fun p1 g1 => k p1 ((i, (p, p1)) :: g1))
  | Bol => if at_bol p then k p g else None
  | Eol => if at_eol p then k p g else None
  | BoS => if Nat.eqb p 0 then k p g else None
  | EndDollar => if at_end_dollar p then k p g else None
  | WordB => if at_wordb p then k p g else None
  | Ahead a =>
      match rmatch a p g (fun _ _ => Some tt) with
      | Some _ => k p g
      | None => None
      end
  | NotBehind items =>
      match prev_at p with
      | Some c => if in_set items c then None else k p g
      | None => k p g
      end
  end.

(** [re.compile(r).match(text, p)]: the end of the match and its groups. *)
Definition match_at (r : regex) (p : nat) : option (nat * groups) :=
  rmatch r p [] (fun e g => Some (e, g)).

End Matcher.

End Re.

(* ================================================================== *)
(** ** The Pygments library: tokens, rule tables and the lexer loop *)

Module Pygments.
Import Re.

(** Token kinds.  The kinds of [pygments.token] that the lexers use, and
    the application's own kinds under the roots [Renpy] and [Block].

    Modelled from the spec: [RTE/syntaxhighlight/tokens.py], which declares
    [Renpy] and [Block], is not part of the sources; the spec treats token
    kinds as opaque hierarchical tags, so each dotted name used by
    [lexer.py] is one constructor. *)
Inductive ttype : Type :=
| Text | Error | Other
| Comment | Comment_Single | Comment_Hashbang
| Operator | Operator_Word
| Keyword | Keyword_Namespace
| Name | Name_Builtin | Name_Builtin_Pseudo | Name_Exception
| Name_Function | Name_Function_Magic | Name_Variable_Magic
| Name_Class | Name_Namespace | Name_Decorator
| String_Affix | String_Doc | String_Double | String_Single
| String_Escape | String_Interpol | String_Backtick | String_Symbol
| Number | Number_Float | Number_Oct | Number_Bin | Number_Hex
| Number_Integer | Number_Integer_Long
| Punctuation
| Generic_Prompt | Generic_Traceback | Generic_Output | Generic_Error
| Renpy_Python_Inline | Renpy_Function_Builtin | Renpy_Function_Arguments
| Renpy_Reserved | Renpy_Declaration | Renpy_Label_Reserved
| Renpy_Screen_Displayables | Renpy_Screen_Actions | Renpy_Properties
| Block_Start | Block_End.

Definition ttype_eqb (a b : ttype) : bool :=
  match a, b with
  | Text, Text | Error, Error | Other, Other
  | Comment, Comment | Comment_Single, Comment_Single
  | Comment_Hashbang, Comment_Hashbang
  | Operator, Operator | Operator_Word, Operator_Word
  | Keyword, Keyword | Keyword_Namespace, Keyword_Namespace
  | Name, Name | Name_Builtin, Name_Builtin
  | Name_Builtin_Pseudo, Name_Builtin_Pseudo
  | Name_Exception, Name_Exception | Name_Function, Name_Function
  | Name_Function_Magic, Name_Function_Magic
  | Name_Variable_Magic, Name_Variable_Magic
  | Name_Class, Name_Class | Name_Namespace, Name_Namespace
  | Name_Decorator, Name_Decorator
  | String_Affix, String_Affix | String_Doc, String_Doc
  | String_Double, String_Double | String_Single, String_Single
  | String_Escape, String_Escape | String_Interpol, String_Interpol
  | String_Backtick, String_Backtick | String_Symbol, String_Symbol
  | Number, Number | Number_Float, Number_Float | Number_Oct, Number_Oct
  | Number_Bin, Number_Bin | Number_Hex, Number_Hex
  | Number_Integer, Number_Integer
  | Number_Integer_Long, Number_Integer_Long
  | Punctuation, Punctuation
  | Generic_Prompt, Generic_Prompt | Generic_Traceback, Generic_Traceback
  | Generic_Output, Generic_Output | Generic_Error, Generic_Error
  | Renpy_Python_Inline, Renpy_Python_Inline
  | Renpy_Function_Builtin, Renpy_Function_Builtin
  | Renpy_Function_Arguments, Renpy_Function_Arguments
  | Renpy_Reserved, Renpy_Reserved | Renpy_Declaration, Renpy_Declaration
  | Renpy_Label_Reserved, Renpy_Label_Reserved
  | Renpy_Screen_Displayables, Renpy_Screen_Displayables
  | Renpy_Screen_Actions, Renpy_Screen_Actions
  | Renpy_Properties, Renpy_Properties
  | Block_Start, Block_Start | Block_End, Block_End => true
  | _, _ => false
  end.

(** A token as the lexers yield it: [(index, tokentype, value)]. *)
Definition token : Type := nat * ttype * string.

Definition tok_index (tk : token) : nat := fst (fst tk).
Definition tok_type (tk : token) : ttype := snd (fst tk).
Definition tok_value (tk : token) : string := snd tk.

(** [yield s + i, t, v] for every [(i, t, v)]. *)
Definition shift (s : nat) (tk : token) : token :=
  let '(i, t, v) := tk in (s + i, t, v).

(** One argument of [bygroups]: [None], a token kind, or the callback
    [using(RenpyLexer)] (the only [using] of [lexer.py]). *)
Inductive gaction : Type :=
| GNone
| GTok (t : ttype)
| GUsing.

(** The action of a rule: [None] (written by [default]), a token kind, or
    a [bygroups] callback. *)
Inductive action : Type :=
| ANone
| ATok (t : ttype)
| AByGroups (args : list gaction).

(** An entry of the state stack: a named state, or the anonymous state
    that [combined(...)] builds from the rules of several states. *)
Inductive state : Type :=
| Named (name : string)
| Combined (names : list string).

(** The processed state transition of a rule: none, ['#pop'] (the
    integer [-1], [Pop 1]), or a tuple of states to push. *)
Inductive newstate : Type :=
| NoChange
| Pop (n : nat)
| Push (l : list state).

(** An entry of a state's rule list in the [tokens] dictionary. *)
Inductive tdef : Type :=
| Rule (rx : regex) (a : action) (ns : newstate)
| Include (name : string).

(** [default(state)]: an empty pattern, no token, a state transition. *)
Definition default (ns : newstate) : tdef := Rule Eps ANone ns.

Definition tokendefs : Type := list (string * list tdef).

Definition prule : Type := regex * action * newstate.

Definition rule_rx (r : prule) : regex := fst (fst r).
Definition rule_action (r : prule) : action := snd (fst r).
Definition rule_new (r : prule) : newstate := snd r.

Fixpoint lookup (defs : tokendefs) (name : string) : option (list tdef) :=
  match defs with
  | [] => None
  | (n, l) :: defs' => if String.eqb n name then Some l else lookup defs' name
  end.

(** [_process_state]: the rule list of a state with every [include]
    replaced by the rules of the included state.  [fuel] bounds the depth
    of nested includes; the number of states is enough when no state
    includes itself, directly or not. *)
Fixpoint process_state (fuel : nat) (defs : tokendefs) (name : string)
  : list prule :=
  match fuel with
  | 0 => []
  | S fuel' =>
      match lookup defs name with
      | None => []
      | Some l =>
          flat_map
            (fun d =>
               match d with
               | Rule rx a ns => [(rx, a, ns)]
               | Include n => process_state fuel' defs n
               end) l
      end
  end.

(** [tokendefs[state]]. *)
Definition rules_of (defs : tokendefs) (st : state) : list prule :=
  match st with
  | Named n => process_state (List.length defs) defs n
  | Combined l => flat_map (process_state (List.length defs) defs) l
  end.

(** *** [pygments.regexopt] and [words] *)

(** [sorted(strings)]: strings are ordered by the code points of their
    characters. *)
Fixpoint insert_sorted (w : string) (l : list string) : list string :=
  match l with
  | [] => [w]
  | x :: l' => if String.leb w x then w :: l else x :: insert_sorted w l'
  end.

Definition sorted (l : list string) : list string :=
  fold_right insert_sorted [] l.

Definition str_min (a b : string) : string := if String.leb a b then a else b.
Definition str_max (a b : string) : string := if String.leb a b then b else a.

(** The longest common beginning of two strings. *)
Fixpoint common_beginning (a b : string) : string :=
  match a, b with
  | String x a', String y b' =>
      if Ascii.eqb x y then String x (common_beginning a' b') else EmptyString
  | _, _ => EmptyString
  end.

(** [commonprefix(m)]: the longest common beginning of [min(m)] and
    [max(m)]. *)
Definition commonprefix (m : list string) : string :=
  match m with
  | [] => EmptyString
  | x :: m' =>
      common_beginning (fold_right str_min x m') (fold_right str_max x m')
  end.

(** [s[::-1]] *)
Fixpoint reversed (s : string) : string :=
  match s with
  | EmptyString => EmptyString
  | String c s' => (reversed s' ++ String c EmptyString)%string
  end.

(** [groupby(strings, key)]: the maximal runs of neighbours with the
    same key. *)
Fixpoint groupby (key : string -> bool) (l : list string)
  : list (list string) :=
  match l with
  | [] => []
  | x :: l' =>
      match groupby key l' with
      | (y :: run) :: runs =>
          if Bool.eqb (key x) (key y) then (x :: y :: run) :: runs
          else [x] :: (y :: run) :: runs
      | runs => [x] :: runs
      end
  end.

Definition first_char_is (c : option ascii) (s : string) : bool :=
  match c, String.get 0 s with
  | Some a, Some b => Ascii.eqb a b
  | None, None => true
  | _, _ => false
  end.

Definition one_letter (s : string) : bool := Nat.eqb (String.length s) 1.

(** [regex_opt_inner(strings, open_paren)], as the pattern that its text
    denotes; the parentheses that [open_paren] asks for only group, and
    the caller adds the capturing group.  [fuel] bounds the depth of the
    recursion. *)
Fixpoint regex_opt_inner (fuel : nat) (strings : list string) : regex :=
  match fuel with
  | 0 => Eps
  | S fuel' =>
      match strings with
      | [] => Eps                                       (* nothing left *)
      | [first] => Lit first                            (* only 1 string *)
      | first :: others =>
          if is_empty first then                        (* first string empty *)
            Opt (regex_opt_inner fuel' others)
          else
            let oneletter := filter one_letter strings in
            let rest := filter (fun s => negb (one_letter s)) strings in
            if (one_letter first && Nat.ltb 1 (List.length oneletter))%bool
            then
              (* multiple one-char strings: make a charset *)
              let charset := InSet (flat_map chars oneletter) in
              match rest with
              | [] => charset                           (* only 1-character *)
              | _ => Alt (regex_opt_inner fuel' rest) charset
              end
            else
              let prefix := commonprefix strings in
              if negb (is_empty prefix) then
                (* we have a prefix for all strings *)
                Seq (Lit prefix)
                    (regex_opt_inner fuel'
                       (map (drop (String.length prefix)) strings))
              else
                (* is there a suffix? *)
                let suffix := commonprefix (map reversed strings) in
                if negb (is_empty suffix) then
                  Seq (regex_opt_inner fuel'
                         (sorted
                            (map (fun s =>
                                    take (String.length s
                                          - String.length suffix) s)
                                 strings)))
                      (Lit (reversed suffix))
                else
                  (* recurse on common 1-string prefixes: last resort *)
                  alts (map (regex_opt_inner fuel')
                            (groupby (first_char_is (String.get 0 first))
                                     strings))
      end
  end.

(** The pattern inside the capturing group of [regex_opt(strings)].  The
    recursion of [regex_opt_inner] shortens the strings or the list at
    every call. *)
Definition regex_opt_group (strings : list string) : regex :=
  regex_opt_inner
    (S (List.length strings + list_sum (map String.length strings)))
    (sorted strings).

(** [regex_opt(strings, prefix, suffix)]; of an empty list only prefix
    and suffix remain. *)
Definition regex_opt (strings : list string) (prefix suffix : regex) : regex :=
  match strings with
  | [] => Seq prefix suffix
  | _ => Seq prefix (Seq (Grp 1 (regex_opt_group strings)) suffix)
  end.

(** [words(ws, prefix=..., suffix=...)], which the processing of the
    table turns into [regex_opt(ws, prefix, suffix)]. *)
Definition words (ws : list string) (prefix suffix : regex) : regex :=
  regex_opt ws prefix suffix.

(** *** [RegexLexer.get_tokens_unprocessed] *)

Section Lexer.
Variable defs : tokendefs.
(** The lexer run by [using(...)] on the text of a group. *)
Variable sublexer : string -> list token.
Variable text : string.

(** The [for rexmatch, action, new_state in statetokens] loop: the first
    rule whose pattern matches at [pos], with the end and the groups of
    its match. *)
Fixpoint first_match (rules : list prule) (pos : nat)
  : option (prule * (nat * groups)) :=
  match rules with
  | [] => None
  | r :: rules' =>
      match match_at text (rule_rx r) pos with
      | Some m => Some (r, m)
      | None => first_match rules' pos
      end
  end.

(** The [bygroups] callback; [i] is the number of the group that the
    first argument of [args] stands for. *)
Fixpoint bygroups (args : list gaction) (i : nat) (g : groups)
  : list token :=
  match args with
  | [] => []
  | a :: args' =>
      (match a, group g i with
       | GTok t, Some (s, e) =>
           let data := slice s e text in
           if is_empty data then [] else [(s, t, data)]
       | GUsing, Some (s, e) => map (shift s) (sublexer (slice s e text))
       | _, _ => []
       end) ++ bygroups args' (S i) g
  end.

Definition emit (a : action) (pos e : nat) (g : groups) : list token :=
  match a with
  | ANone => []
  | ATok t => [(pos, t, slice pos e text)]
  | AByGroups args => bygroups args 1 g
  end.

(** The state stack, top first ([statestack[-1]] is the head). *)
Definition top (stack : list state) : state := hd (Named "root") stack.

(** The state transition of a rule.  A pop keeps at least one state on
    the stack. *)
Definition transition (ns : newstate) (stack : list state) : list state :=
  match ns with
  | NoChange => stack
  | Pop n =>
      if Nat.leb (List.length stack) n
      then skipn (List.length stack - 1) stack   (* del statestack[1:] *)
      else skipn n stack                         (* del statestack[-n:] *)
  | Push l => rev l ++ stack
  end.

Inductive step_result : Type :=
| Stop
| Next (toks : list token) (pos : nat) (stack : list state).

(** One iteration of the [while 1] loop: the first rule that matches
    yields its tokens, moves the position to the end of its match and
    changes the stack.  When no rule matches, a newline is yielded as a
    [Text] token ([Text.Whitespace] in later releases of the library) and
    the stack is reset to ['root'] (the comment there reads: at EOL, reset
    state to root); any other character is yielded as an [Error] token;
    past the end of the text the loop stops. *)
Definition step (pos : nat) (stack : list state) : step_result :=
  match first_match (rules_of defs (top stack)) pos with
  | Some (r, (e, g)) =>
      Next (emit (rule_action r) pos e g) e (transition (rule_new r) stack)
  | None =>
      match String.get pos text with
      | Some c =>
          if Ascii.eqb c NL
          then Next [(pos, Text, nl)] (S pos) [Named "root"]
          else Next [(pos, Error, String c EmptyString)] (S pos) stack
      | None => Stop
      end
  end.

(** The loop, for at most [fuel] iterations: the tokens yielded, and the
    final stack when the loop has reached its [break]. *)
Fixpoint run (fuel : nat) (pos : nat) (stack : list state)
  : list token * option (list state) :=
  match fuel with
  | 0 => ([], None)
  | S fuel' =>
      match step pos stack with
      | Stop => ([], Some stack)
      | Next toks pos' stack' =>
          let (rest, fin) := run fuel' pos' stack' in
          (toks ++ rest, fin)
      end
  end.

End Lexer.

(** The whole loop from position 0 and the stack [('root',)].  The number
    of iterations allowed is four for every character and four more; the
    three lexers below are shown not to need more. *)
Definition lex (defs : tokendefs) (sublexer : string -> list token)
           (text : string) : list token * option (list state) :=
  run defs sublexer text (4 * String.length text + 4) 0 [Named "root"].

Definition get_tokens_unprocessed (defs : tokendefs)
           (sublexer : string -> list token) (text : string) : list token :=
  fst (lex defs sublexer text).

(** *** [do_insertions] *)

Definition insertion : Type := nat * list token.

(** The slice [v[start:stop]] with Python's treatment of negative and
    out-of-range bounds. *)
Definition py_bound (len : nat) (i : Z) : nat :=
  Z.to_nat
    (Z.min (Z.of_nat len)
           (Z.max 0 (if Z.ltb i 0 then i + Z.of_nat len else i)))%Z.

Definition py_slice (v : string) (start stop : Z) : string :=
  slice (py_bound (String.length v) start) (py_bound (String.length v) stop) v.

(** [for it_index, it_token, it_value in itokens: yield realpos, ...]. *)
Fixpoint emit_insertion (itokens : list token) (realpos : nat)
  : list token * nat :=
  match itokens with
  | [] => ([], realpos)
  | (_, t, v) :: itokens' =>
      let (out, rp) := emit_insertion itokens' (realpos + String.length v) in
      ((realpos, t, v) :: out, rp)
  end.

(** The loop [while insleft and i + len(v) >= index] for the token
    [(i, t, v)].  [pending] holds the current insertion and those after
    it; it is empty when [insleft] is false. *)
Fixpoint insert_while (i : nat) (t : ttype) (v : string) (oldi : Z)
         (realpos : nat) (pending : list insertion)
  : list token * (Z * nat * list insertion) :=
  match pending with
  | [] => ([], (oldi, realpos, []))
  | (index, itokens) :: rest =>
      if Nat.leb index (i + String.length v) then
        let stop := (Z.of_nat index - Z.of_nat i)%Z in
        let tmpval := py_slice v oldi stop in
        let out1 := if is_empty tmpval then [] else [(realpos, t, tmpval)] in
        let (out2, rp2) :=
          emit_insertion itokens (realpos + String.length tmpval) in
        let (out3, st) := insert_while i t v stop rp2 rest in
        (out1 ++ out2 ++ out3, st)
      else ([], (oldi, realpos, pending))
  end.

(** The loop [for i, t, v in tokens]. *)
Fixpoint insert_tokens (tokens : list token) (realpos : option nat)
         (pending : list insertion)
  : list token * (option nat * list insertion) :=
  match tokens with
  | [] => ([], (realpos, pending))
  | (i, t, v) :: tokens' =>
      let rp := match realpos with None => i | Some r => r end in
      let '(out1, (oldi, rp1, pending1)) := insert_while i t v 0%Z rp pending in
      let len := String.length v in
      let (out2, rp2) :=
        if Z.ltb oldi (Z.of_nat len)
        then ([(rp1, t, py_slice v oldi (Z.of_nat len))],
              rp1 + Z.to_nat (Z.of_nat len - oldi))
        else ([], rp1) in
      let (out3, st) := insert_tokens tokens' (Some rp2) pending1 in
      (out1 ++ out2 ++ out3, st)
  end.

(** The loop [while insleft] over the insertions left at the end. *)
Fixpoint insert_leftover (pending : list insertion) (realpos : nat)
  : list token :=
  match pending with
  | [] => []
  | (_, itokens) :: rest =>
      let (out, rp) := emit_insertion itokens realpos in
      out ++ insert_leftover rest rp
  end.

Definition do_insertions (insertions : list insertion) (tokens : list token)
  : list token :=
  match insertions with
  | [] => tokens
  | _ =>
      let '(out, (realpos, pending)) := insert_tokens tokens None insertions in
      out ++ insert_leftover pending
               (match realpos with None => 0 | Some r => r end)
  end.

(** *** [pattern.finditer] *)

(** The spans of the successive matches of [r] in [text], scanning from
    [p].  After a match the scan resumes at its end (one further after an
    empty match). *)
Fixpoint finditer_from (fuel : nat) (r : regex) (text : string) (p : nat)
  : list (nat * nat) :=
  match fuel with
  | 0 => []
  | S fuel' =>
      if Nat.ltb (String.length text) p then []
      else
        match match_at text r p with
        | Some (e, _) =>
            (p, e)
              :: finditer_from fuel' r text (if Nat.eqb e p then S e else e)
        | None => finditer_from fuel' r text (S p)
        end
  end.

Definition finditer (r : regex) (text : string) : list (nat * nat) :=
  finditer_from (S (String.length text)) r text 0.

End Pygments.

(* ================================================================== *)
(** ** The rule tables of [lexer.py] *)

Import Re Pygments.

(** [line_re = re.compile('.*?\n')] *)
Definition line_re : regex := Seq (LazyStar Any) (Chr NL).

(** Pieces of patterns that occur in several rules. *)
Definition letters_ : list cc := [CRange "a" "z"; CRange "A" "Z"; CChar "_"].
Definition ident : regex := Seq (InSet letters_) (Star (InSet [CWord])).
Definition digits : regex := Plus (InSet [CDigit]).                (* \d+ *)
Definition digits09 : regex := Plus (InSet [CRange "0" "9"]).      (* [0-9]+ *)
Definition hexdigit : regex :=
  InSet [CRange "a" "f"; CRange "A" "F"; CRange "0" "9"].
Definition dq3 : string := (dq ++ dq ++ dq)%string.
Definition bs : string := "\".
(** [(?:\s|\\\s)+] *)
Definition spaces_cont : regex :=
  Plus (Alt (InSet [CSpace]) (Seq (Lit bs) (InSet [CSpace]))).
(** [(?:[ \t]|\\\n)+] *)
Definition blanks_cont : regex :=
  Plus (Alt (InSet [CChar " "; CChar TAB]) (Lit (bs ++ nl))).
(** [[rR]|[uUbB][rR]|[rR][uUbB]] *)
Definition raw_prefix : regex :=
  alts [InSet (chars "rR");
        Seq (InSet (chars "uUbB")) (InSet (chars "rR"));
        Seq (InSet (chars "rR")) (InSet (chars "uUbB"))].


Module RenpyBlockLexer.

Definition block_start_words : list string :=
  [ "elif"; "else"; "except"; "finally"; "for"; "if"; "try"; "while";
    "with"; "label"; "screen"; "transform"; "init"; "layeredimage"; "menu";
    "style" ].

Definition block_end_words : list string :=
  [ (nl ++ nl)%string; "break"; "continue"; "return"; "yield";
    "yield from"; "pass"; "# *endregion" ].

(** [# *region\b] and [# *endregion\b] *)
Definition region_re : regex :=
  seqs [Lit "#"; Star (Lit " "); Lit "region"; WordB].
Definition endregion_re : regex :=
  seqs [Lit "#"; Star (Lit " "); Lit "endregion"; WordB].

Definition tokens : tokendefs :=
  [ ("root",
     [ Rule ident (ATok Name) NoChange;
       Rule (words block_start_words Eps WordB) (ATok Block_Start) NoChange;
       Rule region_re (ATok Block_Start) NoChange;
       Rule endregion_re (ATok Block_End) NoChange;
       Rule (words block_end_words Eps WordB) (ATok Block_End) NoChange ]) ].

Definition get_tokens_unprocessed (text : string) : list token :=
  Pygments.get_tokens_unprocessed tokens (fun _ => []) text.

End RenpyBlockLexer.

Module RenpyLexer.

Definition keyword_words : list string :=
  [ "assert"; "break"; "continue"; "del"; "elif"; "else"; "except"; "exec";
    "finally"; "for"; "global"; "if"; "lambda"; "pass"; "print"; "raise";
    "return"; "try"; "while"; "yield"; "yield from"; "as"; "with" ].

Definition reserved_words : list string :=
  [ "audio"; "scene"; "expression"; "play"; "queue"; "stop"; "python";
    "init"; "pause"; "jump"; "call"; "zorder"; "show"; "hide"; "at";
    "music"; "sound"; "voice" ].

Definition declaration_words : list string :=
  [ "default"; "define"; "layeredimage"; "screen"; "transform"; "label";
    "menu"; "style"; "image" ].

Definition special_label_words : list string :=
  [ "start"; "quit"; "after_load"; "splashscreen"; "before_main_menu";
    "main_menu"; "after_warp" ].

Definition screen_lang_words : list string :=
  [ "add"; "bar"; "button"; "fixed"; "frame"; "grid"; "hbox"; "imagebutton";
    "input"; "key"; "mousearea"; "null"; "side"; "text"; "textbutton";
    "timer"; "vbar"; "vbox"; "viewport"; "vpgrid"; "window"; "imagemap";
    "hotspot"; "hotbar"; "drag"; "draggroup"; "has"; "on"; "use";
    "transclude"; "transform"; "label" ].

Definition screen_action_words : list string :=
  [ "Call"; "Hide"; "Jump"; "NullAction"; "Return"; "Show"; "ShowTransient";
    "ToggleScreen"; "AddToSet"; "RemoveFromSet"; "SetDict"; "SetField";
    "SetLocalVariable"; "SetScreenVariable"; "SetVariable"; "ToggleDict";
    "ToggleField"; "ToggleLocalVariable"; "ToggleScreenVariable";
    "ToggleSetMembership"; "ToggleVariable"; "MainMenu"; "Quit"; "ShowMenu";
    "Start"; "FileAction"; "FileDelete"; "FileLoad"; "FilePage";
    "FilePageNext"; "FileSave"; "FileTakeScreenshot"; "QuickLoad";
    "QuickSave"; "PauseAudio"; "Play"; "Queue"; "SetMixer"; "SetMute";
    "Stop"; "ToggleMute"; "Confirm"; "DisableAllInputValues"; "Function";
    "Help"; "HideInterface"; "If"; "InvertSelected"; "MouseMove"; "Notify";
    "OpenURL"; "QueueEvent"; "RestartStatement"; "RollForward"; "Rollback";
    "RollbackToIdentifier"; "Screenshot"; "Scroll"; "SelectedIf";
    "SensitiveIf"; "Skip"; "With"; "AnimatedValue"; "AudioPositionValue";
    "DictValue"; "FieldValue"; "MixerValue"; "ScreenVariableValue";
    "StaticValue"; "VariableValue"; "XScrollValue"; "YScrollValue";
    "DictInputValue"; "FieldInputValue"; "FilePageNameInputValue";
    "ScreenVariableInputValue"; "VariableInputValue"; "Preference";
    "GamepadCalibrate"; "GamepadExists"; "FileCurrentPage";
    "FileCurrentScreenshot"; "FileJson"; "FileLoadable"; "FileNewest";
    "FilePageName"; "FileSaveName"; "FileScreenshot"; "FileSlotName";
    "FileTime"; "FileUsedSlot"; "SideImage"; "GetTooltip" ].

Definition builtin_words : list string :=
  [ "__import__"; "abs"; "all"; "any"; "apply"; "basestring"; "bin"; "bool";
    "buffer"; "bytearray"; "bytes"; "callable"; "chr"; "classmethod"; "cmp";
    "coerce"; "compile"; "complex"; "delattr"; "dict"; "dir"; "divmod";
    "enumerate"; "eval"; "execfile"; "exit"; "file"; "filter"; "float";
    "frozenset"; "getattr"; "globals"; "hasattr"; "hash"; "hex"; "id";
    "input"; "int"; "intern"; "isinstance"; "issubclass"; "iter"; "len";
    "list"; "locals"; "long"; "map"; "max"; "min"; "next"; "object"; "oct";
    "open"; "ord"; "pow"; "property"; "range"; "raw_input"; "reduce";
    "reload"; "repr"; "reversed"; "round"; "set"; "setattr"; "slice";
    "sorted"; "staticmethod"; "str"; "sum"; "super"; "tuple"; "type";
    "unichr"; "unicode"; "vars"; "xrange"; "zip" ].

Definition exception_words : list string :=
  [ "ArithmeticError"; "AssertionError"; "AttributeError"; "BaseException";
    "DeprecationWarning"; "EOFError"; "EnvironmentError"; "Exception";
    "FloatingPointError"; "FutureWarning"; "GeneratorExit"; "IOError";
    "ImportError"; "ImportWarning"; "IndentationError"; "IndexError";
    "KeyError"; "KeyboardInterrupt"; "LookupError"; "MemoryError";
    "ModuleNotFoundError"; "NameError"; "NotImplemented";
    "NotImplementedError"; "OSError"; "OverflowError"; "OverflowWarning";
    "PendingDeprecationWarning"; "RecursionError"; "ReferenceError";
    "RuntimeError"; "RuntimeWarning"; "StandardError"; "StopIteration";
    "StopAsyncIteration"; "SyntaxError"; "SyntaxWarning"; "SystemError";
    "SystemExit"; "TabError"; "TypeError"; "UnboundLocalError";
    "UnicodeDecodeError"; "UnicodeEncodeError"; "UnicodeError";
    "UnicodeTranslateError"; "UnicodeWarning"; "UserWarning"; "ValueError";
    "VMSError"; "Warning"; "WindowsError"; "ZeroDivisionError" ].

Definition magicfunc_words : list string :=
  [ "__abs__"; "__add__"; "__and__"; "__call__"; "__cmp__"; "__coerce__";
    "__complex__"; "__contains__"; "__del__"; "__delattr__"; "__delete__";
    "__delitem__"; "__delslice__"; "__div__"; "__divmod__"; "__enter__";
    "__eq__"; "__exit__"; "__float__"; "__floordiv__"; "__ge__"; "__get__";
    "__getattr__"; "__getattribute__"; "__getitem__"; "__getslice__";
    "__gt__"; "__hash__"; "__hex__"; "__iadd__"; "__iand__"; "__idiv__";
    "__ifloordiv__"; "__ilshift__"; "__imod__"; "__imul__"; "__index__";
    "__init__"; "__instancecheck__"; "__int__"; "__invert__"; "__iop__";
    "__ior__"; "__ipow__"; "__irshift__"; "__isub__"; "__iter__";
    "__itruediv__"; "__ixor__"; "__le__"; "__len__"; "__long__";
    "__lshift__"; "__lt__"; "__missing__"; "__mod__"; "__mul__"; "__ne__";
    "__neg__"; "__new__"; "__nonzero__"; "__oct__"; "__op__"; "__or__";
    "__pos__"; "__pow__"; "__radd__"; "__rand__"; "__rcmp__"; "__rdiv__";
    "__rdivmod__"; "__repr__"; "__reversed__"; "__rfloordiv__";
    "__rlshift__"; "__rmod__"; "__rmul__"; "__rop__"; "__ror__"; "__rpow__";
    "__rrshift__"; "__rshift__"; "__rsub__"; "__rtruediv__"; "__rxor__";
    "__set__"; "__setattr__"; "__setitem__"; "__setslice__"; "__str__";
    "__sub__"; "__subclasscheck__"; "__truediv__"; "__unicode__"; "__xor__" ].

Definition magicvar_words : list string :=
  [ "__bases__"; "__class__"; "__closure__"; "__code__"; "__defaults__";
    "__dict__"; "__doc__"; "__file__"; "__func__"; "__globals__";
    "__metaclass__"; "__module__"; "__mro__"; "__name__"; "__self__";
    "__slots__"; "__weakref__" ].

(** [innerstring_rules(ttype)] *)
Definition innerstring_rules (ttype : ttype) : list tdef :=
  [ (* the old style '%s' % (...) string formatting:
       %(\(\w+\))?[-#0 +]*([0-9]+|[*])?(\.([0-9]+|[*]))?[hlL]?[E-GXc-giorsux%] *)
    Rule (seqs [Lit "%";
                Opt (Grp 1 (seqs [Lit "("; Plus (InSet [CWord]); Lit ")"]));
                Star (InSet (chars "-#0 +"));
                Opt (Grp 2 (Alt digits09 (InSet (chars "*"))));
                Opt (Grp 3 (Seq (Lit ".")
                                (Grp 4 (Alt digits09 (InSet (chars "*"))))));
                Opt (InSet (chars "hlL"));
                InSet ([CRange "E" "G"; CChar "X"; CRange "c" "g"]
                         ++ chars "iorsux%")])
         (ATok String_Interpol) NoChange;
    (* backslashes, quotes and formatting signs must be parsed one at a
       time: [^\\\'\x22%\n]+ *)
    Rule (Plus (NotInSet [CChar "\"; CChar "'"; CChar DQUOTE; CChar "%";
                          CChar NL]))
         (ATok ttype) NoChange;
    (* [\'\x22\\] *)
    Rule (InSet [CChar "'"; CChar DQUOTE; CChar "\"]) (ATok ttype) NoChange;
    (* unhandled string formatting sign *)
    Rule (Lit "%") (ATok ttype) NoChange
    (* newlines are an error (use 'nl' state) *)
  ].

(** In the comments that quote a pattern of the source, [\x22] stands for
    a double quote and a blank is put between a star and a closing
    parenthesis. *)

(** The dictionary [tokens].  Its state ['properties'] (one word list of
    3611 names with the token [Renpy.Properties]) is left out: no state
    includes it and no rule enters it. *)
Definition tokens : tokendefs :=
  [ ("root",
     [ Rule (Chr NL) (ATok Text) NoChange;
       Include "screen_lang";
       (* ^ *\$ *)
       Rule (seqs [Bol; Star (Lit " "); Lit "$"])
            (ATok Renpy_Python_Inline) NoChange;
       (* ((renpy|im)\.[a-zA-Z_]+)\(([a-zA-Z_ ,=]+)\) *)
       Rule (seqs [Grp 1 (seqs [Grp 2 (Alt (Lit "renpy") (Lit "im"));
                                Lit "."; Plus (InSet letters_)]);
                   Lit "(";
                   Grp 3 (Plus (InSet (letters_ ++ chars " ,=")));
                   Lit ")"])
            (AByGroups [GTok Renpy_Function_Builtin;
                        GTok Renpy_Function_Arguments]) NoChange;
       Include "screen_actions";
       Rule (Lit "$") (ATok String_Symbol) NoChange;
       (* ^(\s* )([rRuUbB]{,2})(\x22\x22\x22(?:.|\n)*?\x22\x22\x22) *)
       Rule (seqs [Bol; Grp 1 (Star (InSet [CSpace]));
                   Grp 2 (UpTo 2 (InSet (chars "rRuUbB")));
                   Grp 3 (seqs [Lit dq3; LazyStar (Alt Any (Chr NL));
                                Lit dq3])])
            (AByGroups [GTok Text; GTok String_Affix; GTok String_Doc])
            NoChange;
       (* ^(\s* )([rRuUbB]{,2})('''(?:.|\n)*?''') *)
       Rule (seqs [Bol; Grp 1 (Star (InSet [CSpace]));
                   Grp 2 (UpTo 2 (InSet (chars "rRuUbB")));
                   Grp 3 (seqs [Lit "'''"; LazyStar (Alt Any (Chr NL));
                                Lit "'''"])])
            (AByGroups [GTok Text; GTok String_Affix; GTok String_Doc])
            NoChange;
       (* [^\S\n]+ *)
       Rule (Plus (NotInSet [CNotSpace; CChar NL])) (ATok Text) NoChange;
       (* \A#!.+$ *)
       Rule (seqs [BoS; Lit "#!"; Plus Any; Eol])
            (ATok Comment_Hashbang) NoChange;
       (* #.*$ *)
       Rule (seqs [Lit "#"; Star Any; Eol]) (ATok Comment_Single) NoChange;
       (* []{}:(),;[] *)
       Rule (InSet (chars "]{}:(),;[")) (ATok Punctuation) NoChange;
       (* \\\n *)
       Rule (Lit (bs ++ nl)) (ATok Text) NoChange;
       (* \\ *)
       Rule (Lit bs) (ATok Text) NoChange;
       (* (in|is|and|or|not)\b *)
       Rule (Seq (Grp 1 (alts [Lit "in"; Lit "is"; Lit "and"; Lit "or";
                               Lit "not"])) WordB)
            (ATok Operator_Word) NoChange;
       (* !=|==|<<|>>|[-~+/*%=<>&^|.] *)
       Rule (alts [Lit "!="; Lit "=="; Lit "<<"; Lit ">>";
                   InSet (chars "-~+/*%=<>&^|.")])
            (ATok Operator) NoChange;
       Include "keywords";
       Include "special_labels";
       (* (def)((?:\s|\\\s)+) *)
       Rule (Seq (Grp 1 (Lit "def")) (Grp 2 spaces_cont))
            (AByGroups [GTok Keyword; GTok Text]) (Push [Named "funcname"]);
       Rule (Seq (Grp 1 (Lit "class")) (Grp 2 spaces_cont))
            (AByGroups [GTok Keyword; GTok Text]) (Push [Named "classname"]);
       Rule (Seq (Grp 1 (Lit "from")) (Grp 2 spaces_cont))
            (AByGroups [GTok Keyword_Namespace; GTok Text])
            (Push [Named "fromimport"]);
       Rule (Seq (Grp 1 (Lit "import")) (Grp 2 spaces_cont))
            (AByGroups [GTok Keyword_Namespace; GTok Text])
            (Push [Named "import"]);
       Include "builtins";
       Include "magicfuncs";
       Include "magicvars";
       Include "backtick";
       (* ([rR]|[uUbB][rR]|[rR][uUbB])(\x22\x22\x22) and its three siblings *)
       Rule (Seq (Grp 1 raw_prefix) (Grp 2 (Lit dq3)))
            (AByGroups [GTok String_Affix; GTok String_Double])
            (Push [Named "tdqs"]);
       Rule (Seq (Grp 1 raw_prefix) (Grp 2 (Lit "'''")))
            (AByGroups [GTok String_Affix; GTok String_Single])
            (Push [Named "tsqs"]);
       Rule (Seq (Grp 1 raw_prefix) (Grp 2 (Lit dq)))
            (AByGroups [GTok String_Affix; GTok String_Double])
            (Push [Named "dqs"]);
       Rule (Seq (Grp 1 raw_prefix) (Grp 2 (Lit "'")))
            (AByGroups [GTok String_Affix; GTok String_Single])
            (Push [Named "sqs"]);
       (* ([uUbB]?)(\x22\x22\x22) and its three siblings *)
       Rule (Seq (Grp 1 (Opt (InSet (chars "uUbB")))) (Grp 2 (Lit dq3)))
            (AByGroups [GTok String_Affix; GTok String_Double])
            (Push [Combined ["stringescape"; "tdqs"]]);
       Rule (Seq (Grp 1 (Opt (InSet (chars "uUbB")))) (Grp 2 (Lit "'''")))
            (AByGroups [GTok String_Affix; GTok String_Single])
            (Push [Combined ["stringescape"; "tsqs"]]);
       Rule (Seq (Grp 1 (Opt (InSet (chars "uUbB")))) (Grp 2 (Lit dq)))
            (AByGroups [GTok String_Affix; GTok String_Double])
            (Push [Combined ["stringescape"; "dqs"]]);
       Rule (Seq (Grp 1 (Opt (InSet (chars "uUbB")))) (Grp 2 (Lit "'")))
            (AByGroups [GTok String_Affix; GTok String_Single])
            (Push [Combined ["stringescape"; "sqs"]]);
       Include "name";
       Include "numbers" ]);
    ("keywords",
     [ Rule (words keyword_words Eps WordB) (ATok Keyword) NoChange;
       Rule (words reserved_words Eps WordB) (ATok Renpy_Reserved) NoChange;
       Rule (words declaration_words Eps WordB)
            (ATok Renpy_Declaration) NoChange ]);
    ("special_labels",
     [ Rule (words special_label_words (Lit "label ") WordB)
            (ATok Renpy_Label_Reserved) NoChange ]);
    ("screen_lang",
     [ (* prefix \s+ *)
       Rule (words screen_lang_words (Plus (InSet [CSpace])) WordB)
            (ATok Renpy_Screen_Displayables) NoChange ]);
    ("screen_actions",
     [ Rule (words screen_action_words (Lit " ") WordB)
            (ATok Renpy_Screen_Actions) NoChange ]);
    ("builtins",
     [ (* prefix (?<!\.) *)
       Rule (words builtin_words (NotBehind (chars ".")) WordB)
            (ATok Name_Builtin) NoChange;
       (* (?<!\.)(self|None|Ellipsis|NotImplemented|False|True|cls)\b *)
       Rule (seqs [NotBehind (chars ".");
                   Grp 1 (alts [Lit "self"; Lit "None"; Lit "Ellipsis";
                                Lit "NotImplemented"; Lit "False";
                                Lit "True"; Lit "cls"]);
                   WordB])
            (ATok Name_Builtin_Pseudo) NoChange;
       Rule (words exception_words (NotBehind (chars ".")) WordB)
            (ATok Name_Exception) NoChange ]);
    ("magicfuncs",
     [ Rule (words magicfunc_words Eps WordB)
            (ATok Name_Function_Magic) NoChange ]);
    ("magicvars",
     [ Rule (words magicvar_words Eps WordB)
            (ATok Name_Variable_Magic) NoChange ]);
    ("numbers",
     [ (* (\d+\.\d*|\d*\.\d+)([eE][+-]?[0-9]+)?j? *)
       Rule (seqs [Grp 1 (Alt (seqs [digits; Lit "."; Star (InSet [CDigit])])
                              (seqs [Star (InSet [CDigit]); Lit "."; digits]));
                   Opt (Grp 2 (seqs [InSet (chars "eE");
                                     Opt (InSet (chars "+-")); digits09]));
                   Opt (Lit "j")])
            (ATok Number_Float) NoChange;
       (* \d+[eE][+-]?[0-9]+j? *)
       Rule (seqs [digits; InSet (chars "eE"); Opt (InSet (chars "+-"));
                   digits09; Opt (Lit "j")])
            (ATok Number_Float) NoChange;
       (* 0[0-7]+j? *)
       Rule (seqs [Lit "0"; Plus (InSet [CRange "0" "7"]); Opt (Lit "j")])
            (ATok Number_Oct) NoChange;
       (* 0[bB][01]+ *)
       Rule (seqs [Lit "0"; InSet (chars "bB"); Plus (InSet (chars "01"))])
            (ATok Number_Bin) NoChange;
       (* 0[xX][a-fA-F0-9]+ *)
       Rule (seqs [Lit "0"; InSet (chars "xX"); Plus hexdigit])
            (ATok Number_Hex) NoChange;
       (* \d+L *)
       Rule (Seq digits (Lit "L")) (ATok Number_Integer_Long) NoChange;
       (* \d+j? *)
       Rule (Seq digits (Opt (Lit "j"))) (ATok Number_Integer) NoChange ]);
    ("backtick",
     [ (* `.*?` *)
       Rule (seqs [Lit "`"; LazyStar Any; Lit "`"])
            (ATok String_Backtick) NoChange ]);
    ("name",
     [ (* @[\w.]+ *)
       Rule (Seq (Lit "@") (Plus (InSet [CWord; CChar "."])))
            (ATok Name_Decorator) NoChange;
       Rule ident (ATok Name) NoChange ]);
    ("funcname",
     [ Include "magicfuncs";
       Rule ident (ATok Name_Function) (Pop 1);
       default (Pop 1) ]);
    ("classname",
     [ Rule ident (ATok Name_Class) (Pop 1) ]);
    ("import",
     [ Rule blanks_cont (ATok Text) NoChange;
       Rule (Seq (Lit "as") WordB) (ATok Keyword_Namespace) NoChange;
       Rule (Lit ",") (ATok Operator) NoChange;
       (* [a-zA-Z_][\w.]* *)
       Rule (Seq (InSet letters_) (Star (InSet [CWord; CChar "."])))
            (ATok Name_Namespace) NoChange;
       default (Pop 1)  (* all else: go back *) ]);
    ("fromimport",
     [ Rule blanks_cont (ATok Text) NoChange;
       Rule (Seq (Lit "import") WordB) (ATok Keyword_Namespace) (Pop 1);
       (* if None occurs here, it's 'raise x from None', since None can
          never be a module name *)
       Rule (Seq (Lit "None") WordB) (ATok Name_Builtin_Pseudo) (Pop 1);
       (* sadly, in 'raise x from y' y will be highlighted as namespace
          too: [a-zA-Z_.][\w.]* *)
       Rule (Seq (InSet (letters_ ++ chars "."))
                 (Star (InSet [CWord; CChar "."])))
            (ATok Name_Namespace) NoChange;
       (* anything else here also means 'raise x from y' and is therefore
          not an error *)
       default (Pop 1) ]);
    ("stringescape",
     [ (* \\([\\abfnrtv\x22\']|\n|N\{.*?\}|u[a-fA-F0-9]{4}|U[a-fA-F0-9]{8}|
              x[a-fA-F0-9]{2}|[0-7]{1,3}) *)
       Rule (Seq (Lit bs)
                 (Grp 1 (alts [InSet ([CChar "\"] ++ chars "abfnrtv"
                                        ++ [CChar DQUOTE; CChar "'"]);
                               Chr NL;
                               seqs [Lit "N{"; LazyStar Any; Lit "}"];
                               Seq (Lit "u") (Times 4 hexdigit);
                               Seq (Lit "U") (Times 8 hexdigit);
                               Seq (Lit "x") (Times 2 hexdigit);
                               Seq (InSet [CRange "0" "7"])
                                   (UpTo 2 (InSet [CRange "0" "7"]))])))
            (ATok String_Escape) NoChange ]);
    ("strings-single", innerstring_rules String_Single);
    ("strings-double", innerstring_rules String_Double);
    ("dqs",
     [ Rule (Lit dq) (ATok String_Double) (Pop 1);
       (* \\\\|\\\x22|\\\n, included here for raw strings *)
       Rule (alts [Lit (bs ++ bs); Lit (bs ++ dq); Lit (bs ++ nl)])
            (ATok String_Escape) NoChange;
       Include "strings-double" ]);
    ("sqs",
     [ Rule (Lit "'") (ATok String_Single) (Pop 1);
       Rule (alts [Lit (bs ++ bs); Lit (bs ++ "'"); Lit (bs ++ nl)])
            (ATok String_Escape) NoChange;
       Include "strings-single" ]);
    ("tdqs",
     [ Rule (Lit dq3) (ATok String_Double) (Pop 1);
       Include "strings-double";
       Rule (Chr NL) (ATok String_Double) NoChange ]);
    ("tsqs",
     [ Rule (Lit "'''") (ATok String_Single) (Pop 1);
       Include "strings-single";
       Rule (Chr NL) (ATok String_Single) NoChange ]) ].

Definition get_tokens_unprocessed (text : string) : list token :=
  Pygments.get_tokens_unprocessed tokens (fun _ => []) text.

End RenpyLexer.

Module RenpyTracebackLexer.

Definition tokens : tokendefs :=
  [ ("root",
     [ (* Cover both (most recent call last) and (innermost last).
          The optional ^C allows us to catch keyboard interrupt signals:
          ^(\^C)?(Traceback.*\n) *)
       Rule (seqs [Bol; Opt (Grp 1 (Lit "^C"));
                   Grp 2 (seqs [Lit "Traceback"; Star Any; Chr NL])])
            (AByGroups [GTok Text; GTok Generic_Traceback])
            (Push [Named "intb"]);
       (* SyntaxError starts with this:
          ^(?=  File \x22[^\x22]+\x22, line \d+) *)
       Rule (Seq Bol (Ahead (seqs [Lit ("  File " ++ dq);
                                   Plus (NotInSet [CChar DQUOTE]);
                                   Lit (dq ++ ", line "); digits])))
            (ATok Generic_Traceback) (Push [Named "intb"]);
       (* ^.*\n *)
       Rule (seqs [Bol; Star Any; Chr NL]) (ATok Other) NoChange ]);
    ("intb",
     [ (* ^(  File )(\x22[^\x22]+\x22)(, line )(\d+)(, in )(.+)(\n) *)
       Rule (seqs [Bol; Grp 1 (Lit "  File ");
                   Grp 2 (seqs [Lit dq; Plus (NotInSet [CChar DQUOTE]);
                                Lit dq]);
                   Grp 3 (Lit ", line "); Grp 4 digits; Grp 5 (Lit ", in ");
                   Grp 6 (Plus Any); Grp 7 (Chr NL)])
            (AByGroups [GTok Text; GTok Name_Builtin; GTok Text; GTok Number;
                        GTok Text; GTok Name; GTok Text]) NoChange;
       (* ^(  File )(\x22[^\x22]+\x22)(, line )(\d+)(\n) *)
       Rule (seqs [Bol; Grp 1 (Lit "  File ");
                   Grp 2 (seqs [Lit dq; Plus (NotInSet [CChar DQUOTE]);
                                Lit dq]);
                   Grp 3 (Lit ", line "); Grp 4 digits; Grp 5 (Chr NL)])
            (AByGroups [GTok Text; GTok Name_Builtin; GTok Text; GTok Number;
                        GTok Text]) NoChange;
       (* ^(    )(.+)(\n) *)
       Rule (seqs [Bol; Grp 1 (Lit "    "); Grp 2 (Plus Any);
                   Grp 3 (Chr NL)])
            (AByGroups [GTok Text; GUsing; GTok Text]) NoChange;
       (* ^([ \t]* )(\.\.\.)(\n), for doctests... *)
       Rule (seqs [Bol; Grp 1 (Star (InSet [CChar " "; CChar TAB]));
                   Grp 2 (Lit "..."); Grp 3 (Chr NL)])
            (AByGroups [GTok Text; GTok Comment; GTok Text]) NoChange;
       (* ^([^:]+)(: )(.+)(\n) *)
       Rule (seqs [Bol; Grp 1 (Plus (NotInSet (chars ":")));
                   Grp 2 (Lit ": "); Grp 3 (Plus Any); Grp 4 (Chr NL)])
            (AByGroups [GTok Generic_Error; GTok Text; GTok Name; GTok Text])
            (Pop 1);
       (* ^([a-zA-Z_]\w* )(:?\n) *)
       Rule (seqs [Bol; Grp 1 ident; Grp 2 (Seq (Opt (Lit ":")) (Chr NL))])
            (AByGroups [GTok Generic_Error; GTok Text]) (Pop 1) ]) ].

(** [using(RenpyLexer)] runs [RenpyLexer] on the text of the group. *)
Definition lex (text : string) : list token * option (list state) :=
  Pygments.lex tokens RenpyLexer.get_tokens_unprocessed text.

Definition get_tokens_unprocessed (text : string) : list token :=
  fst (lex text).

End RenpyTracebackLexer.

Module RenpyConsoleLexer.

(** The local variables of [get_tokens_unprocessed] that outlive one
    iteration of its loop. *)
Record vars : Type := Vars {
  curcode : string;
  insertions : list insertion;
  curtb : string;
  tbindex : nat;
  tb : bool
}.

Definition init : vars :=
  {| curcode := EmptyString; insertions := []; curtb := EmptyString;
     tbindex := 0; tb := false |}.

(** [re.match(u'  File \x22[^\x22]+\x22, line \\d+\\n$', line)] *)
Definition file_line_re : regex :=
  seqs [Lit ("  File " ++ dq); Plus (NotInSet [CChar DQUOTE]);
        Lit (dq ++ ", line "); digits; Chr NL; EndDollar].

Definition traceback_header : string := "Traceback (most recent call last):".

Definition is_header (line : string) : bool :=
  (startswith traceback_header line
   || match match_at line file_line_re 0 with
      | Some _ => true
      | None => false
      end)%bool.

Definition is_prompt (line : string) : bool :=
  (startswith ">>> " line || startswith "... " line)%bool.

(** [do_insertions(insertions, pylexer.get_tokens_unprocessed(curcode))] *)
Definition flush_code (v : vars) : list token :=
  do_insertions (insertions v) (RenpyLexer.get_tokens_unprocessed (curcode v)).

(** [for i, t, v in tblexer.get_tokens_unprocessed(curtb):
        yield tbindex + i, t, v] *)
Definition flush_tb (index : nat) (block : string) : list token :=
  map (shift index) (RenpyTracebackLexer.get_tokens_unprocessed block).

(** The body of the loop [for match in line_re.finditer(text)], for the
    line [line = match.group()] that starts at [start = match.start()]:
    the tokens it yields and the variables after it. *)
Definition do_line (v : vars) (start : nat) (line : string)
  : list token * vars :=
  if is_prompt line then
    ([], {| curcode := curcode v ++ drop 4 line;
            insertions := insertions v ++
              [(String.length (curcode v), [(0, Generic_Prompt, take 4 line)])];
            curtb := curtb v; tbindex := tbindex v; tb := false |})
  else if (String.eqb (rstrip line) "..." && negb (tb v))%bool then
    (* only a new >>> prompt can end an exception block
       otherwise an ellipsis in place of the traceback frames
       will be mishandled *)
    ([], {| curcode := curcode v ++ drop 3 line;
            insertions := insertions v ++
              [(String.length (curcode v), [(0, Generic_Prompt, "...")])];
            curtb := curtb v; tbindex := tbindex v; tb := tb v |})
  else
    let (out, v1) :=
      if is_empty (curcode v) then ([], v)
      else (flush_code v,
            {| curcode := EmptyString; insertions := [];
               curtb := curtb v; tbindex := tbindex v; tb := tb v |}) in
    if is_header line then
      (out, {| curcode := curcode v1; insertions := insertions v1;
               curtb := line; tbindex := start; tb := true |})
    else if String.eqb line ("KeyboardInterrupt" ++ nl) then
      (out ++ [(start, Name_Class, line)], v1)
    else if tb v1 then
      let block := (curtb v1 ++ line)%string in
      if negb (startswith " " line || String.eqb (strip line) "...") then
        (out ++ flush_tb (tbindex v1) block,
         {| curcode := curcode v1; insertions := insertions v1;
            curtb := EmptyString; tbindex := tbindex v1; tb := false |})
      else
        (out, {| curcode := curcode v1; insertions := insertions v1;
                 curtb := block; tbindex := tbindex v1; tb := tb v1 |})
    else
      (out ++ [(start, Generic_Output, line)], v1).

(** The loop over the matches of [line_re], given as the start and the
    text of each line. *)
Fixpoint do_lines (v : vars) (lines : list (nat * string))
  : list token * vars :=
  match lines with
  | [] => ([], v)
  | (start, line) :: lines' =>
      let (out1, v1) := do_line v start line in
      let (out2, v2) := do_lines v1 lines' in
      (out1 ++ out2, v2)
  end.

(** The two statements after the loop. *)
Definition finish (v : vars) : list token :=
  (if is_empty (curcode v) then [] else flush_code v)
  ++ (if is_empty (curtb v) then [] else flush_tb (tbindex v) (curtb v)).

Definition lines_of (text : string) : list (nat * string) :=
  map (fun m => (fst m, slice (fst m) (snd m) text)) (finditer line_re text).

Definition get_tokens_unprocessed (text : string) : list token :=
  let (out, v) := do_lines init (lines_of text) in
  out ++ finish v.

End RenpyConsoleLexer.

(* ================================================================== *)
(** ** What a pattern can match: a relational reading of [Re.rmatch] *)

Import Re Pygments.

(** [Matches text r p g p' g']: read from position [p] with the groups
    [g], the pattern [r] can match up to [p'] and leave the groups [g'].
    The relation lists every way to match and ignores which one the
    matcher prefers. *)
Inductive Matches (text : string)
  : regex -> nat -> groups -> nat -> groups -> Prop :=
| M_Eps p g : Matches text Eps p g p g
| M_Lit s p g :
    lit_at text s p = true -> Matches text (Lit s) p g (p + String.length s) g
| M_InSet items p g c :
    char_at text p = Some c -> in_set items c = true ->
    Matches text (InSet items) p g (S p) g
| M_NotInSet items p g c :
    char_at text p = Some c -> in_set items c = false ->
    Matches text (NotInSet items) p g (S p) g
| M_Any p g c :
    char_at text p = Some c -> Ascii.eqb c NL = false ->
    Matches text Any p g (S p) g
| M_Seq a b p g p1 g1 p2 g2 :
    Matches text a p g p1 g1 -> Matches text b p1 g1 p2 g2 ->
    Matches text (Seq a b) p g p2 g2
| M_AltL a b p g p1 g1 :
    Matches text a p g p1 g1 -> Matches text (Alt a b) p g p1 g1
| M_AltR a b p g p1 g1 :
    Matches text b p g p1 g1 -> Matches text (Alt a b) p g p1 g1
| M_Star0 a p g : Matches text (Star a) p g p g
| M_StarS a p g p1 g1 p2 g2 :
    Matches text a p g p1 g1 -> p < p1 ->
    Matches text (Star a) p1 g1 p2 g2 ->
    Matches text (Star a) p g p2 g2
| M_Lazy0 a p g : Matches text (LazyStar a) p g p g
| M_LazyS a p g p1 g1 p2 g2 :
    Matches text a p g p1 g1 -> p < p1 ->
    Matches text (LazyStar a) p1 g1 p2 g2 ->
    Matches text (LazyStar a) p g p2 g2
| M_Grp i a p g p1 g1 :
    Matches text a p g p1 g1 ->
    Matches text (Grp i a) p g p1 ((i, (p, p1)) :: g1)
| M_Bol p g : at_bol text p = true -> Matches text Bol p g p g
| M_Eol p g : at_eol text p = true -> Matches text Eol p g p g
| M_BoS g : Matches text BoS 0 g 0 g
| M_EndDollar p g :
    at_end_dollar text p = true -> Matches text EndDollar p g p g
| M_WordB p g : at_wordb text p = true -> Matches text WordB p g p g
| M_Ahead a p g p1 g1 :
    Matches text a p g p1 g1 -> Matches text (Ahead a) p g p g
| M_NotBehind items p g :
    match prev_at text p with Some c => in_set items c | None => false end
      = false ->
    Matches text (NotBehind items) p g p g.

(** Patterns that may match without consuming a character. *)
Fixpoint nullable (r : regex) : bool :=
  match r with
  | Lit s => is_empty s
  | InSet _ | NotInSet _ | Any => false
  | Seq a b => (nullable a && nullable b)%bool
  | Alt a b => (nullable a || nullable b)%bool
  | Grp _ a => nullable a
  | _ => true
  end.

(** Decidable checks on a rule table, over a list of the states that the
    stack can hold. *)
Fixpoint strings_eqb (l1 l2 : list string) : bool :=
  match l1, l2 with
  | [], [] => true
  | a :: l1', b :: l2' => (String.eqb a b && strings_eqb l1' l2')%bool
  | _, _ => false
  end.

Definition state_eqb (a b : state) : bool :=
  match a, b with
  | Named x, Named y => String.eqb x y
  | Combined l1, Combined l2 => strings_eqb l1 l2
  | _, _ => false
  end.

Definition mem_state (s : state) (l : list state) : bool :=
  existsb (state_eqb s) l.

Definition root : state := Named "root".

(** Every state that a rule pushes is listed. *)
Definition pushes_within (states : list state) (r : prule) : bool :=
  match rule_new r with
  | Push l => forallb (fun s => mem_state s states) l
  | _ => true
  end.

(** A state none of whose rules can match without consuming a
    character. *)
Definition strict (defs : tokendefs) (st : state) : bool :=
  forallb (fun r => negb (nullable (rule_rx r))) (rules_of defs st).

(** A rule consumes a character, unless it pops from a state other than
    the root or pushes one strict state; a rule pushes one state at
    most. *)
Definition advances (defs : tokendefs) (st : state) (r : prule) : bool :=
  match rule_new r with
  | NoChange => negb (nullable (rule_rx r))
  | Push l =>
      (Nat.leb (List.length l) 1
       && (negb (nullable (rule_rx r))
           || (Nat.eqb (List.length l) 1 && forallb (strict defs) l)))%bool
  | Pop n =>
      (negb (nullable (rule_rx r))
       || (Nat.leb 1 n && negb (state_eqb st root)))%bool
  end.

Definition table_ok (defs : tokendefs) (states : list state) : bool :=
  (mem_state root states
   && forallb (fun st =>
                 forallb (fun r => (pushes_within states r
                                    && advances defs st r)%bool)
                         (rules_of defs st)) states)%bool.

(** The invariant of the loop of a lexer whose stack stays within
    [states]: the position is inside the text, the stack holds listed
    states only, and its bottom is the root state. *)
Definition stack_inv (text : string) (states : list state)
           (pos : nat) (stack : list state) : Prop :=
  pos <= String.length text /\
  Forall (fun st => In st states) stack /\
  exists l, stack = l ++ [root].

(** What every iteration lowers when [table_ok] holds. *)
Definition measure (defs : tokendefs) (text : string)
           (pos : nat) (stack : list state) : nat :=
  4 * (String.length text - pos) + List.length stack
  + (if strict defs (top stack) then 0 else 2).

(** The token kinds that an action can yield by itself. *)
Definition action_types (a : action) : list ttype :=
  match a with
  | ANone => []
  | ATok t => [t]
  | AByGroups args =>
      flat_map (fun ga => match ga with GTok t => [t] | _ => [] end) args
  end.

Definition mentions (t : ttype) (a : action) : bool :=
  existsb (ttype_eqb t) (action_types a).

(** The states that the stack of [RenpyTracebackLexer] can hold. *)
Definition traceback_states : list state := [root; Named "intb"].

(** The states that the stack of [RenpyLexer] can hold. *)
Definition renpy_states : list state :=
  [ root; Named "funcname"; Named "classname"; Named "fromimport";
    Named "import"; Named "tdqs"; Named "tsqs"; Named "dqs"; Named "sqs";
    Combined ["stringescape"; "tdqs"]; Combined ["stringescape"; "tsqs"];
    Combined ["stringescape"; "dqs"]; Combined ["stringescape"; "sqs"] ].

(** The kinds that the word-boundary claim calls keyword-classified. *)
Definition keyword_kind (t : ttype) : bool :=
  match t with
  | Keyword | Renpy_Reserved | Renpy_Declaration => true
  | _ => false
  end.

(** Patterns made of literals, sets of single characters, sequences and
    alternatives, as [regex_opt] builds them, and the finite list of the
    strings such a pattern matches. *)
Fixpoint simple (r : regex) : bool :=
  match r with
  | Eps | Lit _ => true
  | InSet items =>
      forallb (fun i => match i with CChar _ => true | _ => false end) items
  | Seq a b | Alt a b => (simple a && simple b)%bool
  | _ => false
  end.

Fixpoint lang (r : regex) : list string :=
  match r with
  | Eps => [EmptyString]
  | Lit s => [s]
  | InSet items =>
      flat_map (fun i => match i with
                         | CChar c => [String c EmptyString]
                         | _ => []
                         end) items
  | Seq a b =>
      flat_map (fun x => map (fun y => (x ++ y)%string) (lang b)) (lang a)
  | Alt a b => lang a ++ lang b
  | _ => []
  end.

Definition mem_string (w : string) (l : list string) : bool :=
  existsb (String.eqb w) l.

(** The pattern that [regex_opt] builds for a word list matches the
    words of the list and nothing else. *)
Definition words_checked (ws : list string) : bool :=
  (negb (Nat.eqb (List.length ws) 0)
   && simple (regex_opt_group ws)
   && forallb (fun w => mem_string w ws) (lang (regex_opt_group ws))
   && forallb (fun w => mem_string w (lang (regex_opt_group ws))) ws)%bool.

(** A word that begins with a letter or an underscore. *)
Definition alphabetic (w : string) : bool :=
  match String.get 0 w with
  | Some c => in_set letters_ c
  | None => false
  end.

(** The value of a token stands in the text at the token's index. *)
Definition occurs_at (text : string) (tk : token) : Prop :=
  lit_at text (tok_value tk) (tok_index tk) = true.

(** No identifier character stands right after, or right before, a
    token. *)
Definition not_followed_by_word (text : string) (tk : token) : Prop :=
  word_opt (char_at text (tok_index tk + String.length (tok_value tk))) = false.

Definition not_preceded_by_word (text : string) (tk : token) : Prop :=
  word_opt (prev_at text (tok_index tk)) = false.

(** Patterns without a capturing group. *)
Fixpoint group_free (r : regex) : bool :=
  match r with
  | Seq a b | Alt a b => (group_free a && group_free b)%bool
  | Star a | LazyStar a => group_free a
  | Grp _ _ => false
  | _ => true
  end.

(** Rules whose action can yield a keyword-classified token. *)
Definition yields_keyword (r : prule) : bool :=
  existsb keyword_kind (action_types (rule_action r)).

(** The concatenation of the values of a token stream. *)
Definition joined (toks : list token) : string :=
  fold_right (fun tk acc => (tok_value tk ++ acc)%string) EmptyString toks.

(** Offsets never decrease / each token starts where the previous one
    ended. *)
Fixpoint nondecreasing (toks : list token) : bool :=
  match toks with
  | a :: ((b :: _) as rest) =>
      (Nat.leb (tok_index a) (tok_index b) && nondecreasing rest)%bool
  | _ => true
  end.

Fixpoint contiguous (toks : list token) : bool :=
  match toks with
  | a :: ((b :: _) as rest) =>
      (Nat.eqb (tok_index b) (tok_index a + String.length (tok_value a))
       && contiguous rest)%bool
  | _ => true
  end.

(** What the block claim says of one token. *)
Definition block_token_ok (text : string) (tk : token) : Prop :=
  tok_type tk = Block_Start \/ tok_type tk = Block_End ->
  (exists c, String.get 0 (tok_value tk) = Some c /\ in_set letters_ c = false)
  /\ (forall w, alphabetic w = true -> tok_value tk <> w)
  /\ (tok_type tk = Block_Start ->
      exists e g,
        match_at text RenpyBlockLexer.region_re (tok_index tk) = Some (e, g)
        /\ tok_value tk = slice (tok_index tk) e text).

(** The rules of [RenpyLexer] that the claims single out. *)
Definition keyword_rule : prule :=
  (words RenpyLexer.keyword_words Eps WordB, ATok Keyword, NoChange).
Definition reserved_rule : prule :=
  (words RenpyLexer.reserved_words Eps WordB, ATok Renpy_Reserved, NoChange).
Definition declaration_rule : prule :=
  (words RenpyLexer.declaration_words Eps WordB, ATok Renpy_Declaration,
   NoChange).
Definition special_labels_rule : prule :=
  (words RenpyLexer.special_label_words (Lit "label ") WordB,
   ATok Renpy_Label_Reserved, NoChange).
Definition def_rule : prule :=
  (Seq (Grp 1 (Lit "def")) (Grp 2 spaces_cont),
   AByGroups [GTok Keyword; GTok Text], Push [Named "funcname"]).
Definition class_rule : prule :=
  (Seq (Grp 1 (Lit "class")) (Grp 2 spaces_cont),
   AByGroups [GTok Keyword; GTok Text], Push [Named "classname"]).

Definition yields_label_reserved (r : prule) : bool :=
  mentions Renpy_Label_Reserved (rule_action r).

Definition renpy_root_rules : list prule := rules_of RenpyLexer.tokens root.

(** What the word-boundary claim keeps true of one token: a
    keyword-classified token stands in the text at its index and no
    identifier character follows it. *)
Definition keyword_token_ok (text : string) (tk : token) : Prop :=
  keyword_kind (tok_type tk) = true ->
  occurs_at text tk /\ not_followed_by_word text tk.

(** Words that end with an identifier character. *)
Definition ends_with_word (w : string) : bool := word_opt (last_char w).

(** *** Lines of a console transcript *)

(** A line that [RenpyConsoleLexer] adds to an open traceback block and
    that leaves the block open. *)
Definition tb_continues (line : string) : bool :=
  (startswith " " line || String.eqb (strip line) "...")%bool.

(** A line that is no prompt line, no traceback header and not the bare
    [KeyboardInterrupt] line. *)
Definition plain_line (line : string) : bool :=
  (negb (RenpyConsoleLexer.is_prompt line)
   && negb (RenpyConsoleLexer.is_header line)
   && negb (String.eqb line ("KeyboardInterrupt" ++ nl)))%bool.

(** The text of a run of lines. *)
Definition block_text (lines : list (nat * string)) : string :=
  fold_right (fun l acc => (snd l ++ acc)%string) EmptyString lines.

(** The wording of the spec for the end of a traceback block: a line
    that starts with whitespace, a line that is a continuation
    ellipsis. *)
Definition starts_with_whitespace (line : string) : bool :=
  match line with String c _ => is_space c | EmptyString => false end.

Definition is_ellipsis (line : string) : bool := String.eqb (strip line) "...".

(** The traceback claim as the spec words it: after a header line every
    line is captured until the first line that neither starts with
    whitespace nor is an ellipsis, and there the block goes to the
    traceback lexer. *)
Definition traceback_block_as_stated : Prop :=
  forall s0 header mid sc closing,
    RenpyConsoleLexer.is_header header = true ->
    Forall (fun l =>
              (starts_with_whitespace (snd l) || is_ellipsis (snd l))%bool
              = true) mid ->
    (starts_with_whitespace closing || is_ellipsis closing)%bool = false ->
    fst (RenpyConsoleLexer.do_lines RenpyConsoleLexer.init
           ((s0, header) :: mid ++ [(sc, closing)])) =
    RenpyConsoleLexer.flush_tb s0 (header ++ block_text mid ++ closing).

(** The recovery claim as the spec words it: wherever no rule matches,
    one [Error] token of one character, and the stack is kept. *)
Definition unmatched_is_error_as_stated : Prop :=
  forall defs sublexer text pos stack c,
    first_match text (rules_of defs (top stack)) pos = None ->
    String.get pos text = Some c ->
    step defs sublexer text pos stack =
    Next [(pos, Error, String c EmptyString)] (S pos) stack.

(** The word-boundary claim as the spec words it. *)
Definition keyword_surrounded_as_stated : Prop :=
  forall text tk,
    In tk (RenpyLexer.get_tokens_unprocessed text) ->
    keyword_kind (tok_type tk) = true ->
    not_preceded_by_word text tk /\ not_followed_by_word text tk.

(** The inputs of the scenarios. *)
Definition label_start_text : string :=
  "label start:" ++ nl ++ "    " ++ dq ++ "Hello" ++ dq ++ nl.

Definition console_session_text : string :=
  ">>> x = 1" ++ nl ++ ">>> print(x)" ++ nl.

Definition traceback_header_line : string :=
  "Traceback (most recent call last):" ++ nl.
Definition traceback_file_line : string :=
  "  File " ++ dq ++ "a.rpy" ++ dq ++ ", line 3, in <module>" ++ nl.
Definition traceback_error_line : string :=
  "ZeroDivisionError: division by zero" ++ nl.
Definition traceback_text : string :=
  traceback_header_line ++ traceback_file_line ++ traceback_error_line.

(** A block in which a bare [File] line follows the [Traceback] line. *)
Definition bare_file_line : string :=
  "  File " ++ dq ++ "a.rpy" ++ dq ++ ", line 3" ++ nl.
Definition syntax_error_line : string := "SyntaxError: invalid syntax" ++ nl.
Definition restarted_block_text : string :=
  traceback_header_line ++ bare_file_line ++ syntax_error_line.

Definition is_kind (t : ttype) (tk : token) : bool := ttype_eqb (tok_type tk) t.

Definition has_token (t : ttype) (v : string) (toks : list token) : bool :=
  existsb (fun tk => (is_kind t tk && String.eqb (tok_value tk) v)%bool) toks.

(* ================================================================== *)
(** ** Definitions for the further properties *)

(** *** Tokens that cover the text *)

(** Each token starts where the one before it ended, the first one at
    [p]. *)
Fixpoint follow (p : nat) (toks : list token) : bool :=
  match toks with
  | [] => true
  | tk :: rest =>
      (Nat.eqb (tok_index tk) p
       && follow (p + String.length (tok_value tk)) rest)%bool
  end.

(** The tokens stand in the text one after the other, from [p] to [e]. *)
Fixpoint tiles (text : string) (p : nat) (toks : list token) (e : nat)
  : Prop :=
  match toks with
  | [] => p = e
  | tk :: rest =>
      tok_index tk = p /\ occurs_at text tk
      /\ tiles text (p + String.length (tok_value tk)) rest e
  end.

(** The spans of the groups of a match, in the order of their numbers;
    [None] for a group that took no part in the match. *)
Definition spans : Type := list (option (nat * nat)).

(** The spans follow one another from [p] to [e]. *)
Fixpoint chain (p : nat) (sp : spans) (e : nat) : Prop :=
  match sp with
  | [] => p = e
  | None :: sp' => chain p sp' e
  | Some (s, t) :: sp' => s = p /\ p <= t /\ chain t sp' e
  end.

(** The groups that a match binds when its groups, numbered from [i],
    have the spans [sp]. *)
Fixpoint bind (i : nat) (sp : spans) (g : groups) : groups :=
  match sp with
  | [] => g
  | None :: sp' => bind (S i) sp' g
  | Some x :: sp' => bind (S i) sp' ((i, x) :: g)
  end.

(** Patterns that are a sequence of [^] and of capturing groups, optional
    or not, numbered from [i] without a gap and without a group inside a
    group; the result is the number after that of the last group. *)
Fixpoint flat_groups (r : regex) (i : nat) : option nat :=
  match r with
  | Bol => Some i
  | Grp j a =>
      if (Nat.eqb j i && group_free a)%bool then Some (S i) else None
  | Alt (Grp j a) Eps =>
      if (Nat.eqb j i && group_free a)%bool then Some (S i) else None
  | Seq a b =>
      match flat_groups a i with
      | Some k => flat_groups b k
      | None => None
      end
  | _ => None
  end.

(** The arguments of [bygroups] that yield tokens; [sub] tells whether
    [using] may occur. *)
Definition using_allowed (sub : bool) (a : gaction) : bool :=
  match a with
  | GNone => false
  | GTok _ => true
  | GUsing => sub
  end.

(** A rule whose tokens cover its match: one token for the whole match,
    or [bygroups] with one argument for each group of a pattern whose
    groups cover the match; a rule without a token has to match the empty
    string.  [sub] tells whether [using] may occur. *)
Definition rule_tiles (sub : bool) (r : prule) : bool :=
  match rule_action r with
  | ANone => match rule_rx r with Eps => true | _ => false end
  | ATok _ => true
  | AByGroups args =>
      match flat_groups (rule_rx r) 1 with
      | Some k =>
          (Nat.eqb k (S (List.length args))
           && forallb (using_allowed sub) args)%bool
      | None => false
      end
  end.

Definition table_tiles (sub : bool) (defs : tokendefs) (states : list state)
           (except : prule -> bool) : bool :=
  forallb (fun st =>
             forallb (fun r => (rule_tiles sub r || except r)%bool)
                     (rules_of defs st)) states.

(** The rule [((renpy|im)\.[a-zA-Z_]+)\(([a-zA-Z_ ,=]+)\)] of
    [RenpyLexer]. *)
Definition call_rule : prule :=
  (seqs [Grp 1 (seqs [Grp 2 (Alt (Lit "renpy") (Lit "im"));
                      Lit "."; Plus (InSet letters_)]);
         Lit "(";
         Grp 3 (Plus (InSet (letters_ ++ chars " ,=")));
         Lit ")"],
   AByGroups [GTok Renpy_Function_Builtin; GTok Renpy_Function_Arguments],
   NoChange).

(** No token of a kind that [bad] marks. *)
Definition clean (bad : ttype -> bool) (toks : list token) : bool :=
  forallb (fun tk => negb (bad (tok_type tk))) toks.

Definition is_call (t : ttype) : bool := ttype_eqb Renpy_Function_Builtin t.

Definition yields_call (r : prule) : bool :=
  existsb is_call (action_types (rule_action r)).

(** No rule is excepted, no kind is marked. *)
Definition never (r : prule) : bool := false.
Definition no_kind (t : ttype) : bool := false.

(** *** The configurations of the loop *)

(** The configurations that the loop of a lexer goes through on a text:
    the position and the stack before each iteration. *)
Inductive reachable (defs : tokendefs) (sublexer : string -> list token)
          (text : string) : nat -> list state -> Prop :=
| reach_start : reachable defs sublexer text 0 [root]
| reach_step pos stack toks pos' stack' :
    reachable defs sublexer text pos stack ->
    step defs sublexer text pos stack = Next toks pos' stack' ->
    reachable defs sublexer text pos' stack'.

(** The root state alone, or one state of [above] on top of it. *)
Definition shallow (above : list state) (stack : list state) : Prop :=
  stack = [root] \/ exists s, In s above /\ stack = [s; root].

(** Only the rules of the root state push, each one state of [above]. *)
Definition pushes_from_root (defs : tokendefs) (above : list state) : bool :=
  (forallb (fun r => match rule_new r with
                     | Push [s] => mem_state s above
                     | Push _ => false
                     | _ => true
                     end) (rules_of defs root)
   && forallb (fun st =>
                 forallb (fun r => match rule_new r with
                                   | Push _ => false
                                   | _ => true
                                   end) (rules_of defs st)) above)%bool.

(** *** Kinds that stand for a list of words *)

(** The words of [RenpyLexer] that stand behind a token kind: the word
    list, or the alternatives, of the rules that yield the kind. *)
Definition kind_words (t : ttype) : option (list string) :=
  match t with
  | Keyword => Some (RenpyLexer.keyword_words ++ ["def"; "class"])
  | Renpy_Reserved => Some RenpyLexer.reserved_words
  | Renpy_Declaration => Some RenpyLexer.declaration_words
  | Keyword_Namespace => Some ["from"; "import"; "as"]
  | Operator_Word => Some ["in"; "is"; "and"; "or"; "not"]
  | Name_Builtin => Some RenpyLexer.builtin_words
  | Name_Builtin_Pseudo =>
      Some ["self"; "None"; "Ellipsis"; "NotImplemented"; "False"; "True";
            "cls"]
  | Name_Exception => Some RenpyLexer.exception_words
  | Name_Function_Magic => Some RenpyLexer.magicfunc_words
  | Name_Variable_Magic => Some RenpyLexer.magicvar_words
  | _ => None
  end.

Definition classified (t : ttype) : bool :=
  match kind_words t with Some _ => true | None => false end.

(** The strings that a pattern of words can match: alternatives of
    literals, in a group or not, before [\b], and after [(?<!...)] or an
    empty prefix or neither. *)
Fixpoint word_lang (r : regex) : option (list string) :=
  match r with
  | Seq (NotBehind _) b => word_lang b
  | Seq Eps b => word_lang b
  | Seq (Grp _ a) WordB => if simple a then Some (lang a) else None
  | Seq a WordB => if simple a then Some (lang a) else None
  | _ => None
  end.

(** A rule that yields a token of a kind with words only for one of the
    words: a rule with one token and a pattern of words, or a rule of the
    form [(word)(...)] with [bygroups]. *)
Definition rule_words_ok (r : prule) : bool :=
  match rule_action r with
  | ANone => true
  | ATok t =>
      match kind_words t with
      | None => true
      | Some ws =>
          match word_lang (rule_rx r) with
          | Some l => forallb (fun w => mem_string w ws) l
          | None => false
          end
      end
  | AByGroups args =>
      match rule_rx r, args with
      | Seq (Grp 1 (Lit kw)) (Grp 2 b), [GTok t; GTok t2] =>
          (group_free b && negb (classified t2)
           && match kind_words t with
              | Some ws => mem_string kw ws
              | None => true
              end)%bool
      | _, _ => negb (existsb classified (action_types (AByGroups args)))
      end
  end.

(** What the classification promises of one token. *)
Definition token_is_word (tk : token) : Prop :=
  forall ws, kind_words (tok_type tk) = Some ws -> In (tok_value tk) ws.

(** *** [Error] tokens *)

(** The 256 characters. *)
Definition all_ascii : list ascii := map ascii_of_nat (seq 0 256).

(** Patterns that match wherever the character [c] stands: a set that
    holds [c], or the complement of a set that does not, and then a
    star. *)
Definition starts_with_char (c : ascii) (r : regex) : bool :=
  match r with
  | Seq (InSet s) (Star _) => in_set s c
  | Seq (NotInSet s) (Star _) => negb (in_set s c)
  | _ => false
  end.

(** In every state of [states], some rule matches wherever a character
    that [p] holds of stands. *)
Definition always_matched (defs : tokendefs) (states : list state)
           (p : ascii -> bool) : bool :=
  forallb (fun st =>
             forallb (fun c =>
                        (negb (p c)
                         || existsb (fun r => starts_with_char c (rule_rx r))
                                    (rules_of defs st))%bool)
                     all_ascii) states.

(** No rule of the table names the kind [Error]. *)
Definition no_error_rule (defs : tokendefs) (states : list state) : bool :=
  forallb (fun st =>
             forallb (fun r => negb (mentions Error (rule_action r)))
                     (rules_of defs st)) states.

(** What holds of an [Error] token: it is one character of the text, at
    the token's index, and that character is no newline and none that [p]
    holds of. *)
Definition error_token_ok (text : string) (p : ascii -> bool) (tk : token)
  : Prop :=
  tok_type tk = Error ->
  exists c, tok_value tk = String c EmptyString
            /\ String.get (tok_index tk) text = Some c
            /\ Ascii.eqb c NL = false /\ p c = false.

(** *** The state ['properties'] of [RenpyLexer] *)

(** [table] with the state [name] put after its first [n] states. *)
Definition with_state (n : nat) (name : string) (rules : list tdef)
           (table : tokendefs) : tokendefs :=
  firstn n table ++ (name, rules) :: skipn n table.

(** The dictionary [tokens] of [RenpyLexer] with a state ['properties']
    where the source has it, after ['screen_lang']. *)
Definition tokens_with_properties (rules : list tdef) : tokendefs :=
  with_state 4 "properties" rules RenpyLexer.tokens.

(** No state of [table] includes the state [name]. *)
Definition never_included (name : string) (table : tokendefs) : bool :=
  forallb (fun e =>
             forallb (fun d => match d with
                               | Include m => negb (String.eqb m name)
                               | Rule _ _ _ => true
                               end) (snd e)) table.

(** *** Lines *)

(** A line: characters other than a newline, and a newline at the end. *)
Fixpoint is_line (s : string) : bool :=
  match s with
  | EmptyString => false
  | String c EmptyString => Ascii.eqb c NL
  | String c s' => (negb (Ascii.eqb c NL) && is_line s')%bool
  end.

Fixpoint no_newline (s : string) : bool :=
  match s with
  | EmptyString => true
  | String c s' => (negb (Ascii.eqb c NL) && no_newline s')%bool
  end.

(** The text made of the lines [ls]. *)
Definition concat_lines (ls : list string) : string :=
  fold_right String.append EmptyString ls.

(** The lines [ls] with the offset of each in the text that they make
    when the first one starts at [p]. *)
Fixpoint with_offsets (p : nat) (ls : list string) : list (nat * string) :=
  match ls with
  | [] => []
  | l :: ls' => (p, l) :: with_offsets (p + String.length l) ls'
  end.

(** A line of plain output for [RenpyConsoleLexer]: no prompt, no
    ellipsis, no traceback header and not the [KeyboardInterrupt] line. *)
Definition output_line (l : string) : bool :=
  (is_line l && plain_line l && negb (String.eqb (rstrip l) "..."))%bool.

(** *** [NullLexer] *)

Module NullLexer.

Definition tokens : tokendefs :=
  [ ("root",
     [ (* r' .*\n' *)
       Rule (seqs [Lit " "; Star Any; Chr NL]) (ATok Text) NoChange ]) ].

Definition get_tokens_unprocessed (text : string) : list token :=
  Pygments.get_tokens_unprocessed tokens (fun _ => []) text.

End NullLexer.

(** What [NullLexer] yields: a newline, or a blank and the rest of its
    line, as [Text]; any other character as [Error]. *)
Definition null_token_ok (tk : token) : Prop :=
  (tok_type tk = Text
   /\ (tok_value tk = nl
       \/ (String.get 0 (tok_value tk) = Some " "%char
           /\ is_line (tok_value tk) = true)))
  \/ (tok_type tk = Error
      /\ exists c, tok_value tk = String c EmptyString
                   /\ Ascii.eqb c NL = false).

(** *** Lines that open no traceback *)

(** A line that opens no traceback for [RenpyTracebackLexer]: it starts
    neither with [Traceback], nor with [^CTraceback], nor with the
    beginning of a [File] line, two blanks, [File], a blank and a double
    quote. *)
Definition other_line (l : string) : bool :=
  (is_line l && negb (startswith "Traceback" l)
   && negb (startswith "^CTraceback" l)
   && negb (startswith ("  File " ++ dq) l))%bool.

(** The rules of the state ['root'] of [RenpyTracebackLexer]. *)
Definition tb_header_rule : prule :=
  (seqs [Bol; Opt (Grp 1 (Lit "^C"));
         Grp 2 (seqs [Lit "Traceback"; Star Any; Chr NL])],
   AByGroups [GTok Text; GTok Generic_Traceback], Push [Named "intb"]).
Definition tb_file_rule : prule :=
  (Seq Bol (Ahead (seqs [Lit ("  File " ++ dq);
                         Plus (NotInSet [CChar DQUOTE]);
                         Lit (dq ++ ", line "); digits])),
   ATok Generic_Traceback, Push [Named "intb"]).
Definition tb_other_rule : prule :=
  (seqs [Bol; Star Any; Chr NL], ATok Other, NoChange).

(** *** Entered code and its prompts *)

(** The tokens follow one another from [p] and their values add up to
    [s]. *)
Definition spells (p : nat) (toks : list token) (s : string) : Prop :=
  follow p toks = true /\ joined toks = s.

(** The text of the tokens of a list of insertions. *)
Definition joined_ins (pending : list insertion) : string :=
  fold_right (fun x acc => (joined (snd x) ++ acc)%string) EmptyString pending.

(** [code] from the offset [base] on, with the text of each insertion
    put in at its index. *)
Fixpoint weave (code : string) (base : nat) (pending : list insertion)
  : string :=
  match pending with
  | [] => drop base code
  | (idx, itoks) :: rest =>
      (slice base idx code ++ joined itoks ++ weave code idx rest)%string
  end.

(** The indices of the insertions do not decrease and lie between [b]
    and [hi]. *)
Fixpoint ordered (b : nat) (pending : list insertion) (hi : nat) : Prop :=
  match pending with
  | [] => True
  | (idx, _) :: rest => b <= idx /\ idx <= hi /\ ordered idx rest hi
  end.

(** A line of entered code for [RenpyConsoleLexer]: it starts with a
    prompt, or it is an ellipsis and blanks. *)
Definition code_line (l : string) : bool :=
  (is_line l
   && (RenpyConsoleLexer.is_prompt l || String.eqb (rstrip l) "..."))%bool.

(** The prompt of such a line and the code that it enters. *)
Definition prompt_of (l : string) : string :=
  if RenpyConsoleLexer.is_prompt l then take 4 l else "...".

Definition code_of (l : string) : string :=
  if RenpyConsoleLexer.is_prompt l then drop 4 l else drop 3 l.

(** The code that the lines [ls] enter. *)
Definition entered (ls : list string) : string :=
  concat_lines (map code_of ls).

(** The insertions that [RenpyConsoleLexer] records for the lines [ls]
    when [b] characters of code came before them. *)
Fixpoint prompts_at (b : nat) (ls : list string) : list insertion :=
  match ls with
  | [] => []
  | l :: ls' =>
      (b, [(0, Generic_Prompt, prompt_of l)])
        :: prompts_at (b + String.length (code_of l)) ls'
  end.

(** *** Prompt and output tokens *)

(** The two kinds that only [RenpyConsoleLexer] itself yields. *)
Definition console_kind (t : ttype) : bool :=
  match t with
  | Generic_Prompt | Generic_Output => true
  | _ => false
  end.

(** No rule of the table names a kind that [q] marks. *)
Definition never_yields (q : ttype -> bool) (defs : tokendefs)
           (states : list state) : bool :=
  forallb (fun st =>
             forallb (fun r =>
                        negb (existsb q (action_types (rule_action r))))
                     (rules_of defs st)) states.

(** The prompts that [RenpyConsoleLexer] takes off a line. *)
Definition prompts : list string := [">>> "; "... "; "..."].

(** What holds of the tokens of [RenpyConsoleLexer]: a prompt token is
    one of the three prompts, and an output token is a line of the
    transcript that stands at the token's index. *)
Definition console_token_ok (text : string) (tk : token) : Prop :=
  (tok_type tk = Generic_Prompt -> In (tok_value tk) prompts)
  /\ (tok_type tk = Generic_Output ->
      occurs_at text tk /\ is_line (tok_value tk) = true).

(** A token with a kind and a value that [Pi] holds of, or with a kind
    that [R] holds of. *)
Definition from_either (Pi : ttype -> string -> Prop) (R : ttype -> Prop)
           (tk : token) : Prop :=
  Pi (tok_type tk) (tok_value tk) \/ R (tok_type tk).

(** [Pi] holds of every token of the insertions. *)
Definition ins_ok (Pi : ttype -> string -> Prop) (pending : list insertion)
  : Prop :=
  Forall (fun x => Forall (fun tk => Pi (tok_type tk) (tok_value tk)) (snd x))
         pending.

Definition is_prompt_token (t : ttype) (v : string) : Prop :=
  t = Generic_Prompt /\ In v prompts.

Definition not_console (t : ttype) : Prop := console_kind t = false.

(** *** Spans of groups *)

(** The span of a group lies within the text. *)
Definition span_ok (text : string) (x : nat * (nat * nat)) : Prop :=
  fst (snd x) <= snd (snd x) <= String.length text.

(** *** Texts for the further properties *)

(** Texts on which the further properties are tried. *)
Definition label_text : string := "label start:" ++ nl ++ "    jump end" ++ nl.
Definition call_text : string := "renpy.pause(x)" ++ nl.
Definition output_lines : list string :=
  ["a" ++ nl; nl; "b c" ++ nl]%string.
Definition other_lines : list string :=
  ["hello" ++ nl; "world" ++ nl]%string.
Definition code_lines : list string :=
  [">>> x = 1" ++ nl; "... y" ++ nl]%string.
Definition mixed_session : string := ">>> x" ++ nl ++ "out" ++ nl.
Definition output_token : token := (6, Generic_Output, ("out" ++ nl)%string).

(* ================================================================== *)
(** ** Strings *)

Lemma get_some_lt (s : string) : forall p c,
  String.get p s = Some c -> p < String.length s.
Proof.
  induction s as [|a s IH]; intros [|p] c H; simpl in *;
    try discriminate; try lia.
  apply IH in H. lia.
Qed.

Lemma get_none_ge (s : string) : forall p,
  String.get p s = None -> String.length s <= p.
Proof.
  induction s as [|a s IH]; intros [|p] H; simpl in *;
    try discriminate; try lia.
  apply IH in H. lia.
Qed.

Lemma get_drop (s : string) : forall i p,
  String.get p (drop i s) = String.get (i + p) s.
Proof.
  induction s as [|a s IH]; intros [|i] p; simpl; auto.
Qed.

Lemma length_drop (s : string) : forall i,
  String.length (drop i s) = String.length s - i.
Proof.
  induction s as [|a s IH]; intros [|i]; simpl; auto.
Qed.

Lemma length_take (s : string) : forall n,
  String.length (take n s) = Nat.min n (String.length s).
Proof.
  induction s as [|a s IH]; intros [|n]; simpl; auto.
Qed.

Lemma get_take (s : string) : forall n p,
  p < n -> String.get p (take n s) = String.get p s.
Proof.
  induction s as [|a s IH]; intros [|n] p H; simpl; auto; try lia.
  destruct p; auto. apply IH. lia.
Qed.

Lemma length_slice (s : string) (i j : nat) :
  j <= String.length s -> String.length (slice i j s) = j - i.
Proof.
  intros H. unfold slice. rewrite length_take, length_drop. lia.
Qed.

Lemma get_slice (s : string) (i j p : nat) :
  i + p < j -> String.get p (slice i j s) = String.get (i + p) s.
Proof.
  intros H. unfold slice. rewrite get_take by lia. apply get_drop.
Qed.

Lemma is_empty_length (s : string) :
  is_empty s = false -> 0 < String.length s.
Proof. destruct s; simpl; [discriminate | lia]. Qed.

(* ================================================================== *)
(** ** The matcher against the relation *)

Section MatcherFacts.
Variable text : string.

Lemma char_at_lt p c : char_at text p = Some c -> p < String.length text.
Proof. apply get_some_lt. Qed.

Lemma lit_at_bound (s : string) : forall p,
  p <= String.length text ->
  lit_at text s p = true -> p + String.length s <= String.length text.
Proof.
  induction s as [|c s IH]; intros p Hp H; simpl in *; [lia|].
  destruct (char_at text p) as [d|] eqn:E; [|discriminate].
  apply andb_true_iff in H. destruct H as [_ H].
  apply char_at_lt in E. apply IH in H; lia.
Qed.

Lemma lit_at_cons c s p :
  lit_at text (String c s) p = true ->
  char_at text p = Some c /\ lit_at text s (S p) = true.
Proof.
  simpl. destruct (char_at text p) as [d|]; [|discriminate].
  intros H. apply andb_true_iff in H. destruct H as [H1 H2].
  apply Ascii.eqb_eq in H1. subst. auto.
Qed.

(** Soundness of the matcher: when it succeeds, the continuation was
    called at the end of some match of the pattern. *)
Lemma rmatch_sound (r : regex) :
  forall (R : Type) p g (k : nat -> groups -> option R) x,
    rmatch text r p g k = Some x ->
    exists p' g', Matches text r p g p' g' /\ k p' g' = Some x.
Proof.
  induction r as [ | s | items | items | | a IHa b IHb | a IHa b IHb
                 | a IHa | a IHa | i a IHa | | | | | | a IHa | items ];
    intros R p g k x H; simpl in H.
  - eauto using Matches.
  - destruct (lit_at text s p) eqn:E; [|discriminate]. eauto using Matches.
  - destruct (char_at text p) as [c|] eqn:E; [|discriminate].
    destruct (in_set items c) eqn:E1; [|discriminate]. eauto using Matches.
  - destruct (char_at text p) as [c|] eqn:E; [|discriminate].
    destruct (in_set items c) eqn:E1; [discriminate|]. eauto using Matches.
  - destruct (char_at text p) as [c|] eqn:E; [|discriminate].
    destruct (Ascii.eqb c NL) eqn:E1; [discriminate|]. eauto using Matches.
  - apply IHa in H. destruct H as (p1 & g1 & Ha & H).
    apply IHb in H. destruct H as (p2 & g2 & Hb & H).
    eauto using Matches.
  - destruct (rmatch text a p g k) as [y|] eqn:E.
    + inversion H; subst. apply IHa in E.
      destruct E as (p1 & g1 & Ha & E). eauto using Matches.
    + apply IHb in H. destruct H as (p1 & g1 & Hb & H). eauto using Matches.
  - remember (String.length text - p) as n eqn:En. clear En.
    revert p g x H. induction n as [|n IHn]; intros p g x H.
    + eauto using Matches.
    + match type of H with
      | match ?e with _ => _ end = _ => destruct e as [y|] eqn:E
      end.
      * inversion H; subst. apply IHa in E.
        destruct E as (p1 & g1 & Ha & E).
        destruct (Nat.ltb p p1) eqn:Hlt; [|discriminate].
        apply Nat.ltb_lt in Hlt. apply IHn in E.
        destruct E as (p2 & g2 & Hs & E). eauto using Matches.
      * eauto using Matches.
  - remember (String.length text - p) as n eqn:En. clear En.
    revert p g x H. induction n as [|n IHn]; intros p g x H.
    + eauto using Matches.
    + destruct (k p g) as [y|] eqn:E.
      * inversion H; subst. eauto using Matches.
      * apply IHa in H. destruct H as (p1 & g1 & Ha & H).
        destruct (Nat.ltb p p1) eqn:Hlt; [|discriminate].
        apply Nat.ltb_lt in Hlt. apply IHn in H.
        destruct H as (p2 & g2 & Hs & H). eauto using Matches.
  - apply IHa in H. destruct H as (p1 & g1 & Ha & H). eauto using Matches.
  - destruct (at_bol text p) eqn:E; [|discriminate]. eauto using Matches.
  - destruct (at_eol text p) eqn:E; [|discriminate]. eauto using Matches.
  - destruct (Nat.eqb p 0) eqn:E; [|discriminate].
    apply Nat.eqb_eq in E. subst. eauto using Matches.
  - destruct (at_end_dollar text p) eqn:E; [|discriminate].
    eauto using Matches.
  - destruct (at_wordb text p) eqn:E; [|discriminate]. eauto using Matches.
  - destruct (rmatch text a p g (fun _ _ => Some tt)) as [u|] eqn:E;
      [|discriminate].
    apply IHa in E. destruct E as (p1 & g1 & Ha & _). eauto using Matches.
  - exists p, g. split.
    + constructor. destruct (prev_at text p) as [c|]; auto.
      destruct (in_set items c); [discriminate | reflexivity].
    + destruct (prev_at text p) as [c|]; auto.
      destruct (in_set items c); [discriminate | assumption].
Qed.

Lemma match_at_sound r p e g :
  match_at text r p = Some (e, g) -> Matches text r p [] e g.
Proof.
  unfold match_at. intros H. apply rmatch_sound in H.
  destruct H as (p' & g' & HM & H). inversion H; subst. assumption.
Qed.

(** A match stays inside the text and never moves backwards. *)
Lemma Matches_bounds r p g p' g' :
  Matches text r p g p' g' ->
  p <= String.length text -> p <= p' <= String.length text.
Proof.
  induction 1; intros Hp;
    try (match goal with
         | H : char_at _ _ = Some _ |- _ => apply char_at_lt in H
         end);
    try lia.
  pose proof (lit_at_bound s p Hp H). lia.
Qed.

(** A pattern that is not nullable consumes at least one character. *)
Lemma Matches_progress r p g p' g' :
  Matches text r p g p' g' ->
  p <= String.length text -> nullable r = false -> p < p'.
Proof.
  induction 1; intros Hp Hn; simpl in Hn; try discriminate; try lia.
  - apply is_empty_length in Hn. lia.
  - apply andb_false_iff in Hn.
    pose proof (Matches_bounds _ _ _ _ _ H Hp) as B1.
    pose proof (Matches_bounds _ _ _ _ _ H0 ltac:(lia)) as B2.
    destruct Hn as [Hn|Hn].
    + specialize (IHMatches1 Hp Hn). lia.
    + specialize (IHMatches2 ltac:(lia) Hn). lia.
  - apply orb_false_iff in Hn. destruct Hn. auto.
  - apply orb_false_iff in Hn. destruct Hn. auto.
  - auto.
Qed.

End MatcherFacts.

(* ================================================================== *)
(** ** The lexer loop *)

Lemma ttype_eqb_eq a b : ttype_eqb a b = true <-> a = b.
Proof.
  split.
  - destruct a, b; simpl; intros H; try discriminate; reflexivity.
  - intros ->. destruct b; reflexivity.
Qed.

Lemma strings_eqb_eq l1 : forall l2, strings_eqb l1 l2 = true -> l1 = l2.
Proof.
  induction l1 as [|a l1 IH]; intros [|b l2] H; simpl in H;
    try discriminate; auto.
  apply andb_true_iff in H. destruct H as [H1 H2].
  apply String.eqb_eq in H1. apply IH in H2. congruence.
Qed.

Lemma state_eqb_eq a b : state_eqb a b = true -> a = b.
Proof.
  destruct a, b; simpl; intros H; try discriminate.
  - apply String.eqb_eq in H. congruence.
  - apply strings_eqb_eq in H. congruence.
Qed.

Lemma mem_state_In s l : mem_state s l = true -> In s l.
Proof.
  unfold mem_state. intros H. apply existsb_exists in H.
  destruct H as (x & Hx & E). apply state_eqb_eq in E. subst. assumption.
Qed.

Lemma Forall_skipn {A : Type} (P : A -> Prop) (l : list A) : forall n,
  Forall P l -> Forall P (skipn n l).
Proof.
  induction l as [|a l IH]; intros [|n] H; simpl; auto.
  inversion H; auto.
Qed.

Section FirstMatch.
Variable text : string.

Lemma first_match_some rules pos r m :
  first_match text rules pos = Some (r, m) ->
  In r rules /\ match_at text (rule_rx r) pos = Some m.
Proof.
  induction rules as [|r0 rules IH]; simpl; [discriminate|].
  destruct (match_at text (rule_rx r0) pos) as [m0|] eqn:E; intros H.
  - inversion H; subst. auto.
  - apply IH in H. tauto.
Qed.

Lemma first_match_none rules pos r :
  first_match text rules pos = None -> In r rules ->
  match_at text (rule_rx r) pos = None.
Proof.
  induction rules as [|r0 rules IH]; simpl; [tauto|].
  destruct (match_at text (rule_rx r0) pos) as [m0|] eqn:E;
    [discriminate|].
  intros H [<-|Hin]; auto.
Qed.

Lemma first_match_app l1 l2 pos :
  first_match text (l1 ++ l2) pos =
  match first_match text l1 pos with
  | Some x => Some x
  | None => first_match text l2 pos
  end.
Proof.
  induction l1 as [|r l1 IH]; simpl; auto.
  destruct (match_at text (rule_rx r) pos); auto.
Qed.

(** The span of the rule that fires. *)
Lemma first_match_span rules pos r e g :
  pos <= String.length text ->
  first_match text rules pos = Some (r, (e, g)) ->
  Matches text (rule_rx r) pos [] e g /\ pos <= e <= String.length text.
Proof.
  intros Hp H. apply first_match_some in H. destruct H as [_ H].
  apply match_at_sound in H. split; auto.
  eapply Matches_bounds; eauto.
Qed.

End FirstMatch.

Section LexerFacts.
Variable defs : tokendefs.
Variable sublexer : string -> list token.
Variable text : string.

(** A property of every token that a rule or the fallback can yield
    holds of every token of a run. *)
Lemma run_tokens (Inv : nat -> list state -> Prop) (P : token -> Prop) :
  (forall pos stack toks pos' stack',
      Inv pos stack ->
      step defs sublexer text pos stack = Next toks pos' stack' ->
      Forall P toks /\ Inv pos' stack') ->
  forall fuel pos stack,
    Inv pos stack -> Forall P (fst (run defs sublexer text fuel pos stack)).
Proof.
  intros Hstep fuel. induction fuel as [|fuel IH]; intros pos stack HI;
    simpl; [constructor|].
  destruct (step defs sublexer text pos stack) as [|toks pos' stack'] eqn:E;
    simpl; [constructor|].
  destruct (Hstep _ _ _ _ _ HI E) as [HP HI'].
  specialize (IH pos' stack' HI').
  destruct (run defs sublexer text fuel pos' stack') as [rest fin].
  simpl in *. apply Forall_app. auto.
Qed.

(** A measure that every iteration lowers bounds the number of
    iterations. *)
Lemma run_finishes (Inv : nat -> list state -> Prop)
      (mu : nat -> list state -> nat) :
  (forall pos stack toks pos' stack',
      Inv pos stack ->
      step defs sublexer text pos stack = Next toks pos' stack' ->
      Inv pos' stack' /\ mu pos' stack' < mu pos stack) ->
  forall fuel pos stack,
    Inv pos stack -> mu pos stack < fuel ->
    snd (run defs sublexer text fuel pos stack) <> None.
Proof.
  intros Hstep fuel. induction fuel as [|fuel IH]; intros pos stack HI Hmu;
    [lia|]. simpl.
  destruct (step defs sublexer text pos stack) as [|toks pos' stack'] eqn:E;
    simpl; [discriminate|].
  destruct (Hstep _ _ _ _ _ HI E) as [HI' Hlt].
  specialize (IH pos' stack' HI' ltac:(lia)).
  destruct (run defs sublexer text fuel pos' stack') as [rest fin].
  simpl in *. assumption.
Qed.

(** Tokens of an action that does not call a sub-lexer have one of the
    kinds that the action names. *)
Lemma bygroups_types args : forall i g,
  (forall s, sublexer s = []) ->
  Forall (fun tk => In (tok_type tk)
                       (action_types (AByGroups args)))
         (bygroups sublexer text args i g).
Proof.
  induction args as [|a args IH]; intros i g Hsub; simpl; [constructor|].
  apply Forall_app. split.
  - destruct a as [|t|]; destruct (group g i) as [[s e]|]; simpl;
      try constructor.
    + destruct (is_empty (slice s e text)); constructor; simpl; auto.
    + rewrite Hsub. constructor.
  - eapply Forall_impl; [|apply IH; assumption].
    intros tk H. simpl in *. apply in_or_app. auto.
Qed.

Lemma emit_types a pos e g :
  (forall s, sublexer s = []) ->
  Forall (fun tk => In (tok_type tk) (action_types a))
         (emit sublexer text a pos e g).
Proof.
  intros Hsub. destruct a as [|t|args]; simpl.
  - constructor.
  - constructor; simpl; auto.
  - apply bygroups_types. assumption.
Qed.

(** *** Tables whose stack stays within a list of states *)

Section Closed.
Variable states : list state.
Hypothesis Hok : table_ok defs states = true.

Lemma root_listed : In root states.
Proof.
  unfold table_ok in Hok. apply andb_true_iff in Hok.
  apply mem_state_In. tauto.
Qed.

Lemma rule_checks st r :
  In st states -> In r (rules_of defs st) ->
  pushes_within states r = true /\ advances defs st r = true.
Proof.
  intros Hst Hr. unfold table_ok in Hok.
  apply andb_true_iff in Hok. destruct Hok as [_ H].
  rewrite forallb_forall in H. specialize (H st Hst).
  rewrite forallb_forall in H. specialize (H r Hr).
  apply andb_true_iff in H. assumption.
Qed.

Lemma top_listed pos stack :
  stack_inv text states pos stack -> In (top stack) states.
Proof.
  intros (_ & HF & l & ->). destruct l as [|s l]; simpl in *.
  - inversion HF; auto.
  - inversion HF; auto.
Qed.

Lemma transition_inv pos e st r stack :
  stack_inv text states pos stack -> e <= String.length text ->
  In st states -> In r (rules_of defs st) ->
  stack_inv text states e (transition (rule_new r) stack).
Proof.
  intros (Hp & HF & l & ->) He Hst Hr.
  destruct (rule_checks _ _ Hst Hr) as [Hpush _].
  unfold pushes_within in Hpush. unfold transition.
  destruct (rule_new r) as [|n|pushed].
  - repeat split; eauto.
  - rewrite length_app. simpl.
    destruct (Nat.leb (List.length l + 1) n) eqn:E.
    + replace (List.length l + 1 - 1) with (List.length l + 0) by lia.
      rewrite skipn_app, skipn_all2 by lia. simpl.
      replace (List.length l + 0 - List.length l) with 0 by lia. simpl.
      repeat split; auto.
      * constructor; [apply root_listed | constructor].
      * exists []. reflexivity.
    + apply Nat.leb_gt in E.
      rewrite skipn_app.
      replace (n - List.length l) with 0 by lia. simpl.
      repeat split; auto.
      * apply Forall_app. split.
        -- apply Forall_skipn. apply Forall_app in HF. tauto.
        -- constructor; [apply root_listed | constructor].
      * eauto.
  - repeat split; auto.
    + apply Forall_app. split; auto.
      apply Forall_rev. apply Forall_forall. intros s Hs.
      rewrite forallb_forall in Hpush. apply mem_state_In. auto.
    + exists (rev pushed ++ l). rewrite app_assoc. reflexivity.
Qed.

(** The invariant of the loop, and the tokens of one iteration. *)
Lemma step_inv (P : token -> Prop) :
  (forall st r pos e g,
      In st states -> pos <= String.length text ->
      first_match text (rules_of defs st) pos = Some (r, (e, g)) ->
      Forall P (emit sublexer text (rule_action r) pos e g)) ->
  (forall pos c, String.get pos text = Some c ->
                 P (pos, Text, nl) /\ P (pos, Error, String c EmptyString)) ->
  forall pos stack toks pos' stack',
    stack_inv text states pos stack ->
    step defs sublexer text pos stack = Next toks pos' stack' ->
    Forall P toks /\ stack_inv text states pos' stack'.
Proof.
  intros Hrule Hfall pos stack toks pos' stack' HI H.
  pose proof (top_listed _ _ HI) as Htop.
  assert (Hp : pos <= String.length text) by (destruct HI; assumption).
  unfold step in H.
  destruct (first_match text (rules_of defs (top stack)) pos)
    as [[r [e g]]|] eqn:E.
  - inversion H; subst; clear H.
    pose proof (first_match_span _ _ _ _ _ _ Hp E) as [_ [_ He]].
    pose proof (first_match_some _ _ _ _ _ E) as [Hin _].
    split; [eapply Hrule; eauto|].
    eapply transition_inv; eauto.
  - destruct (String.get pos text) as [c|] eqn:G; [|discriminate].
    pose proof (get_some_lt _ _ _ G) as Hlt.
    destruct (Hfall _ _ G) as [P1 P2].
    destruct (Ascii.eqb c NL); inversion H; subst; clear H.
    + split; [repeat constructor; assumption|].
      repeat split; [lia| |exists []; reflexivity].
      constructor; [apply root_listed | constructor].
    + split; [repeat constructor; assumption|].
      destruct HI as (_ & HF & Hl). repeat split; auto.
Qed.

Lemma init_inv : stack_inv text states 0 [root].
Proof.
  repeat split; [lia| |exists []; reflexivity].
  constructor; [apply root_listed | constructor].
Qed.

(** Every token of the lexer has a property that every rule's tokens
    and the two fallback tokens have. *)
Theorem tokens_have (P : token -> Prop) :
  (forall st r pos e g,
      In st states -> pos <= String.length text ->
      first_match text (rules_of defs st) pos = Some (r, (e, g)) ->
      Forall P (emit sublexer text (rule_action r) pos e g)) ->
  (forall pos c, String.get pos text = Some c ->
                 P (pos, Text, nl) /\ P (pos, Error, String c EmptyString)) ->
  Forall P (get_tokens_unprocessed defs sublexer text).
Proof.
  intros Hrule Hfall. unfold get_tokens_unprocessed, lex.
  apply run_tokens with (Inv := stack_inv text states); [|apply init_inv].
  intros. eapply step_inv; eauto.
Qed.

Lemma nullable_not_strict st r :
  In r (rules_of defs st) -> nullable (rule_rx r) = true ->
  strict defs st = false.
Proof.
  intros Hin Hn. unfold strict.
  destruct (forallb (fun r0 => negb (nullable (rule_rx r0)))
                    (rules_of defs st)) eqn:E; [|reflexivity].
  rewrite forallb_forall in E. specialize (E r Hin).
  rewrite Hn in E. discriminate.
Qed.

Lemma step_lowers pos stack toks pos' stack' :
  stack_inv text states pos stack ->
  step defs sublexer text pos stack = Next toks pos' stack' ->
  stack_inv text states pos' stack' /\
  measure defs text pos' stack' < measure defs text pos stack.
Proof.
  intros HI H.
  assert (HI' : stack_inv text states pos' stack').
  { eapply (step_inv (fun _ => True)); eauto.
    intros. apply Forall_forall. auto. }
  split; [assumption|]. clear HI'.
  pose proof (top_listed _ _ HI) as Htop.
  destruct HI as (Hp & HF & l & ->).
  unfold step in H. unfold measure.
  assert (Hs : forall st, (if strict defs st then 0 else 2) <= 2).
  { intros st. destruct (strict defs st); lia. }
  pose proof (Hs (top stack')) as Hs'.
  pose proof (Hs (top (l ++ [root]))) as Hs0.
  destruct (first_match text (rules_of defs (top (l ++ [root]))) pos)
    as [[r [e g]]|] eqn:E.
  - inversion H; subst; clear H.
    pose proof (first_match_span _ _ _ _ _ _ Hp E) as [HM [He1 He2]].
    pose proof (first_match_some _ _ _ _ _ E) as [Hin _].
    destruct (rule_checks _ _ Htop Hin) as [_ Hadv].
    unfold advances in Hadv. revert Hs'. unfold transition.
    assert (Hsk : forall m, List.length (skipn m (l ++ [root]))
                            = List.length l + 1 - m).
    { intros m. rewrite length_skipn, length_app. simpl. lia. }
    destruct (rule_new r) as [|n|pushed]; intros Hs'.
    + apply negb_true_iff in Hadv.
      pose proof (Matches_progress _ _ _ _ _ _ HM Hp Hadv). lia.
    + rewrite (length_app l [root]) in *. simpl List.length in *.
      apply orb_true_iff in Hadv. destruct Hadv as [Hadv|Hadv].
      * apply negb_true_iff in Hadv.
        pose proof (Matches_progress _ _ _ _ _ _ HM Hp Hadv).
        destruct (Nat.leb (List.length l + 1) n); rewrite Hsk; lia.
      * apply andb_true_iff in Hadv. destruct Hadv as [Hn Hst].
        apply Nat.leb_le in Hn. apply negb_true_iff in Hst.
        assert (Hl : 1 <= List.length l).
        { destruct l; [simpl in Hst; discriminate | simpl; lia]. }
        destruct (nullable (rule_rx r)) eqn:Hnull.
        -- rewrite (nullable_not_strict _ _ Hin Hnull).
           destruct (Nat.leb (List.length l + 1) n) eqn:En;
             [apply Nat.leb_le in En | apply Nat.leb_gt in En];
             rewrite Hsk; lia.
        -- pose proof (Matches_progress _ _ _ _ _ _ HM Hp Hnull).
           destruct (Nat.leb (List.length l + 1) n); rewrite Hsk; lia.
    + apply andb_true_iff in Hadv. destruct Hadv as [Hlen Hadv].
      apply Nat.leb_le in Hlen.
      rewrite (length_app (rev pushed)), length_rev.
      apply orb_true_iff in Hadv. destruct Hadv as [Hadv|Hadv].
      * apply negb_true_iff in Hadv.
        pose proof (Matches_progress _ _ _ _ _ _ HM Hp Hadv). lia.
      * apply andb_true_iff in Hadv. destruct Hadv as [Hone Hstrict].
        apply Nat.eqb_eq in Hone.
        destruct pushed as [|x [|y pushed]]; simpl in Hone; try lia.
        simpl in Hstrict. rewrite andb_true_r in Hstrict.
        destruct (nullable (rule_rx r)) eqn:Hnull.
        -- rewrite (nullable_not_strict _ _ Hin Hnull).
           simpl. rewrite Hstrict. simpl. lia.
        -- pose proof (Matches_progress _ _ _ _ _ _ HM Hp Hnull).
           simpl. simpl in Hs'. lia.
  - destruct (String.get pos text) as [c|] eqn:G; [|discriminate].
    pose proof (get_some_lt _ _ _ G) as Hlt.
    rewrite (length_app l [root]). simpl List.length.
    destruct (Ascii.eqb c NL); inversion H; subst; clear H.
    + simpl List.length. lia.
    + rewrite (length_app l [root]). simpl List.length. lia.
Qed.

(** The loop reaches its [break] within the iterations that [lex]
    allows. *)
Theorem lex_finishes : snd (lex defs sublexer text) <> None.
Proof.
  unfold lex.
  apply run_finishes with (Inv := stack_inv text states)
                          (mu := measure defs text).
  - intros. eapply step_lowers; eauto.
  - apply init_inv.
  - unfold measure. simpl List.length.
    destruct (strict defs _); lia.
Qed.

End Closed.

End LexerFacts.

(* ================================================================== *)
(** ** Literals, word lists and identifiers *)

Lemma get_lt_some (s : string) : forall p,
  p < String.length s -> exists c, String.get p s = Some c.
Proof.
  induction s as [|a s IH]; intros [|p] H; simpl in *; try lia; eauto.
  apply IH. lia.
Qed.

Lemma drop_cons (s : string) : forall p c,
  String.get p s = Some c -> drop p s = String c (drop (S p) s).
Proof.
  induction s as [|a s IH]; intros [|p] c H; simpl in *; try discriminate.
  - inversion H. destruct s; reflexivity.
  - rewrite (IH p c H). reflexivity.
Qed.

Lemma last_char_get (s : string) : forall c,
  last_char s = Some c -> String.get (String.length s - 1) s = Some c.
Proof.
  induction s as [|a s IH]; intros c H; simpl in *; [discriminate|].
  destruct s as [|b s']; [assumption|].
  specialize (IH c H). simpl in *. rewrite Nat.sub_0_r in IH. assumption.
Qed.

Lemma space_not_word c : is_space c = true -> is_word c = false.
Proof.
  destruct c as [b0 b1 b2 b3 b4 b5 b6 b7].
  destruct b0, b1, b2, b3, b4, b5, b6, b7; vm_compute;
    intros H; try discriminate H; reflexivity.
Qed.

Section LiteralFacts.
Variable text : string.

Lemma lit_at_get (s : string) : forall p i c,
  lit_at text s p = true -> String.get i s = Some c ->
  char_at text (p + i) = Some c.
Proof.
  induction s as [|a s IH]; intros p i c H G; [destruct i; discriminate|].
  apply lit_at_cons in H. destruct H as [H1 H2].
  destruct i as [|i]; simpl in G.
  - inversion G; subst. rewrite Nat.add_0_r. assumption.
  - replace (p + S i) with (S p + i) by lia. eapply IH; eauto.
Qed.

Lemma lit_at_take : forall n p,
  p + n <= String.length text ->
  lit_at text (take n (drop p text)) p = true.
Proof.
  induction n as [|n IH]; intros p H; [destruct (drop p text); reflexivity|].
  destruct (get_lt_some text p ltac:(lia)) as [c Hc].
  rewrite (drop_cons _ _ _ Hc). cbn [take lit_at]. unfold char_at.
  rewrite Hc, Ascii.eqb_refl. cbn [andb]. apply IH. lia.
Qed.

(** A slice of the text occurs in the text where it was taken. *)
Lemma lit_at_slice p e :
  p <= e -> e <= String.length text -> lit_at text (slice p e text) p = true.
Proof. intros H1 H2. unfold slice. apply lit_at_take. lia. Qed.

(** After a literal that ends with [c], the previous character is [c]. *)
Lemma lit_at_prev s p c :
  lit_at text s p = true -> last_char s = Some c ->
  prev_at text (p + String.length s) = Some c.
Proof.
  intros H L. pose proof (last_char_get _ _ L) as G.
  assert (0 < String.length s) by (destruct s; simpl; [discriminate|lia]).
  replace (p + String.length s) with (S (p + (String.length s - 1))) by lia.
  simpl. eapply lit_at_get; eauto.
Qed.

Lemma lit_at_app a : forall b p,
  lit_at text (a ++ b) p = true <->
  lit_at text a p = true /\ lit_at text b (p + String.length a) = true.
Proof.
  induction a as [|c a IH]; intros b p; simpl String.append.
  - simpl. rewrite Nat.add_0_r. tauto.
  - cbn [lit_at]. simpl String.length.
    replace (p + S (String.length a)) with (S p + String.length a) by lia.
    destruct (char_at text p) as [d|]; [|intuition discriminate].
    destruct (Ascii.eqb c d); cbn [andb]; [apply IH | intuition discriminate].
Qed.

Lemma length_append (a b : string) :
  String.length (a ++ b) = String.length a + String.length b.
Proof.
  induction a as [|c a IH]; simpl; [reflexivity | rewrite IH; reflexivity].
Qed.

Lemma mem_string_In w l : mem_string w l = true -> In w l.
Proof.
  unfold mem_string. intros H. apply existsb_exists in H.
  destruct H as (x & Hx & E). apply String.eqb_eq in E. subst. assumption.
Qed.

(** A simple pattern matches one of the strings of its list. *)
Lemma lang_sound r : forall p g p' g',
  simple r = true -> Matches text r p g p' g' ->
  exists w, In w (lang r) /\ lit_at text w p = true /\
            p' = p + String.length w /\ g' = g.
Proof.
  induction r as [ | s | items | items | | a IHa b IHb | a IHa b IHb
                 | a IHa | a IHa | i a IHa | | | | | | a IHa | items ];
    intros p g p' g' Hs M; simpl in Hs; try discriminate.
  - inversion M; subst. exists EmptyString. simpl. rewrite Nat.add_0_r. auto.
  - inversion M; subst. exists s. simpl. auto.
  - inversion M; subst. exists (String c EmptyString). simpl.
    match goal with H : char_at _ _ = Some _ |- _ => rewrite H end.
    rewrite Ascii.eqb_refl. repeat split; try lia.
    apply in_flat_map.
    match goal with H : in_set _ _ = true |- _ =>
      apply existsb_exists in H; destruct H as (i & Hi & Hc) end.
    exists i. split; [assumption|].
    rewrite forallb_forall in Hs. specialize (Hs i Hi).
    destruct i; try discriminate. simpl in Hc.
    apply Ascii.eqb_eq in Hc. subst. left. reflexivity.
  - apply andb_true_iff in Hs. destruct Hs as [Ha Hb].
    inversion M; subst.
    match goal with
    | M1 : Matches _ a _ _ _ _, M2 : Matches _ b _ _ _ _ |- _ =>
        apply IHa in M1; [|assumption];
        destruct M1 as (x & Hx & Lx & -> & ->);
        apply IHb in M2; [|assumption];
        destruct M2 as (y & Hy & Ly & -> & ->)
    end.
    exists (x ++ y)%string. repeat split.
    + simpl. apply in_flat_map. exists x. split; [assumption|].
      apply in_map. assumption.
    + apply lit_at_app. auto.
    + rewrite length_append. lia.
  - apply andb_true_iff in Hs. destruct Hs as [Ha Hb].
    inversion M; subst.
    + match goal with M1 : Matches _ a _ _ _ _ |- _ =>
        apply IHa in M1; [|assumption];
        destruct M1 as (x & Hx & Lx & -> & ->) end.
      exists x. simpl. rewrite in_app_iff. auto.
    + match goal with M1 : Matches _ b _ _ _ _ |- _ =>
        apply IHb in M1; [|assumption];
        destruct M1 as (x & Hx & Lx & -> & ->) end.
      exists x. simpl. rewrite in_app_iff. auto.
Qed.

(** The matcher finds a match of a simple pattern whenever one of its
    strings stands in the text and the rest of the pattern can go on
    after it. *)
Lemma lang_complete (R : Type) r :
  forall w p g (k : nat -> groups -> option R),
    simple r = true -> In w (lang r) -> lit_at text w p = true ->
    k (p + String.length w) g <> None ->
    rmatch text r p g k <> None.
Proof.
  induction r as [ | s | items | items | | a IHa b IHb | a IHa b IHb
                 | a IHa | a IHa | i a IHa | | | | | | a IHa | items ];
    intros w p g k Hs Hin Hl Hk; simpl in Hs; try discriminate.
  - destruct Hin as [<-|[]]. simpl in Hk. rewrite Nat.add_0_r in Hk.
    exact Hk.
  - destruct Hin as [<-|[]]. cbn [rmatch]. rewrite Hl. exact Hk.
  - simpl in Hin. apply in_flat_map in Hin. destruct Hin as (i & Hi & Hw).
    rewrite forallb_forall in Hs. specialize (Hs i Hi).
    destruct i as [c| | | | |]; try discriminate.
    destruct Hw as [<-|[]].
    apply lit_at_cons in Hl. destruct Hl as [Hc _].
    cbn [rmatch]. rewrite Hc.
    assert (Hset : in_set items c = true).
    { apply existsb_exists. exists (CChar c). split; [assumption|].
      simpl. apply Ascii.eqb_refl. }
    rewrite Hset. simpl in Hk. rewrite Nat.add_1_r in Hk. exact Hk.
  - apply andb_true_iff in Hs. destruct Hs as [Ha Hb].
    simpl in Hin. apply in_flat_map in Hin. destruct Hin as (x & Hx & Hw).
    apply in_map_iff in Hw. destruct Hw as (y & <- & Hy).
    apply lit_at_app in Hl. destruct Hl as [Lx Ly].
    cbn [rmatch]. apply (IHa x); try assumption.
    apply (IHb y); try assumption.
    rewrite length_append, Nat.add_assoc in Hk. exact Hk.
  - apply andb_true_iff in Hs. destruct Hs as [Ha Hb].
    simpl in Hin. apply in_app_iff in Hin. cbn [rmatch].
    destruct (rmatch text a p g k) eqn:E; [discriminate|].
    destruct Hin as [Hin|Hin].
    + exfalso. revert E. apply (IHa w); assumption.
    + apply (IHb w); assumption.
Qed.

Lemma words_checked_facts ws :
  words_checked ws = true ->
  ws <> [] /\ simple (regex_opt_group ws) = true /\
  (forall w, In w (lang (regex_opt_group ws)) -> In w ws) /\
  (forall w, In w ws -> In w (lang (regex_opt_group ws))).
Proof.
  unfold words_checked. intros H.
  apply andb_true_iff in H. destruct H as [H H4].
  apply andb_true_iff in H. destruct H as [H H3].
  apply andb_true_iff in H. destruct H as [H1 H2].
  repeat split.
  - intros ->. discriminate H1.
  - assumption.
  - intros w Hw. rewrite forallb_forall in H3. apply mem_string_In. auto.
  - intros w Hw. rewrite forallb_forall in H4. apply mem_string_In. auto.
Qed.

(** A word-list pattern with the suffix [\b] and no prefix matches one
    of its words, at a word boundary. *)
Lemma words_sound ws p g e g' :
  words_checked ws = true ->
  Matches text (words ws Eps WordB) p g e g' ->
  exists w, In w ws /\ lit_at text w p = true /\
            e = p + String.length w /\ at_wordb text e = true /\
            g' = (1, (p, e)) :: g.
Proof.
  intros Hck H.
  destruct (words_checked_facts ws Hck) as (Hne & Hs & Hsub & _).
  destruct ws as [|w0 ws]; [congruence|].
  unfold words, regex_opt in H.
  remember (regex_opt_group (w0 :: ws)) as body eqn:Eb.
  inversion H; subst; clear H.
  match goal with M : Matches _ Eps _ _ _ _ |- _ =>
    inversion M; subst; clear M end.
  match goal with M : Matches _ (Seq _ _) _ _ _ _ |- _ =>
    inversion M; subst; clear M end.
  match goal with M : Matches _ WordB _ _ _ _ |- _ =>
    inversion M; subst; clear M end.
  match goal with M : Matches _ (Grp _ _) _ _ _ _ |- _ =>
    inversion M; subst; clear M end.
  match goal with M : Matches _ _ _ _ _ _ |- _ =>
    apply lang_sound in M; [|assumption];
    destruct M as (w & Hin & Hl & -> & ->) end.
  exists w. auto 6.
Qed.

Lemma words_complete ws w p :
  words_checked ws = true ->
  In w ws -> lit_at text w p = true ->
  at_wordb text (p + String.length w) = true ->
  match_at text (words ws Eps WordB) p <> None.
Proof.
  intros Hck Hin Hl Hb.
  destruct (words_checked_facts ws Hck) as (Hne & Hs & _ & Hsup).
  destruct ws as [|w0 ws]; [congruence|].
  unfold match_at, words, regex_opt.
  remember (regex_opt_group (w0 :: ws)) as body eqn:Eb.
  cbn [rmatch].
  apply (lang_complete _ body w); try assumption.
  - subst body. apply Hsup. assumption.
  - rewrite Hb. discriminate.
Qed.

Lemma words_prefix ws pre suf p g e g' :
  ws <> [] -> Matches text (words ws pre suf) p g e g' ->
  exists p1 g1, Matches text pre p g p1 g1.
Proof.
  intros Hne H. destruct ws as [|w0 ws]; [congruence|].
  unfold words, regex_opt in H. inversion H; subst. eauto.
Qed.

(** A greedy star cannot make a pattern fail when what follows it
    never fails. *)
Lemma star_total (R : Type) a p g (k : nat -> groups -> option R) :
  (forall p' g', k p' g' <> None) -> rmatch text (Star a) p g k <> None.
Proof.
  intros Hk. cbn [rmatch].
  destruct (String.length text - p) as [|n]; [apply Hk|].
  match goal with
  | |- match ?e with _ => _ end <> None => destruct e
  end; [discriminate | apply Hk].
Qed.

(** [[a-zA-Z_]\w*] matches wherever a letter or an underscore stands. *)
Lemma ident_complete p c :
  char_at text p = Some c -> in_set letters_ c = true ->
  match_at text ident p <> None.
Proof.
  intros Hc Hin. unfold match_at, ident.
  change (match char_at text p with
          | Some c =>
              if in_set letters_ c
              then rmatch text (Star (InSet [CWord])) (S p) []
                          (fun e g => Some (e, g))
              else None
          | None => None
          end <> None).
  rewrite Hc, Hin. apply star_total. discriminate.
Qed.

End LiteralFacts.

(* ================================================================== *)
(** ** [RenpyBlockLexer] *)

Lemma block_table_ok : table_ok RenpyBlockLexer.tokens [root] = true.
Proof. vm_compute. reflexivity. Qed.

Lemma block_root_rules :
  rules_of RenpyBlockLexer.tokens root =
  [ (ident, ATok Name, NoChange);
    (words RenpyBlockLexer.block_start_words Eps WordB, ATok Block_Start,
     NoChange);
    (RenpyBlockLexer.region_re, ATok Block_Start, NoChange);
    (RenpyBlockLexer.endregion_re, ATok Block_End, NoChange);
    (words RenpyBlockLexer.block_end_words Eps WordB, ATok Block_End,
     NoChange) ].
Proof. reflexivity. Qed.

(** The loop of [RenpyBlockLexer] ends on every text. *)
Lemma RenpyBlockLexer_finishes (text : string) :
  snd (lex RenpyBlockLexer.tokens (fun _ => []) text) <> None.
Proof. apply lex_finishes with (states := [root]). apply block_table_ok. Qed.

Lemma not_alphabetic v c :
  String.get 0 v = Some c -> in_set letters_ c = false ->
  forall w, alphabetic w = true -> v <> w.
Proof.
  intros G Hc w Hw E. subst. unfold alphabetic in Hw. rewrite G in Hw.
  congruence.
Qed.

(** The token of a rule that fires where no identifier starts. *)
Lemma block_rule_token text pos e g rx t :
  pos <= String.length text ->
  (forall c, char_at text pos = Some c -> in_set letters_ c = false) ->
  match_at text rx pos = Some (e, g) ->
  nullable rx = false ->
  (t = Block_Start -> rx = RenpyBlockLexer.region_re) ->
  Forall (block_token_ok text) (emit (fun _ => []) text (ATok t) pos e g).
Proof.
  intros Hp Hnl HM Hn Ht. simpl. constructor; [|constructor].
  pose proof (match_at_sound _ _ _ _ _ HM) as M.
  pose proof (Matches_bounds _ _ _ _ _ _ M Hp) as [_ He].
  pose proof (Matches_progress _ _ _ _ _ _ M Hp Hn) as Hlt.
  destruct (get_lt_some text pos ltac:(lia)) as [c Hc].
  assert (G : String.get 0 (slice pos e text) = Some c).
  { rewrite get_slice by lia. rewrite Nat.add_0_r. assumption. }
  intros _. unfold tok_value, tok_type, tok_index. simpl. split; [|split].
  - exists c. split; [assumption|]. apply Hnl. assumption.
  - eapply not_alphabetic; eauto.
  - intros ->. specialize (Ht eq_refl). subst. eauto.
Qed.

Lemma block_start_words_alphabetic :
  forallb alphabetic RenpyBlockLexer.block_start_words = true.
Proof. vm_compute. reflexivity. Qed.

Lemma block_start_words_checked :
  words_checked RenpyBlockLexer.block_start_words = true.
Proof. vm_compute. reflexivity. Qed.

(** Where no identifier starts, none of the alphabetic words matches. *)
Lemma alphabetic_words_fail text ws pos m :
  words_checked ws = true -> forallb alphabetic ws = true ->
  (forall c, char_at text pos = Some c -> in_set letters_ c = false) ->
  match_at text (words ws Eps WordB) pos = Some m -> False.
Proof.
  intros Hne Hal Hnl HM. destruct m as [e g].
  apply match_at_sound in HM. apply words_sound in HM; [|assumption].
  destruct HM as (w & Hin & Hl & _).
  rewrite forallb_forall in Hal. specialize (Hal w Hin).
  unfold alphabetic in Hal.
  destruct (String.get 0 w) as [c|] eqn:G; [|discriminate].
  pose proof (lit_at_get text w pos 0 c Hl G) as Hc.
  rewrite Nat.add_0_r in Hc. rewrite (Hnl c Hc) in Hal. discriminate.
Qed.

Lemma block_other_kind text tk :
  tok_type tk <> Block_Start -> tok_type tk <> Block_End ->
  block_token_ok text tk.
Proof. intros H1 H2 [H|H]; contradiction. Qed.

(** Every rule of [RenpyBlockLexer] yields tokens as the claim says. *)
Lemma block_rules_ok text st r pos e g :
  In st [root] -> pos <= String.length text ->
  first_match text (rules_of RenpyBlockLexer.tokens st) pos
  = Some (r, (e, g)) ->
  Forall (block_token_ok text)
         (emit (fun _ => []) text (rule_action r) pos e g).
Proof.
  intros [<-|[]] Hp H. rewrite block_root_rules in H.
  cbn [first_match rule_rx fst snd] in H.
  destruct (match_at text ident pos) as [m1|] eqn:E1.
  { inversion H; subst. simpl. constructor; [|constructor].
    apply block_other_kind; discriminate. }
  assert (Hnl : forall c, char_at text pos = Some c ->
                          in_set letters_ c = false).
  { intros c Hc. destruct (in_set letters_ c) eqn:Hin; [|reflexivity].
    exfalso. eapply ident_complete; eauto. }
  destruct (match_at text (words RenpyBlockLexer.block_start_words Eps WordB)
                     pos) as [m2|] eqn:E2.
  { exfalso.
    apply (alphabetic_words_fail text RenpyBlockLexer.block_start_words pos m2
             block_start_words_checked block_start_words_alphabetic Hnl E2). }
  destruct (match_at text RenpyBlockLexer.region_re pos) as [m3|] eqn:E3.
  { inversion H; subst. eapply block_rule_token; eauto. }
  destruct (match_at text RenpyBlockLexer.endregion_re pos) as [m4|] eqn:E4.
  { inversion H; subst. eapply block_rule_token; eauto. discriminate. }
  destruct (match_at text (words RenpyBlockLexer.block_end_words Eps WordB) pos)
    as [m5|] eqn:E5; [|discriminate].
  inversion H; subst. eapply block_rule_token; eauto. discriminate.
Qed.

Lemma block_tokens_ok text :
  Forall (block_token_ok text) (RenpyBlockLexer.get_tokens_unprocessed text).
Proof.
  unfold RenpyBlockLexer.get_tokens_unprocessed.
  apply tokens_have with (states := [root]).
  - apply block_table_ok.
  - intros. eapply block_rules_ok; eauto.
  - intros pos c _. split; apply block_other_kind; discriminate.
Qed.

(** Where a word that begins with a letter or an underscore stands, the
    loop of [RenpyBlockLexer] yields a [Name] token. *)
Lemma alphabetic_word_is_name text pos stack w :
  top stack = root -> alphabetic w = true -> lit_at text w pos = true ->
  exists e,
    pos < e /\
    step RenpyBlockLexer.tokens (fun _ => []) text pos stack =
    Next [(pos, Name, slice pos e text)] e stack.
Proof.
  intros Htop Hw Hl. unfold alphabetic in Hw.
  destruct (String.get 0 w) as [c|] eqn:G; [|discriminate].
  pose proof (lit_at_get text w pos 0 c Hl G) as Hc.
  rewrite Nat.add_0_r in Hc.
  pose proof (ident_complete text pos c Hc Hw) as Hid.
  destruct (match_at text ident pos) as [[e g]|] eqn:E; [|congruence].
  exists e. split.
  - apply match_at_sound in E. apply char_at_lt in Hc.
    eapply Matches_progress; eauto. lia.
  - unfold step. rewrite Htop, block_root_rules.
    cbn [first_match rule_rx fst snd]. rewrite E. reflexivity.
Qed.

(* ================================================================== *)
(** ** [RenpyLexer] *)

(** For every word list of [lexer.py] but the one that is left out, the
    pattern of [regex_opt] matches the words of the list and nothing
    else. *)
Lemma word_lists_checked :
  forallb words_checked
          [ RenpyBlockLexer.block_start_words;
            RenpyBlockLexer.block_end_words;
            RenpyLexer.keyword_words; RenpyLexer.reserved_words;
            RenpyLexer.declaration_words; RenpyLexer.special_label_words;
            RenpyLexer.screen_lang_words; RenpyLexer.screen_action_words;
            RenpyLexer.builtin_words; RenpyLexer.exception_words;
            RenpyLexer.magicfunc_words; RenpyLexer.magicvar_words ] = true.
Proof. vm_compute. reflexivity. Qed.

Lemma renpy_table_ok : table_ok RenpyLexer.tokens renpy_states = true.
Proof. vm_compute. reflexivity. Qed.

(** The loop of [RenpyLexer] ends on every text. *)
Lemma RenpyLexer_finishes (text : string) :
  snd (lex RenpyLexer.tokens (fun _ => []) text) <> None.
Proof.
  apply lex_finishes with (states := renpy_states). apply renpy_table_ok.
Qed.

(** In ['root'] the rule of the declaration words is the nineteenth, and
    the rule of the special labels comes right after it. *)
Lemma renpy_root_split :
  renpy_root_rules =
  firstn 18 renpy_root_rules ++ declaration_rule ::
  special_labels_rule :: skipn 20 renpy_root_rules.
Proof. vm_compute. reflexivity. Qed.

Lemma renpy_root_label_reserved :
  forallb (fun r => negb (yields_label_reserved r))
          (firstn 18 renpy_root_rules ++ declaration_rule ::
           skipn 20 renpy_root_rules) = true.
Proof. vm_compute. reflexivity. Qed.

Lemma renpy_other_label_reserved :
  forallb (fun st =>
             forallb (fun r => negb (yields_label_reserved r))
                     (rules_of RenpyLexer.tokens st))
          (tl renpy_states) = true.
Proof. vm_compute. reflexivity. Qed.

Lemma declaration_words_checked :
  words_checked RenpyLexer.declaration_words = true.
Proof. vm_compute. reflexivity. Qed.

Section Shadowing.
Variable text : string.

(** Where the pattern of the special labels matches, so does the pattern
    of the declaration words: the text there reads [label ] and a
    blank. *)
Lemma special_label_shadowed pos :
  match_at text (rule_rx special_labels_rule) pos <> None ->
  match_at text (rule_rx declaration_rule) pos <> None.
Proof.
  destruct (match_at text (rule_rx special_labels_rule) pos)
    as [[e g]|] eqn:E; [intros _ | congruence].
  apply match_at_sound in E.
  apply words_prefix in E; [|discriminate].
  destruct E as (p1 & g1 & E). inversion E; subst.
  match goal with
  | L : lit_at _ _ _ = true |- _ =>
      change "label " with ("label" ++ " ")%string in L;
      apply lit_at_app in L; destruct L as [L1 L2]
  end.
  apply words_complete with (w := "label").
  - apply declaration_words_checked.
  - unfold RenpyLexer.declaration_words.
    repeat (first [left; reflexivity | right]).
  - assumption.
  - unfold at_wordb.
    rewrite (lit_at_prev text "label" pos "l" L1 eq_refl).
    apply lit_at_cons in L2. destruct L2 as [L2 _]. rewrite L2.
    reflexivity.
Qed.

(** A rule is never the first to match when a rule before it matches
    wherever it does. *)
Lemma first_match_shadowed (bad : prule -> bool) l1 d s l2 pos r m :
  first_match text (l1 ++ d :: s :: l2) pos = Some (r, m) ->
  forallb (fun x => negb (bad x)) (l1 ++ d :: l2) = true ->
  (match_at text (rule_rx s) pos <> None ->
   match_at text (rule_rx d) pos <> None) ->
  bad r = false.
Proof.
  intros H Hgood Hsh.
  rewrite forallb_app in Hgood. apply andb_true_iff in Hgood.
  destruct Hgood as [G1 G2]. simpl in G2. apply andb_true_iff in G2.
  destruct G2 as [Gd G2].
  rewrite first_match_app in H.
  destruct (first_match text l1 pos) as [[r1 m1]|] eqn:E1.
  - inversion H; subst. apply first_match_some in E1. destruct E1 as [Hin _].
    rewrite forallb_forall in G1. apply negb_true_iff. auto.
  - cbn [first_match] in H.
    destruct (match_at text (rule_rx d) pos) as [md|] eqn:Ed.
    + inversion H; subst. apply negb_true_iff. assumption.
    + destruct (match_at text (rule_rx s) pos) as [ms|] eqn:Es.
      * exfalso. apply Hsh; [discriminate | reflexivity].
      * apply first_match_some in H. destruct H as [Hin _].
        rewrite forallb_forall in G2. apply negb_true_iff. auto.
Qed.

(** No rule that can fire in [RenpyLexer] yields [Renpy.Label.Reserved]. *)
Lemma renpy_fired_rule st r pos m :
  In st renpy_states ->
  first_match text (rules_of RenpyLexer.tokens st) pos = Some (r, m) ->
  yields_label_reserved r = false.
Proof.
  intros Hst H. destruct Hst as [<-|Hst].
  - change (rules_of RenpyLexer.tokens root) with renpy_root_rules in H.
    rewrite renpy_root_split in H.
    eapply first_match_shadowed with (bad := yields_label_reserved).
    + exact H.
    + apply renpy_root_label_reserved.
    + apply special_label_shadowed.
  - pose proof renpy_other_label_reserved as G.
    rewrite forallb_forall in G. specialize (G st Hst).
    rewrite forallb_forall in G.
    apply first_match_some in H. destruct H as [Hin _].
    apply negb_true_iff. auto.
Qed.

End Shadowing.

Lemma emit_unmentioned text t a pos e g :
  mentions t a = false ->
  Forall (fun tk => tok_type tk <> t) (emit (fun _ => []) text a pos e g).
Proof.
  intros Hm.
  eapply Forall_impl; [|apply emit_types; reflexivity].
  intros tk Hin E. subst. unfold mentions in Hm.
  assert (existsb (ttype_eqb (tok_type tk)) (action_types a) = true).
  { apply existsb_exists. exists (tok_type tk). split; [assumption|].
    apply ttype_eqb_eq. reflexivity. }
  congruence.
Qed.

Lemma renpy_no_label_reserved text :
  Forall (fun tk => tok_type tk <> Renpy_Label_Reserved)
         (RenpyLexer.get_tokens_unprocessed text).
Proof.
  unfold RenpyLexer.get_tokens_unprocessed.
  apply tokens_have with (states := renpy_states).
  - apply renpy_table_ok.
  - intros st r pos e g Hst _ H. apply emit_unmentioned.
    eapply renpy_fired_rule; eauto.
  - intros pos c _. split; discriminate.
Qed.

(* ================================================================== *)
(** ** Keyword tokens of [RenpyLexer] *)

Lemma renpy_root_keyword_rules :
  filter yields_keyword renpy_root_rules =
  [keyword_rule; reserved_rule; declaration_rule; def_rule; class_rule].
Proof. vm_compute. reflexivity. Qed.

Lemma renpy_other_keyword_rules :
  forallb (fun st =>
             forallb (fun r => negb (yields_keyword r))
                     (rules_of RenpyLexer.tokens st))
          (tl renpy_states) = true.
Proof. vm_compute. reflexivity. Qed.

Lemma keyword_lists_checked :
  words_checked RenpyLexer.keyword_words = true /\
  words_checked RenpyLexer.reserved_words = true.
Proof. split; vm_compute; reflexivity. Qed.

Lemma keyword_lists_end_with_word :
  forallb ends_with_word RenpyLexer.keyword_words = true /\
  forallb ends_with_word RenpyLexer.reserved_words = true /\
  forallb ends_with_word RenpyLexer.declaration_words = true.
Proof. repeat split; vm_compute; reflexivity. Qed.

Section KeywordTokens.
Variable text : string.

Lemma Matches_group_free r p g p' g' :
  Matches text r p g p' g' -> group_free r = true -> g' = g.
Proof.
  induction 1; intros Hg; simpl in Hg; try discriminate; auto;
    try (apply andb_true_iff in Hg; destruct Hg as [Ha Hb]).
  - rewrite IHMatches2, IHMatches1; auto.
  - auto.
  - auto.
  - rewrite IHMatches2, IHMatches1; auto.
  - rewrite IHMatches2, IHMatches1; auto.
Qed.

(** [(?:\s|\\\s)+] starts with a character that is not part of an
    identifier. *)
Lemma spaces_cont_first p g e g' :
  Matches text spaces_cont p g e g' ->
  exists c, char_at text p = Some c /\ is_word c = false.
Proof.
  intros H. unfold spaces_cont, Plus in H.
  inversion H; subst; clear H.
  match goal with
  | M : Matches _ (Alt _ _) _ _ _ _ |- _ => inversion M; subst; clear M
  end.
  - match goal with
    | M : Matches _ (InSet _) _ _ _ _ |- _ => inversion M; subst; clear M
    end.
    exists c. split; [assumption|]. apply space_not_word.
    match goal with
    | E : in_set _ _ = true |- _ =>
        simpl in E; rewrite orb_false_r in E; exact E
    end.
  - match goal with
    | M : Matches _ (Seq _ _) _ _ _ _ |- _ => inversion M; subst; clear M
    end.
    match goal with
    | M : Matches _ (Lit _) _ _ _ _ |- _ => inversion M; subst; clear M
    end.
    match goal with
    | L : lit_at _ _ _ = true |- _ =>
        apply lit_at_cons in L; destruct L as [L _]
    end.
    eexists. split; [eassumption | reflexivity].
Qed.

Lemma xorb_word c o :
  is_word c = true -> xorb (word_opt (Some c)) (word_opt o) = true ->
  word_opt o = false.
Proof.
  simpl. intros ->. destruct (word_opt o); [discriminate | reflexivity].
Qed.

(** The token of a word list whose words end with an identifier
    character and are followed by [\b]. *)
Lemma words_token_ok ws t pos e g :
  words_checked ws = true -> forallb ends_with_word ws = true ->
  pos <= String.length text ->
  Matches text (words ws Eps WordB) pos [] e g ->
  keyword_token_ok text (pos, t, slice pos e text).
Proof.
  intros Hne Hend Hp M. intros _.
  pose proof (Matches_bounds _ _ _ _ _ _ M Hp) as [Hle He].
  apply words_sound in M; [|assumption].
  destruct M as (w & Hin & Hl & -> & Hb & _).
  rewrite forallb_forall in Hend. specialize (Hend w Hin).
  unfold ends_with_word in Hend.
  destruct (last_char w) as [c|] eqn:L; [|discriminate]. simpl in Hend.
  unfold occurs_at, not_followed_by_word, tok_value, tok_index. simpl.
  split.
  - apply lit_at_slice; lia.
  - rewrite length_slice by assumption.
    replace (pos + (pos + String.length w - pos))
      with (pos + String.length w) by lia.
    unfold at_wordb in Hb.
    rewrite (lit_at_prev text w pos c Hl L) in Hb.
    eapply xorb_word; eauto.
Qed.

(** The tokens of [(def)((?:\s|\\\s)+)] and of its sibling for
    [class]. *)
Lemma def_tokens_ok kw t pos e g :
  pos <= String.length text ->
  Matches text (Seq (Grp 1 (Lit kw)) (Grp 2 spaces_cont)) pos [] e g ->
  Forall (keyword_token_ok text)
         (bygroups (fun _ => []) text [GTok t; GTok Text] 1 g).
Proof.
  intros Hp M. inversion M; subst; clear M.
  repeat match goal with
         | M : Matches _ (Grp _ _) _ _ _ _ |- _ => inversion M; subst; clear M
         end.
  match goal with
  | M : Matches _ (Lit _) _ _ _ _ |- _ => inversion M; subst; clear M
  end.
  match goal with
  | M : Matches _ spaces_cont _ _ _ _ |- _ =>
      pose proof (Matches_group_free _ _ _ _ _ M eq_refl); subst;
      pose proof (spaces_cont_first _ _ _ _ M) as (c & Hc & Hw)
  end.
  match goal with
  | L : lit_at _ _ _ = true |- _ =>
      pose proof (lit_at_bound text kw pos Hp L) as Hb
  end.
  cbn [bygroups group Nat.eqb app].
  apply Forall_app. split; [|apply Forall_app; split; [|constructor]].
  - destruct (is_empty (slice pos (pos + String.length kw) text));
      constructor; [|constructor].
    intros _. unfold occurs_at, not_followed_by_word, tok_value, tok_index.
    simpl. split.
    + apply lit_at_slice; lia.
    + rewrite length_slice by assumption.
      replace (pos + (pos + String.length kw - pos))
        with (pos + String.length kw) by lia.
      rewrite Hc. simpl. assumption.
  - destruct (is_empty (slice (pos + String.length kw) e text));
      constructor; [|constructor].
    intros K. discriminate K.
Qed.

Lemma emit_no_keyword a pos e g :
  existsb keyword_kind (action_types a) = false ->
  Forall (keyword_token_ok text) (emit (fun _ => []) text a pos e g).
Proof.
  intros Hk.
  eapply Forall_impl; [|apply emit_types; reflexivity].
  intros tk Hin K.
  assert (existsb keyword_kind (action_types a) = true).
  { apply existsb_exists. exists (tok_type tk). split; assumption. }
  congruence.
Qed.

(** Every rule of [RenpyLexer] yields keyword tokens as stated. *)
Lemma renpy_rules_keyword st r pos e g :
  In st renpy_states -> pos <= String.length text ->
  first_match text (rules_of RenpyLexer.tokens st) pos = Some (r, (e, g)) ->
  Forall (keyword_token_ok text)
         (emit (fun _ => []) text (rule_action r) pos e g).
Proof.
  intros Hst Hp H.
  pose proof (first_match_span _ _ _ _ _ _ Hp H) as [M _].
  apply first_match_some in H. destruct H as [Hin _].
  destruct (yields_keyword r) eqn:Hy;
    [|apply emit_no_keyword; exact Hy].
  destruct Hst as [<-|Hst].
  - assert (Hf : In r (filter yields_keyword renpy_root_rules)).
    { apply filter_In. split; assumption. }
    rewrite renpy_root_keyword_rules in Hf.
    destruct keyword_lists_end_with_word as (E1 & E2 & E3).
    destruct keyword_lists_checked as (C1 & C2).
    destruct Hf as [<-|[<-|[<-|[<-|[<-|[]]]]]].
    + constructor; [|constructor].
      apply (words_token_ok RenpyLexer.keyword_words Keyword pos e g);
        [exact C1 | exact E1 | exact Hp | exact M].
    + constructor; [|constructor].
      apply (words_token_ok RenpyLexer.reserved_words Renpy_Reserved
                            pos e g);
        [exact C2 | exact E2 | exact Hp | exact M].
    + constructor; [|constructor].
      apply (words_token_ok RenpyLexer.declaration_words Renpy_Declaration
                            pos e g);
        [exact declaration_words_checked | exact E3 | exact Hp | exact M].
    + apply (def_tokens_ok "def" Keyword pos e g Hp M).
    + apply (def_tokens_ok "class" Keyword pos e g Hp M).
  - pose proof renpy_other_keyword_rules as G.
    rewrite forallb_forall in G. specialize (G st Hst).
    rewrite forallb_forall in G. specialize (G r Hin).
    rewrite Hy in G. discriminate.
Qed.

End KeywordTokens.

Lemma renpy_keyword_tokens text :
  Forall (keyword_token_ok text) (RenpyLexer.get_tokens_unprocessed text).
Proof.
  unfold RenpyLexer.get_tokens_unprocessed.
  apply tokens_have with (states := renpy_states).
  - apply renpy_table_ok.
  - intros. eapply renpy_rules_keyword; eauto.
  - intros pos c _. split; intros K; discriminate K.
Qed.

(* ================================================================== *)
(** ** [RenpyConsoleLexer]: traceback blocks *)

Lemma append_assoc (a b c : string) :
  ((a ++ b) ++ c)%string = (a ++ (b ++ c))%string.
Proof.
  induction a as [|x a IH]; simpl; [reflexivity | rewrite IH; reflexivity].
Qed.

Lemma rstrip_not_ellipsis (line : string) (c : ascii) :
  String.get 0 line = Some c -> Ascii.eqb c "." = false ->
  String.eqb (rstrip line) "..." = false.
Proof.
  destruct line as [|d line]; simpl; [discriminate|].
  intros H Hc. inversion H; subst.
  destruct (is_empty (rstrip line) && is_space c)%bool; [reflexivity|].
  simpl. rewrite Hc. reflexivity.
Qed.

Lemma prefix_head (a : ascii) (pre s : string) :
  String.prefix (String a pre) s = true -> String.get 0 s = Some a.
Proof.
  destruct s as [|b s]; simpl; [discriminate|].
  destruct (ascii_dec a b); [subst; reflexivity | discriminate].
Qed.

Lemma header_first_char (line : string) :
  RenpyConsoleLexer.is_header line = true ->
  String.get 0 line = Some "T"%char \/ String.get 0 line = Some " "%char.
Proof.
  unfold RenpyConsoleLexer.is_header. intros H.
  apply orb_true_iff in H. destruct H as [H|H].
  - left. unfold startswith, RenpyConsoleLexer.traceback_header in H.
    apply prefix_head in H. exact H.
  - right.
    destruct (match_at line RenpyConsoleLexer.file_line_re 0)
      as [[e g]|] eqn:E; [|discriminate].
    apply match_at_sound in E.
    unfold RenpyConsoleLexer.file_line_re in E. inversion E; subst.
    match goal with
    | M : Matches _ (Lit _) _ _ _ _ |- _ => inversion M; subst
    end.
    match goal with
    | L : lit_at _ _ _ = true |- _ =>
        apply lit_at_cons in L; destruct L as [L0 _]; exact L0
    end.
Qed.

(** A traceback header is not an ellipsis line. *)
Lemma header_not_ellipsis (line : string) :
  RenpyConsoleLexer.is_header line = true ->
  String.eqb (rstrip line) "..." = false.
Proof.
  intros H. destruct (header_first_char line H) as [G|G];
    eapply rstrip_not_ellipsis; solve [exact G | reflexivity].
Qed.

(** A traceback header is not a prompt line. *)
Lemma header_not_prompt (line : string) :
  RenpyConsoleLexer.is_header line = true ->
  RenpyConsoleLexer.is_prompt line = false.
Proof.
  intros H. unfold RenpyConsoleLexer.is_prompt, startswith.
  destruct line as [|c line]; [reflexivity|].
  destruct (header_first_char _ H) as [G|G]; simpl in G; inversion G; subst;
    reflexivity.
Qed.

Section TracebackBlock.
Import RenpyConsoleLexer.

(** A plain line met while a traceback block is open and no code is
    pending. *)
Lemma do_line_in_block v start line :
  tb v = true -> is_empty (curcode v) = true -> plain_line line = true ->
  do_line v start line =
  if tb_continues line
  then ([], {| curcode := curcode v; insertions := insertions v;
               curtb := curtb v ++ line; tbindex := tbindex v;
               tb := true |})
  else (flush_tb (tbindex v) (curtb v ++ line),
        {| curcode := curcode v; insertions := insertions v;
           curtb := EmptyString; tbindex := tbindex v; tb := false |}).
Proof.
  intros Htb Hcode Hplain. unfold plain_line in Hplain.
  apply andb_true_iff in Hplain. destruct Hplain as [Hplain Hki].
  apply andb_true_iff in Hplain. destruct Hplain as [Hpr Hhd].
  apply negb_true_iff in Hpr, Hhd, Hki.
  unfold do_line. rewrite Hpr, Htb, Hcode, Hhd, Hki.
  rewrite andb_false_r. rewrite Htb. unfold tb_continues.
  destruct (startswith " " line || String.eqb (strip line) "...")%bool;
    simpl; reflexivity.
Qed.

(** The lines of an open block up to the line that closes it. *)
Lemma do_lines_in_block mid : forall v sc closing,
  tb v = true -> is_empty (curcode v) = true ->
  Forall (fun l => plain_line (snd l) = true /\
                   tb_continues (snd l) = true) mid ->
  plain_line closing = true -> tb_continues closing = false ->
  do_lines v (mid ++ [(sc, closing)]) =
  (flush_tb (tbindex v) (curtb v ++ block_text mid ++ closing),
   {| curcode := curcode v; insertions := insertions v;
      curtb := EmptyString; tbindex := tbindex v; tb := false |}).
Proof.
  induction mid as [|[s line] mid IH]; intros v sc closing Htb Hcode Hmid Hp Hc.
  - simpl. rewrite do_line_in_block by assumption. rewrite Hc.
    simpl. rewrite app_nil_r. reflexivity.
  - inversion Hmid as [|? ? [Hpl Hcont] Hrest]; subst. simpl in Hpl, Hcont.
    cbn [app do_lines]. rewrite do_line_in_block by assumption.
    rewrite Hcont.
    rewrite IH; try assumption; try reflexivity.
    simpl. rewrite !append_assoc. reflexivity.
Qed.

(** A header line opens a block, after the entered code that is
    pending, if any, has been merged and yielded. *)
Lemma do_line_header v start line :
  is_header line = true ->
  do_line v start line =
  ((if is_empty (curcode v) then [] else flush_code v),
   {| curcode := EmptyString;
      insertions := if is_empty (curcode v) then insertions v else [];
      curtb := line; tbindex := start; tb := true |}).
Proof.
  intros Hhd. unfold do_line.
  rewrite (header_not_prompt line Hhd), (header_not_ellipsis line Hhd).
  cbn [andb].
  destruct (is_empty (curcode v)) eqn:Hcode; rewrite Hhd; cbn.
  - destruct (curcode v); [reflexivity | discriminate].
  - reflexivity.
Qed.

End TracebackBlock.

Lemma traceback_table_ok :
  table_ok RenpyTracebackLexer.tokens traceback_states = true.
Proof. vm_compute. reflexivity. Qed.

(** The loop of [RenpyTracebackLexer] ends on every text. *)
Lemma RenpyTracebackLexer_finishes (text : string) :
  snd (RenpyTracebackLexer.lex text) <> None.
Proof.
  apply lex_finishes with (states := traceback_states).
  apply traceback_table_ok.
Qed.

(* ================================================================== *)
(** ** The claims of the specification *)

(** C1 (round trip), refuted by an input of the lexers: for the script
    line [renpy.pause(x)] [RenpyLexer] yields the name of the call, then
    its first five characters once more, and nothing for the
    parenthesised argument, so the values of its tokens do not add up to
    the text; the same line behind a console prompt breaks the round trip
    of [RenpyConsoleLexer].  A traceback block of a console transcript
    whose second line is a bare [File] line loses its header line. *)
Theorem round_trip_broken :
  RenpyLexer.get_tokens_unprocessed ("renpy.pause(x)" ++ nl) =
    [ (0, Renpy_Function_Builtin, "renpy.pause");
      (0, Renpy_Function_Arguments, "renpy");
      (14, Text, nl) ]
  /\ String.eqb
       (joined (RenpyLexer.get_tokens_unprocessed ("renpy.pause(x)" ++ nl)))
       ("renpy.pause(x)" ++ nl) = false
  /\ joined (RenpyConsoleLexer.get_tokens_unprocessed
               (">>> renpy.pause(x)" ++ nl)) =
     (">>> renpy.pauserenpy" ++ nl)%string
  /\ joined (RenpyConsoleLexer.get_tokens_unprocessed
               (traceback_header_line ++ "  File " ++ dq ++ "a.rpy" ++ dq
                  ++ ", line 3" ++ nl ++ "SyntaxError: invalid syntax" ++ nl)) =
     ("  File " ++ dq ++ "a.rpy" ++ dq ++ ", line 3" ++ nl
        ++ "SyntaxError: invalid syntax" ++ nl)%string.
Proof. repeat split; vm_compute; reflexivity. Qed.

(** C2 (ordered, contiguous offsets), refuted by inputs of the lexers:
    [RenpyConsoleLexer] numbers the tokens of a block of entered code
    from the start of that block, so after two lines of output the
    offsets of a transcript fall back to 0; and the two tokens that
    [RenpyLexer] yields for [renpy.pause(x)] both start at 0. *)
Theorem offsets_broken :
  map tok_index
      (RenpyConsoleLexer.get_tokens_unprocessed
         ("a" ++ nl ++ "b" ++ nl ++ ">>> x" ++ nl)) = [0; 2; 0; 4; 5]
  /\ nondecreasing
       (RenpyConsoleLexer.get_tokens_unprocessed
          ("a" ++ nl ++ "b" ++ nl ++ ">>> x" ++ nl)) = false
  /\ contiguous
       (RenpyConsoleLexer.get_tokens_unprocessed
          ("a" ++ nl ++ "b" ++ nl ++ ">>> x" ++ nl)) = false
  /\ contiguous
       (RenpyLexer.get_tokens_unprocessed ("renpy.pause(x)" ++ nl)) = false.
Proof. repeat split; vm_compute; reflexivity. Qed.

(** C3 as the spec words it fails: a newline inside the state of a
    double-quoted string matches no rule, and the loop answers with a
    [Text] token and a stack reset to ['root'], not with an [Error]
    token. *)
Lemma newline_in_string_is_not_error : ~ unmatched_is_error_as_stated.
Proof.
  intros H.
  specialize (H RenpyLexer.tokens (fun _ => [])
                (dq ++ "a" ++ nl ++ "b")%string 2
                [Combined ["stringescape"; "dqs"]; root] NL
                eq_refl eq_refl).
  vm_compute in H. discriminate H.
Qed.

(** C3, amended: where no rule of the current state matches at a
    position inside the text, one iteration yields exactly one token, of
    the one character at that position, and moves on by one character;
    the token is [Error] and the stack is kept, unless the character is
    a newline: then the token is [Text] and the stack is reset to
    ['root'].  The loop goes on from there. *)
Theorem unmatched_character_step
        (defs : tokendefs) (sublexer : string -> list token)
        (text : string) (pos : nat) (stack : list state) (c : ascii)
        (fuel : nat) :
  first_match text (rules_of defs (top stack)) pos = None ->
  String.get pos text = Some c ->
  let tk := (pos, (if Ascii.eqb c NL then Text else Error),
             String c EmptyString) in
  let stack' := if Ascii.eqb c NL then [root] else stack in
  step defs sublexer text pos stack = Next [tk] (S pos) stack'
  /\ String.length (tok_value tk) = 1
  /\ occurs_at text tk
  /\ run defs sublexer text (S fuel) pos stack =
     (tk :: fst (run defs sublexer text fuel (S pos) stack'),
      snd (run defs sublexer text fuel (S pos) stack')).
Proof.
  intros Hnone Hc tk stack'.
  assert (Hstep : step defs sublexer text pos stack = Next [tk] (S pos) stack').
  { unfold step. rewrite Hnone, Hc. subst tk stack'.
    destruct (Ascii.eqb c NL) eqn:E; [|reflexivity].
    apply Ascii.eqb_eq in E. subst. reflexivity. }
  repeat split.
  - exact Hstep.
  - unfold occurs_at, tok_value, tok_index, char_at. simpl.
    unfold char_at. rewrite Hc, Ascii.eqb_refl. reflexivity.
  - cbn [run]. rewrite Hstep.
    destruct (run defs sublexer text fuel (S pos) stack'). reflexivity.
Qed.

Lemma unmatched_character_step_witness :
  first_match "a ? b" (rules_of RenpyLexer.tokens (top [root])) 2 = None
  /\ String.get 2 "a ? b" = Some "?"%char
  /\ step RenpyLexer.tokens (fun _ => []) "a ? b" 2 [root] =
     Next [(2, Error, "?")] 3 [root].
Proof.
  split; [vm_compute; reflexivity|].
  split; [reflexivity|].
  exact (proj1 (unmatched_character_step
                  RenpyLexer.tokens (fun _ => []) "a ? b" 2 [root] "?"%char 0
                  ltac:(vm_compute; reflexivity) eq_refl)).
Defined.

(** C4 (traceback block), refuted by inputs of the lexer.  A bare
    [File] line starts with blanks, so that the claim has it captured
    into the open block; but the loop tests for a header line first, and
    a bare [File] line is one: the block starts anew at the offset of
    that line, and the [Traceback] line before it gives no token.  And a
    prompt line, which neither starts with whitespace nor is an ellipsis,
    does not hand the block over: the block stays pending, and its tokens
    come after those of the code that is entered behind it. *)
Theorem traceback_header_lost :
  RenpyConsoleLexer.is_header traceback_header_line = true
  /\ starts_with_whitespace bare_file_line = true
  /\ (starts_with_whitespace syntax_error_line
      || is_ellipsis syntax_error_line)%bool = false
  /\ RenpyConsoleLexer.lines_of restarted_block_text
     = [(0, traceback_header_line); (35, bare_file_line);
        (58, syntax_error_line)]
  /\ RenpyConsoleLexer.get_tokens_unprocessed restarted_block_text
     = RenpyConsoleLexer.flush_tb 35 (bare_file_line ++ syntax_error_line)
  /\ RenpyConsoleLexer.get_tokens_unprocessed restarted_block_text
     <> RenpyConsoleLexer.flush_tb 0 restarted_block_text
  /\ joined (RenpyConsoleLexer.get_tokens_unprocessed restarted_block_text)
     = (bare_file_line ++ syntax_error_line)%string
  /\ has_token Generic_Traceback traceback_header_line
               (RenpyConsoleLexer.get_tokens_unprocessed restarted_block_text)
     = false
  /\ RenpyConsoleLexer.get_tokens_unprocessed
       (traceback_header_line ++ ">>> x" ++ nl)
     = [ (0, Generic_Prompt, ">>> "); (4, Name, "x"); (5, Text, nl);
         (0, Generic_Traceback, traceback_header_line) ].
Proof.
  repeat (split; [vm_compute; reflexivity|]).
  split; [intros H; vm_compute in H; discriminate H|].
  repeat (split; [vm_compute; reflexivity|]).
  vm_compute. reflexivity.
Qed.

(** The traceback claim as the spec words it fails at a prompt line
    too: such a line does not start with whitespace and is no ellipsis,
    yet the block opened before it is not handed to the traceback lexer
    at that line. *)
Lemma prompt_does_not_close_block : ~ traceback_block_as_stated.
Proof.
  intros H.
  specialize (H 0 traceback_header_line [] 35 (">>> x" ++ nl)%string
                eq_refl (Forall_nil _) eq_refl).
  vm_compute in H. discriminate H.
Qed.

(** What the loop does with a block that nothing interrupts: once a
    header line (a line that starts with
    [Traceback (most recent call last):] or a bare [File] line) has
    opened a block, after the entered code that was pending has been
    yielded, every following line that is no prompt line, no header line
    and not the [KeyboardInterrupt] line is added to the block, which
    stays open as long as such a line starts with a blank or strips to an
    ellipsis; at the first such line that does neither, the header, the
    lines between and that line go to [RenpyTracebackLexer] as one text,
    and its tokens are yielded with their offsets raised by the start of
    the header line. *)
Theorem traceback_block_captured
        (v : RenpyConsoleLexer.vars) (s0 : nat) (header : string)
        (mid : list (nat * string)) (sc : nat) (closing : string) :
  RenpyConsoleLexer.is_header header = true ->
  Forall (fun l => plain_line (snd l) = true /\ tb_continues (snd l) = true)
         mid ->
  plain_line closing = true ->
  tb_continues closing = false ->
  RenpyConsoleLexer.do_lines v ((s0, header) :: mid ++ [(sc, closing)]) =
  ((if is_empty (RenpyConsoleLexer.curcode v) then []
    else RenpyConsoleLexer.flush_code v)
   ++ map (shift s0)
          (RenpyTracebackLexer.get_tokens_unprocessed
             (header ++ block_text mid ++ closing)),
   {| RenpyConsoleLexer.curcode := EmptyString;
      RenpyConsoleLexer.insertions :=
        if is_empty (RenpyConsoleLexer.curcode v)
        then RenpyConsoleLexer.insertions v else [];
      RenpyConsoleLexer.curtb := EmptyString;
      RenpyConsoleLexer.tbindex := s0;
      RenpyConsoleLexer.tb := false |}).
Proof.
  intros Hhd Hmid Hp Hc.
  cbn [RenpyConsoleLexer.do_lines].
  rewrite do_line_header by assumption.
  rewrite do_lines_in_block; try assumption; reflexivity.
Qed.

Lemma traceback_block_captured_witness :
  RenpyConsoleLexer.is_header traceback_header_line = true
  /\ plain_line traceback_file_line = true
  /\ tb_continues traceback_file_line = true
  /\ plain_line traceback_error_line = true
  /\ tb_continues traceback_error_line = false
  /\ RenpyConsoleLexer.do_lines RenpyConsoleLexer.init
       [(5, traceback_header_line); (40, traceback_file_line);
        (76, traceback_error_line)] =
     (map (shift 5)
          (RenpyTracebackLexer.get_tokens_unprocessed traceback_text),
      {| RenpyConsoleLexer.curcode := EmptyString;
         RenpyConsoleLexer.insertions := [];
         RenpyConsoleLexer.curtb := EmptyString;
         RenpyConsoleLexer.tbindex := 5;
         RenpyConsoleLexer.tb := false |}).
Proof.
  repeat (split; [vm_compute; reflexivity|]).
  apply (traceback_block_captured
           RenpyConsoleLexer.init 5 traceback_header_line
           [(40, traceback_file_line)] 76 traceback_error_line);
    try (vm_compute; reflexivity).
  constructor; [split; vm_compute; reflexivity | constructor].
Defined.

(** The same block after a line of output, through the whole of
    [RenpyConsoleLexer]: the tokens of the block are those of
    [RenpyTracebackLexer], raised by the five characters before it. *)
Example console_traceback_offsets :
  RenpyConsoleLexer.get_tokens_unprocessed ("oops" ++ nl ++ traceback_text) =
  (0, Generic_Output, ("oops" ++ nl)%string)
    :: map (shift 5) (RenpyTracebackLexer.get_tokens_unprocessed traceback_text).
Proof. vm_compute. reflexivity. Qed.

(** C5 (console session): the two prompt lines give exactly two
    [Generic.Prompt] tokens, each [>>> ]; the first stands before the
    tokens of [x = 1] and the second before the tokens of [print(x)], in
    the order of the lines. *)
Theorem console_session_tokens :
  RenpyConsoleLexer.get_tokens_unprocessed console_session_text =
    [ (0, Generic_Prompt, ">>> "); (4, Name, "x"); (5, Text, " ");
      (6, Operator, "="); (7, Text, " "); (8, Number_Integer, "1");
      (9, Text, nl);
      (10, Generic_Prompt, ">>> "); (14, Keyword, "print");
      (19, Punctuation, "("); (20, Name, "x"); (21, Punctuation, ")");
      (22, Text, nl) ]
  /\ RenpyConsoleLexer.get_tokens_unprocessed console_session_text =
     (0, Generic_Prompt, ">>> ")
       :: map (shift 4) (RenpyLexer.get_tokens_unprocessed ("x = 1" ++ nl))
       ++ (10, Generic_Prompt, ">>> ")
       :: map (shift 14) (RenpyLexer.get_tokens_unprocessed ("print(x)" ++ nl))
  /\ filter (is_kind Generic_Prompt)
            (RenpyConsoleLexer.get_tokens_unprocessed console_session_text) =
     [ (0, Generic_Prompt, ">>> "); (10, Generic_Prompt, ">>> ") ]
  /\ joined (RenpyConsoleLexer.get_tokens_unprocessed console_session_text) =
     console_session_text.
Proof. repeat split; vm_compute; reflexivity. Qed.

(** C6 (traceback): [RenpyTracebackLexer] yields a [Generic.Traceback]
    token for the header line; for the [File] line the quoted path, the
    line number as a [Number] and the name [<module>] as tokens of their
    own; for the last line the class of the error and its message; and it
    ends in the state ['root'], so that a plain line put after the block
    comes out as one [Other] token. *)
Theorem traceback_scenario_tokens :
  RenpyTracebackLexer.lex traceback_text =
    ([ (0, Generic_Traceback, traceback_header_line);
       (35, Text, "  File "); (42, Name_Builtin, (dq ++ "a.rpy" ++ dq)%string);
       (49, Text, ", line "); (56, Number, "3"); (57, Text, ", in ");
       (62, Name, "<module>"); (70, Text, nl);
       (71, Generic_Error, "ZeroDivisionError"); (88, Text, ": ");
       (90, Name, "division by zero"); (106, Text, nl) ],
     Some [root])
  /\ RenpyTracebackLexer.lex (traceback_text ++ "hello" ++ nl) =
     (fst (RenpyTracebackLexer.lex traceback_text)
        ++ [(107, Other, ("hello" ++ nl)%string)],
      Some [root]).
Proof. split; vm_compute; reflexivity. Qed.

(** C7 as the spec words it fails: after a number the word [if] is a
    keyword token although an identifier character stands before it. *)
Lemma keyword_after_digit : ~ keyword_surrounded_as_stated.
Proof.
  intros H.
  specialize (H "1if x" (1, Keyword, "if")
                ltac:(vm_compute; right; left; reflexivity) eq_refl).
  destruct H as [H _]. vm_compute in H. discriminate H.
Qed.

(** C7, amended: every token of kind [Keyword], [Renpy.Reserved] or
    [Renpy.Declaration] that [RenpyLexer] yields stands in the text at its
    index and is followed by the end of the text or by a character that
    is not an identifier character; nothing is promised about the
    character before it.  ([ifx_is_a_name] is the instance of the claim's
    example.) *)
Theorem keyword_token_boundary (text : string) (tk : token) :
  In tk (RenpyLexer.get_tokens_unprocessed text) ->
  keyword_kind (tok_type tk) = true ->
  occurs_at text tk /\ not_followed_by_word text tk.
Proof.
  intros Hin Hk.
  pose proof (renpy_keyword_tokens text) as H.
  rewrite Forall_forall in H. exact (H tk Hin Hk).
Qed.

Lemma keyword_token_boundary_witness :
  In (0, Keyword, "if") (RenpyLexer.get_tokens_unprocessed "if x")
  /\ occurs_at "if x" (0, Keyword, "if")
  /\ not_followed_by_word "if x" (0, Keyword, "if").
Proof.
  split; [vm_compute; left; reflexivity|].
  exact (keyword_token_boundary "if x" (0, Keyword, "if")
           ltac:(vm_compute; left; reflexivity) eq_refl).
Defined.

(** The example of C7: in [ifx = 1] the letters [if] are part of the
    name [ifx]. *)
Example ifx_is_a_name :
  RenpyLexer.get_tokens_unprocessed "ifx = 1" =
  [ (0, Name, "ifx"); (3, Text, " "); (4, Operator, "=");
    (5, Text, " "); (6, Number_Integer, "1") ].
Proof. vm_compute. reflexivity. Qed.

(** C8 as the spec words it fails: no token of the scenario has the
    whole literal, quotes included, as its value. *)
Lemma no_single_string_token :
  has_token String_Double (dq ++ "Hello" ++ dq)
            (RenpyLexer.get_tokens_unprocessed label_start_text) = false.
Proof. vm_compute. reflexivity. Qed.

(** C8, amended: for the two lines [label start:] and an indented
    ["Hello"], [RenpyLexer] yields a [Renpy.Declaration] token for
    [label], a [Name] token for [start], a [Punctuation] token for the
    colon and, on the second line, three [String.Double] tokens in a row,
    the opening quote, [Hello] and the closing quote, which together span
    the literal. *)
Theorem label_start_tokens :
  RenpyLexer.get_tokens_unprocessed label_start_text =
  [ (0, Renpy_Declaration, "label"); (5, Text, " "); (6, Name, "start");
    (11, Punctuation, ":"); (12, Text, nl); (13, Text, "    ");
    (17, String_Double, dq); (18, String_Double, "Hello");
    (23, String_Double, dq); (24, Text, nl) ].
Proof. vm_compute. reflexivity. Qed.

(** C9: [RenpyLexer] never yields a [Renpy.Label.Reserved] token.  In
    ['root'] the rule of the declaration words, [label] among them, comes
    before the rule of the special labels ([renpy_root_split]); wherever
    the pattern of the special labels matches, the pattern of the
    declaration words matches too ([special_label_shadowed]); so the
    loop, which takes the first rule that matches, never takes the rule
    of the special labels, and no other rule of a state the stack can
    hold names that kind. *)
Theorem label_reserved_unreachable (text : string) (tk : token) :
  In tk (RenpyLexer.get_tokens_unprocessed text) ->
  tok_type tk <> Renpy_Label_Reserved.
Proof.
  intros Hin.
  pose proof (renpy_no_label_reserved text) as H.
  rewrite Forall_forall in H. exact (H tk Hin).
Qed.

Lemma label_reserved_unreachable_witness :
  In (0, Renpy_Declaration, "label")
     (RenpyLexer.get_tokens_unprocessed "label start")
  /\ tok_type (0, Renpy_Declaration, "label") <> Renpy_Label_Reserved.
Proof.
  split; [vm_compute; left; reflexivity|].
  exact (label_reserved_unreachable
           "label start" (0, Renpy_Declaration, "label")
           ltac:(vm_compute; left; reflexivity)).
Defined.

(** C10: a [Block.Start] or [Block.End] token of [RenpyBlockLexer] never
    begins with a letter or an underscore, so its value is none of the
    alphabetic words of the word lists: where such a word stands, the
    first rule has already matched an identifier.  A [Block.Start] token
    is always a match of the [region] comment rule. *)
Theorem block_tokens_not_alphabetic (text : string) (tk : token) :
  In tk (RenpyBlockLexer.get_tokens_unprocessed text) ->
  tok_type tk = Block_Start \/ tok_type tk = Block_End ->
  (exists c, String.get 0 (tok_value tk) = Some c /\ in_set letters_ c = false)
  /\ (forall w, alphabetic w = true -> tok_value tk <> w)
  /\ (tok_type tk = Block_Start ->
      exists e g,
        match_at text RenpyBlockLexer.region_re (tok_index tk) = Some (e, g)
        /\ tok_value tk = slice (tok_index tk) e text).
Proof.
  intros Hin Hk.
  pose proof (block_tokens_ok text) as H.
  rewrite Forall_forall in H. exact (H tk Hin Hk).
Qed.

Lemma block_tokens_not_alphabetic_witness :
  In (0, Block_Start, "# region")
     (RenpyBlockLexer.get_tokens_unprocessed "# region")
  /\ (forall w, alphabetic w = true -> "# region" <> w).
Proof.
  split; [vm_compute; left; reflexivity|].
  exact (proj1 (proj2 (block_tokens_not_alphabetic
                         "# region" (0, Block_Start, "# region")
                         ltac:(vm_compute; left; reflexivity)
                         (or_introl eq_refl)))).
Defined.

(** The alphabetic words of both lists of [RenpyBlockLexer] come out as
    [Name] tokens. *)
Example block_words_are_names :
  RenpyBlockLexer.get_tokens_unprocessed ("if" ++ nl ++ "return" ++ nl) =
  [ (0, Name, "if"); (2, Text, nl); (3, Name, "return"); (9, Text, nl) ].
Proof. vm_compute. reflexivity. Qed.

(* ================================================================== *)
(** ** Tokens that cover the text *)

Lemma slice_full (s : string) : slice 0 (String.length s) s = s.
Proof.
  unfold slice. rewrite Nat.sub_0_r. simpl.
  induction s as [|c s IH]; simpl; [reflexivity | rewrite IH; reflexivity].
Qed.

Lemma take_app_drop (s : string) : forall n m,
  (take n s ++ take m (drop n s))%string = take (n + m) s.
Proof.
  induction s as [|c s IH]; intros n m.
  - destruct n, m; reflexivity.
  - destruct n as [|n]; [reflexivity|].
    simpl. rewrite IH. reflexivity.
Qed.

Lemma drop_drop (s : string) : forall n m, drop m (drop n s) = drop (n + m) s.
Proof.
  induction s as [|c s IH]; intros [|n] m; simpl; auto.
  destruct m; reflexivity.
Qed.

Lemma slice_app (s : string) (p m e : nat) :
  p <= m -> m <= e ->
  (slice p m s ++ slice m e s)%string = slice p e s.
Proof.
  intros H1 H2. unfold slice.
  replace (drop m s) with (drop (m - p) (drop p s))
    by (rewrite drop_drop; f_equal; lia).
  rewrite take_app_drop. f_equal. lia.
Qed.

Lemma slice_lit (text v : string) : forall p,
  lit_at text v p = true -> slice p (p + String.length v) text = v.
Proof.
  unfold slice. induction v as [|c v IH]; intros p H.
  - simpl. rewrite Nat.add_0_r, Nat.sub_diag.
    destruct (drop p text); reflexivity.
  - apply lit_at_cons in H. destruct H as [Hc Hl].
    unfold char_at in Hc. rewrite (drop_cons _ _ _ Hc).
    simpl String.length.
    replace (p + S (String.length v) - p) with (S (String.length v)) by lia.
    cbn [take]. f_equal. specialize (IH (S p) Hl).
    replace (S p + String.length v - S p) with (String.length v) in IH by lia.
    exact IH.
Qed.

Section Tiling.
Variable text : string.

Lemma tiles_app a : forall b p m e,
  tiles text p a m -> tiles text m b e -> tiles text p (a ++ b) e.
Proof.
  induction a as [|tk a IH]; intros b p m e Ha Hb; simpl in *.
  - subst. assumption.
  - destruct Ha as (H1 & H2 & H3). repeat split; auto. eapply IH; eauto.
Qed.

Lemma tiles_le toks : forall p e, tiles text p toks e -> p <= e.
Proof.
  induction toks as [|tk toks IH]; intros p e H; simpl in H.
  - lia.
  - destruct H as (_ & _ & H). apply IH in H. lia.
Qed.

Lemma tiles_joined toks : forall p e,
  tiles text p toks e -> e <= String.length text ->
  joined toks = slice p e text.
Proof.
  induction toks as [|tk toks IH]; intros p e H He; simpl in H.
  - subst. unfold slice. rewrite Nat.sub_diag.
    destruct (drop e text); reflexivity.
  - destruct H as (Hi & Ho & H). pose proof (tiles_le _ _ _ H) as Hle.
    unfold occurs_at in Ho. rewrite Hi in Ho.
    change (joined (tk :: toks))
      with (tok_value tk ++ joined toks)%string.
    rewrite (IH _ _ H He).
    rewrite <- (slice_lit text (tok_value tk) p Ho) at 1.
    apply slice_app; lia.
Qed.

Lemma tiles_follow toks : forall p e,
  tiles text p toks e -> follow p toks = true.
Proof.
  induction toks as [|tk toks IH]; intros p e H; simpl in *; [reflexivity|].
  destruct H as (Hi & _ & H). rewrite Hi, Nat.eqb_refl. simpl. eauto.
Qed.

End Tiling.

Lemma follow_contiguous toks : forall p,
  follow p toks = true -> contiguous toks = true /\ nondecreasing toks = true.
Proof.
  induction toks as [|a toks IH]; intros p H; [split; reflexivity|].
  simpl in H. apply andb_true_iff in H. destruct H as [Ha H].
  apply Nat.eqb_eq in Ha.
  destruct (IH _ H) as [IH1 IH2].
  destruct toks as [|b toks]; [split; reflexivity|].
  simpl in H. apply andb_true_iff in H. destruct H as [Hb _].
  apply Nat.eqb_eq in Hb.
  split.
  - change (contiguous (a :: b :: toks))
      with (Nat.eqb (tok_index b) (tok_index a + String.length (tok_value a))
            && contiguous (b :: toks))%bool.
    rewrite IH1, andb_true_r. apply Nat.eqb_eq. lia.
  - change (nondecreasing (a :: b :: toks))
      with (Nat.leb (tok_index a) (tok_index b)
            && nondecreasing (b :: toks))%bool.
    rewrite IH2, andb_true_r. apply Nat.leb_le. lia.
Qed.

(** *** Groups that cover a match *)

Lemma chain_app sp1 : forall sp2 p m e,
  chain p sp1 m -> chain m sp2 e -> chain p (sp1 ++ sp2) e.
Proof.
  induction sp1 as [|[[s t]|] sp1 IH]; intros sp2 p m e H1 H2; simpl in *.
  - subst. assumption.
  - destruct H1 as (E & L & H1). repeat split; auto. eapply IH; eauto.
  - eapply IH; eauto.
Qed.

Lemma chain_le sp : forall p e, chain p sp e -> p <= e.
Proof.
  induction sp as [|[[s t]|] sp IH]; intros p e H; simpl in H.
  - lia.
  - destruct H as (_ & L & H). apply IH in H. lia.
  - auto.
Qed.

Lemma bind_app sp1 : forall sp2 i g,
  bind i (sp1 ++ sp2) g = bind (i + List.length sp1) sp2 (bind i sp1 g).
Proof.
  induction sp1 as [|[x|] sp1 IH]; intros sp2 i g; simpl.
  - rewrite Nat.add_0_r. reflexivity.
  - rewrite IH. f_equal. lia.
  - rewrite IH. f_equal. lia.
Qed.

Lemma group_bind_lt sp : forall i g j,
  j < i -> group (bind i sp g) j = group g j.
Proof.
  induction sp as [|[x|] sp IH]; intros i g j H; simpl.
  - reflexivity.
  - rewrite IH by lia. simpl.
    destruct (Nat.eqb j i) eqn:E; [apply Nat.eqb_eq in E; lia | reflexivity].
  - apply IH. lia.
Qed.

Lemma group_bind_nth sp : forall i n,
  n < List.length sp -> group (bind i sp []) (i + n) = nth n sp None.
Proof.
  assert (G : forall sp i g n,
             (forall j, i <= j -> group g j = None) ->
             n < List.length sp ->
             group (bind i sp g) (i + n) = nth n sp None).
  { clear sp. induction sp as [|x sp IH]; intros i g n Hg Hn;
      simpl in Hn; [lia|].
    destruct n as [|n].
    - rewrite Nat.add_0_r. destruct x as [x|]; simpl.
      + rewrite group_bind_lt by lia. simpl. rewrite Nat.eqb_refl.
        reflexivity.
      + rewrite group_bind_lt by lia. apply Hg. lia.
    - replace (i + S n) with (S i + n) by lia.
      destruct x as [x|]; cbn [bind nth]; apply IH; try lia.
      + intros j Hj. simpl.
        destruct (Nat.eqb j i) eqn:E; [apply Nat.eqb_eq in E; lia|].
        apply Hg. lia.
      + intros j Hj. apply Hg. lia. }
  intros i n Hn. apply G; [reflexivity | assumption].
Qed.

Section Flat.
Variable text : string.

Lemma flat_matches r : forall i k p g p' g',
  flat_groups r i = Some k ->
  Matches text r p g p' g' -> p <= String.length text ->
  exists sp, i + List.length sp = k /\ chain p sp p' /\ g' = bind i sp g.
Proof.
  induction r as [ | s | items | items | | a IHa b IHb | a IHa b IHb
                 | a IHa | a IHa | j a IHa | | | | | | a IHa | items ];
    intros i k p g p' g' F M Hp; simpl in F; try discriminate.
  - (* Seq *)
    destruct (flat_groups a i) as [m|] eqn:Fa; [|discriminate].
    inversion M; subst.
    match goal with
    | M1 : Matches _ a _ _ _ _, M2 : Matches _ b _ _ _ _ |- _ =>
        pose proof (Matches_bounds _ _ _ _ _ _ M1 Hp) as B;
        destruct (IHa _ _ _ _ _ _ Fa M1 Hp) as (sp1 & L1 & C1 & ->);
        destruct (IHb _ _ _ _ _ _ F M2 ltac:(lia)) as (sp2 & L2 & C2 & ->)
    end.
    exists (sp1 ++ sp2). rewrite length_app. repeat split.
    + lia.
    + eapply chain_app; eauto.
    + rewrite bind_app. rewrite L1. reflexivity.
  - (* Alt (Grp j a) Eps *)
    destruct a as [ | | | | | | | | | j a | | | | | | | ]; try discriminate.
    destruct b; try discriminate.
    destruct (Nat.eqb j i && group_free a)%bool eqn:E; [|discriminate].
    apply andb_true_iff in E. destruct E as [Ej Ef].
    apply Nat.eqb_eq in Ej. subst j. inversion F; subst k; clear F.
    inversion M; subst.
    + match goal with
      | M1 : Matches _ (Grp _ _) _ _ _ _ |- _ => inversion M1; subst
      end.
      match goal with
      | M1 : Matches _ a _ _ _ _ |- _ =>
          pose proof (Matches_bounds _ _ _ _ _ _ M1 Hp) as B;
          pose proof (Matches_group_free _ _ _ _ _ _ M1 Ef); subst
      end.
      exists [Some (p, p')]. simpl. repeat split; lia.
    + match goal with
      | M1 : Matches _ Eps _ _ _ _ |- _ => inversion M1; subst
      end.
      exists [None]. simpl. repeat split; lia.
  - (* Grp *)
    destruct (Nat.eqb j i && group_free a)%bool eqn:E; [|discriminate].
    apply andb_true_iff in E. destruct E as [Ej Ef].
    apply Nat.eqb_eq in Ej. subst j. inversion F; subst k; clear F.
    inversion M; subst.
    match goal with
    | M1 : Matches _ a _ _ _ _ |- _ =>
        pose proof (Matches_bounds _ _ _ _ _ _ M1 Hp) as B;
        pose proof (Matches_group_free _ _ _ _ _ _ M1 Ef); subst
    end.
    exists [Some (p, p')]. simpl. repeat split; lia.
  - (* Bol *)
    inversion F; subst. inversion M; subst.
    exists []. simpl. repeat split; lia.
Qed.

End Flat.

(** *** Tokens that cover the text *)

Lemma clean_app bad a b : clean bad (a ++ b) = (clean bad a && clean bad b)%bool.
Proof. apply forallb_app. Qed.

Lemma clean_shift bad s toks : clean bad (map (shift s) toks) = clean bad toks.
Proof.
  induction toks as [|[[i t] v] toks IH]; [reflexivity|].
  unfold clean in *. cbn [map forallb]. rewrite IH. reflexivity.
Qed.

Lemma lit_at_in_slice (text : string) (s t : nat) (v : string) : forall i,
  lit_at (slice s t text) v i = true -> lit_at text v (s + i) = true.
Proof.
  induction v as [|c v IH]; intros i H; [reflexivity|].
  apply lit_at_cons in H. destruct H as [Hc Hl].
  cbn [lit_at]. unfold char_at in *.
  pose proof (get_some_lt _ _ _ Hc) as Hlt.
  assert (s + i < t).
  { unfold slice in Hlt. rewrite length_take in Hlt. lia. }
  rewrite get_slice in Hc by assumption.
  rewrite Hc, Ascii.eqb_refl. cbn [andb].
  replace (S (s + i)) with (s + S i) by lia. apply IH. assumption.
Qed.

Lemma tiles_shift (text : string) (s t : nat) toks : forall p e,
  tiles (slice s t text) p toks e ->
  tiles text (s + p) (map (shift s) toks) (s + e).
Proof.
  induction toks as [|[[i ty] v] toks IH]; intros p e H; simpl in *.
  - lia.
  - destruct H as (Hi & Ho & H). unfold tok_index, tok_value in *.
    simpl in *. subst i. repeat split.
    + unfold occurs_at, tok_index, tok_value in *. simpl in *.
      apply lit_at_in_slice with (t := t). assumption.
    + rewrite <- Nat.add_assoc. apply IH. assumption.
Qed.

Section RuleTiles.
Variable text : string.
Variable sublexer : string -> list token.
Variable bad : ttype -> bool.
Variable sub : bool.
Hypothesis Hsub :
  sub = true ->
  forall s, clean bad (sublexer s) = true ->
            tiles s 0 (sublexer s) (String.length s).

Lemma bygroups_tiles sp : forall args i p e G,
  List.length args = List.length sp -> chain p sp e ->
  e <= String.length text ->
  (forall n, n < List.length sp -> group G (i + n) = nth n sp None) ->
  forallb (using_allowed sub) args = true ->
  clean bad (bygroups sublexer text args i G) = true ->
  tiles text p (bygroups sublexer text args i G) e.
Proof.
  induction sp as [|x sp IH]; intros args i p e G Hlen Hch He Hg Hargs Hcl;
    destruct args as [|a args]; simpl in Hlen; try discriminate.
  - simpl in *. assumption.
  - cbn [bygroups] in *.
    pose proof (Hg 0 ltac:(simpl; lia)) as G0.
    rewrite Nat.add_0_r in G0. cbn [nth] in G0. rewrite G0 in *.
    simpl in Hargs. apply andb_true_iff in Hargs.
    destruct Hargs as [Ha Hargs].
    rewrite clean_app in Hcl. apply andb_true_iff in Hcl.
    destruct Hcl as [Hcl1 Hcl2].
    assert (Hg' : forall n, n < List.length sp ->
                            group G (S i + n) = nth n sp None).
    { intros n Hn. specialize (Hg (S n) ltac:(simpl; lia)).
      replace (S i + n) with (i + S n) by lia. exact Hg. }
    destruct x as [[s t]|].
    + simpl in Hch. destruct Hch as (-> & Hle & Hch).
      pose proof (chain_le _ _ _ Hch) as Hte.
      assert (Hrest : tiles text t (bygroups sublexer text args (S i) G) e).
      { apply IH; auto. }
      destruct a as [|ty|]; try discriminate.
      * destruct (is_empty (slice p t text)) eqn:Em.
        -- assert (t = p).
           { assert (L : String.length (slice p t text) = 0)
               by (destruct (slice p t text); [reflexivity | discriminate]).
             rewrite length_slice in L by lia. lia. }
           subst t. exact Hrest.
        -- cbn [app tiles]. unfold occurs_at, tok_index, tok_value. simpl.
           repeat split.
           ++ apply lit_at_slice; lia.
           ++ rewrite length_slice by lia.
              replace (p + (t - p)) with t by lia. exact Hrest.
      * simpl in Ha. rewrite clean_shift in Hcl1.
        pose proof (Hsub Ha _ Hcl1) as Ht.
        apply tiles_shift in Ht. rewrite Nat.add_0_r in Ht.
        rewrite length_slice in Ht by lia.
        replace (p + (t - p)) with t in Ht by lia.
        eapply tiles_app; eauto.
    + simpl in Hch.
      assert (Hrest : tiles text p (bygroups sublexer text args (S i) G) e).
      { apply IH; auto. }
      destruct a; simpl; exact Hrest.
Qed.

(** The tokens of a rule that [rule_tiles] accepts cover its match. *)
Lemma rule_tiles_sound r pos e g :
  rule_tiles sub r = true ->
  Matches text (rule_rx r) pos [] e g -> pos <= String.length text ->
  clean bad (emit sublexer text (rule_action r) pos e g) = true ->
  tiles text pos (emit sublexer text (rule_action r) pos e g) e.
Proof.
  intros Ht M Hp Hcl.
  pose proof (Matches_bounds _ _ _ _ _ _ M Hp) as [Hle He].
  unfold rule_tiles in Ht. unfold emit in *.
  destruct (rule_action r) as [|t|args].
  - destruct (rule_rx r); try discriminate. inversion M; subst.
    reflexivity.
  - simpl. unfold occurs_at, tok_index, tok_value. simpl. repeat split.
    + apply lit_at_slice; lia.
    + rewrite length_slice by lia. lia.
  - destruct (flat_groups (rule_rx r) 1) as [k|] eqn:F; [|discriminate].
    apply andb_true_iff in Ht. destruct Ht as [Hk Hargs].
    apply Nat.eqb_eq in Hk.
    destruct (flat_matches text _ _ _ _ _ _ _ F M Hp) as (sp & L & C & ->).
    apply bygroups_tiles with (sp := sp); auto; try lia.
    intros n Hn. apply group_bind_nth. assumption.
Qed.

End RuleTiles.

Section RunTiles.
Variable defs : tokendefs.
Variable sublexer : string -> list token.
Variable text : string.
Variable states : list state.
Variable bad : ttype -> bool.
Variable sub : bool.
Variable except : prule -> bool.
Hypothesis Hok : table_ok defs states = true.
Hypothesis Htiles : table_tiles sub defs states except = true.
Hypothesis Hsub :
  sub = true ->
  forall s, clean bad (sublexer s) = true ->
            tiles s 0 (sublexer s) (String.length s).
Hypothesis Hexcept :
  forall st r pos e g,
    In st states -> pos <= String.length text ->
    first_match text (rules_of defs st) pos = Some (r, (e, g)) ->
    except r = true ->
    clean bad (emit sublexer text (rule_action r) pos e g) = false.

Lemma step_tiles pos stack toks pos' stack' :
  stack_inv text states pos stack ->
  step defs sublexer text pos stack = Next toks pos' stack' ->
  clean bad toks = true ->
  tiles text pos toks pos' /\ pos' <= String.length text.
Proof.
  intros HI H Hcl.
  pose proof (top_listed _ _ _ _ HI) as Htop.
  assert (Hp : pos <= String.length text) by (destruct HI; assumption).
  unfold step in H.
  destruct (first_match text (rules_of defs (top stack)) pos)
    as [[r [e g]]|] eqn:E.
  - inversion H; subst; clear H.
    pose proof (first_match_span _ _ _ _ _ _ Hp E) as [M [_ He]].
    pose proof (first_match_some _ _ _ _ _ E) as [Hin _].
    split; [|assumption].
    unfold table_tiles in Htiles. rewrite forallb_forall in Htiles.
    specialize (Htiles _ Htop). rewrite forallb_forall in Htiles.
    specialize (Htiles _ Hin). apply orb_true_iff in Htiles.
    destruct Htiles as [Ht|Hx].
    + eapply rule_tiles_sound; eauto.
    + rewrite (Hexcept _ _ _ _ _ Htop Hp E Hx) in Hcl. discriminate.
  - destruct (String.get pos text) as [c|] eqn:G; [|discriminate].
    pose proof (get_some_lt _ _ _ G) as Hlt.
    assert (L : lit_at text (String c EmptyString) pos = true).
    { simpl. unfold char_at. rewrite G, Ascii.eqb_refl. reflexivity. }
    destruct (Ascii.eqb c NL) eqn:Ec; inversion H; subst; clear H.
    + apply Ascii.eqb_eq in Ec. subst c.
      split; [|lia]. simpl. unfold occurs_at, tok_index, tok_value. simpl.
      repeat split; [exact L | lia].
    + split; [|lia]. simpl. unfold occurs_at, tok_index, tok_value. simpl.
      repeat split; [exact L | lia].
Qed.

Lemma run_tiles : forall fuel pos stack,
  stack_inv text states pos stack ->
  clean bad (fst (run defs sublexer text fuel pos stack)) = true ->
  exists e,
    tiles text pos (fst (run defs sublexer text fuel pos stack)) e
    /\ e <= String.length text
    /\ (snd (run defs sublexer text fuel pos stack) <> None ->
        e = String.length text).
Proof.
  induction fuel as [|fuel IH]; intros pos stack HI Hcl.
  - exists pos. simpl. destruct HI as (Hp & _). repeat split; auto.
    intros H. congruence.
  - simpl in *.
    destruct (step defs sublexer text pos stack) as [|toks pos' stack'] eqn:E.
    + exists pos. simpl. destruct HI as (Hp & _). repeat split; auto.
      intros _. unfold step in E.
      destruct (first_match text (rules_of defs (top stack)) pos)
        as [[r [e g]]|]; [discriminate|].
      destruct (String.get pos text) as [c|] eqn:G.
      * destruct (Ascii.eqb c NL); discriminate.
      * apply get_none_ge in G. lia.
    + assert (HI' : stack_inv text states pos' stack').
      { eapply (step_inv defs sublexer text states Hok (fun _ => True)); eauto.
        intros. apply Forall_forall. auto. }
      specialize (IH pos' stack' HI').
      destruct (run defs sublexer text fuel pos' stack') as [rest fin].
      simpl in *. rewrite clean_app in Hcl. apply andb_true_iff in Hcl.
      destruct Hcl as [Hc1 Hc2].
      destruct (IH Hc2) as (e & T & He & Hfin).
      destruct (step_tiles _ _ _ _ _ HI E Hc1) as [T1 _].
      exists e. repeat split; auto. eapply tiles_app; eauto.
Qed.

(** The tokens of a lexer all of whose rules yield tokens that cover
    their match, cover the text. *)
Lemma lex_tiles :
  clean bad (get_tokens_unprocessed defs sublexer text) = true ->
  tiles text 0 (get_tokens_unprocessed defs sublexer text)
        (String.length text).
Proof.
  intros Hcl. unfold get_tokens_unprocessed, lex in *.
  destruct (run_tiles _ _ _ (init_inv defs sublexer text states Hok) Hcl)
    as (e & T & _ & Hfin).
  specialize (Hfin (lex_finishes defs sublexer text states Hok)).
  subst e. exact T.
Qed.

End RunTiles.

(** Tokens that cover the text add up to it and follow one another. *)
Lemma tiles_round_trip text toks :
  tiles text 0 toks (String.length text) ->
  joined toks = text /\ follow 0 toks = true.
Proof.
  intros T. split.
  - rewrite (tiles_joined _ _ _ _ T (Nat.le_refl _)). apply slice_full.
  - eapply tiles_follow; eauto.
Qed.

(** *** [RenpyBlockLexer] and [RenpyLexer] *)

Lemma clean_no_kind toks : clean no_kind toks = true.
Proof. induction toks; simpl; auto. Qed.

Lemma block_table_tiles :
  table_tiles false RenpyBlockLexer.tokens [root] never = true.
Proof. vm_compute. reflexivity. Qed.

Lemma block_tiles text :
  tiles text 0 (RenpyBlockLexer.get_tokens_unprocessed text)
        (String.length text).
Proof.
  unfold RenpyBlockLexer.get_tokens_unprocessed.
  apply lex_tiles with (states := [root]) (bad := no_kind) (sub := false)
                       (except := never).
  - apply block_table_ok.
  - apply block_table_tiles.
  - discriminate.
  - discriminate.
  - apply clean_no_kind.
Qed.

Lemma renpy_table_tiles :
  table_tiles false RenpyLexer.tokens renpy_states yields_call = true.
Proof. vm_compute. reflexivity. Qed.

Lemma renpy_root_call_rules :
  filter yields_call renpy_root_rules = [call_rule].
Proof. vm_compute. reflexivity. Qed.

Lemma renpy_other_call_rules :
  forallb (fun st =>
             forallb (fun r => negb (yields_call r))
                     (rules_of RenpyLexer.tokens st))
          (tl renpy_states) = true.
Proof. vm_compute. reflexivity. Qed.

(** The rule for [renpy.] and [im.] calls is the only one that can yield
    a [Renpy.Function.Builtin] token. *)
Lemma renpy_call_rule st r :
  In st renpy_states -> In r (rules_of RenpyLexer.tokens st) ->
  yields_call r = true -> r = call_rule.
Proof.
  intros Hst Hin Hy. destruct Hst as [<-|Hst].
  - assert (Hf : In r (filter yields_call renpy_root_rules)).
    { apply filter_In. split; assumption. }
    rewrite renpy_root_call_rules in Hf. destruct Hf as [<-|[]]. reflexivity.
  - pose proof renpy_other_call_rules as G.
    rewrite forallb_forall in G. specialize (G st Hst).
    rewrite forallb_forall in G. specialize (G r Hin).
    rewrite Hy in G. discriminate.
Qed.

(** What a match of that rule binds: group 1 is the dotted name, group 2
    its first component, and a parenthesis stands after group 1. *)
Lemma call_rule_match text pos e g :
  Matches text (rule_rx call_rule) pos [] e g -> pos <= String.length text ->
  exists q p1 span3,
    g = [(3, span3); (1, (pos, p1)); (2, (pos, q))]
    /\ pos < q /\ q < p1 /\ p1 < String.length text
    /\ char_at text p1 = Some "("%char
    /\ (char_at text pos = Some "r"%char \/ char_at text pos = Some "i"%char).
Proof.
  intros M Hp. unfold call_rule, rule_rx in M. simpl fst in M.
  cbn [seqs] in M.
  inversion M; subst; clear M.
  match goal with
  | M : Matches _ (Grp 1 _) _ _ _ _ |- _ => inversion M; subst; clear M
  end.
  match goal with
  | M : Matches _ (Seq (Grp 2 _) _) _ _ _ _ |- _ =>
      inversion M; subst; clear M
  end.
  match goal with
  | M : Matches _ (Grp 2 _) _ _ _ _ |- _ => inversion M; subst; clear M
  end.
  match goal with
  | M : Matches _ (Alt _ _) pos _ ?q _ |- _ =>
      pose proof (Matches_group_free _ _ _ _ _ _ M eq_refl); subst;
      pose proof (Matches_progress _ _ _ _ _ _ M Hp eq_refl) as Hq;
      pose proof (Matches_bounds _ _ _ _ _ _ M Hp) as [_ Bq];
      assert (Hc : char_at text pos = Some "r"%char
                   \/ char_at text pos = Some "i"%char)
        by (inversion M; subst;
            match goal with
            | M' : Matches _ (Lit _) _ _ _ _ |- _ => inversion M'; subst
            end;
            match goal with
            | L : lit_at _ _ _ = true |- _ =>
                apply lit_at_cons in L; destruct L as [L _]; auto
            end);
      clear M
  end.
  match goal with
  | M : Matches _ (Seq (Lit ".") _) _ _ _ _ |- _ =>
      pose proof (Matches_group_free _ _ _ _ _ _ M eq_refl); subst;
      pose proof (Matches_progress _ _ _ _ _ _ M Bq eq_refl) as Hp1;
      pose proof (Matches_bounds _ _ _ _ _ _ M Bq) as [_ Bp1];
      clear M
  end.
  match goal with
  | M : Matches _ (Seq (Lit "(") _) _ _ _ _ |- _ =>
      inversion M; subst; clear M
  end.
  match goal with
  | M : Matches _ (Lit "(") _ _ _ _ |- _ => inversion M; subst; clear M
  end.
  match goal with
  | L : lit_at _ "(" _ = true |- _ =>
      apply lit_at_cons in L; destruct L as [Llp _]
  end.
  match goal with
  | M : Matches _ (Seq (Grp 3 _) _) _ _ _ _ |- _ =>
      inversion M; subst; clear M
  end.
  match goal with
  | M : Matches _ (Grp 3 _) _ _ _ _ |- _ => inversion M; subst; clear M
  end.
  match goal with
  | M : Matches _ (Plus _) _ _ _ _ |- _ =>
      pose proof (Matches_group_free _ _ _ _ _ _ M eq_refl); subst; clear M
  end.
  match goal with
  | M : Matches _ (Lit ")") _ _ _ _ |- _ => inversion M; subst; clear M
  end.
  pose proof (char_at_lt _ _ _ Llp) as Hlt.
  eexists _, _, _. repeat split; try eassumption; reflexivity.
Qed.

Lemma call_rule_emit text pos e g :
  Matches text (rule_rx call_rule) pos [] e g -> pos <= String.length text ->
  clean is_call (emit (fun _ => []) text (rule_action call_rule) pos e g)
  = false.
Proof.
  intros M Hp.
  destruct (call_rule_match _ _ _ _ M Hp)
    as (q & p1 & span3 & -> & Hq & Hp1 & Hlt & _).
  unfold call_rule, rule_action, emit. simpl snd. simpl fst.
  cbn [bygroups group Nat.eqb].
  destruct (is_empty (slice pos p1 text)) eqn:Em.
  - assert (L : String.length (slice pos p1 text) = 0)
      by (destruct (slice pos p1 text); [reflexivity | discriminate]).
    rewrite length_slice in L by lia. lia.
  - reflexivity.
Qed.

Lemma renpy_call_fired text st r pos e g :
  In st renpy_states -> pos <= String.length text ->
  first_match text (rules_of RenpyLexer.tokens st) pos = Some (r, (e, g)) ->
  yields_call r = true ->
  r = call_rule /\ Matches text (rule_rx call_rule) pos [] e g.
Proof.
  intros Hst Hp H Hy.
  pose proof (first_match_span _ _ _ _ _ _ Hp H) as [M _].
  apply first_match_some in H. destruct H as [Hin _].
  rewrite (renpy_call_rule st r Hst Hin Hy) in *. auto.
Qed.

Lemma renpy_call_except text st r pos e g :
  In st renpy_states -> pos <= String.length text ->
  first_match text (rules_of RenpyLexer.tokens st) pos = Some (r, (e, g)) ->
  yields_call r = true ->
  clean is_call (emit (fun _ => []) text (rule_action r) pos e g) = false.
Proof.
  intros Hst Hp H Hy.
  destruct (renpy_call_fired _ _ _ _ _ _ Hst Hp H Hy) as [-> M].
  apply call_rule_emit; assumption.
Qed.

Lemma no_using_tiles bad :
  false = true ->
  forall s : string,
    clean bad ((fun _ : string => @nil token) s) = true ->
    tiles s 0 ((fun _ : string => @nil token) s) (String.length s).
Proof. discriminate. Qed.

Lemma renpy_tiles text :
  clean is_call (RenpyLexer.get_tokens_unprocessed text) = true ->
  tiles text 0 (RenpyLexer.get_tokens_unprocessed text) (String.length text).
Proof.
  unfold RenpyLexer.get_tokens_unprocessed.
  apply lex_tiles with (states := renpy_states) (sub := false)
                       (except := yields_call).
  - apply renpy_table_ok.
  - apply renpy_table_tiles.
  - apply no_using_tiles.
  - apply renpy_call_except.
Qed.

(** *** [RenpyTracebackLexer] *)

Lemma traceback_table_tiles :
  table_tiles true RenpyTracebackLexer.tokens traceback_states never = true.
Proof. vm_compute. reflexivity. Qed.

Lemma traceback_tiles text :
  clean is_call (RenpyTracebackLexer.get_tokens_unprocessed text) = true ->
  tiles text 0 (RenpyTracebackLexer.get_tokens_unprocessed text)
        (String.length text).
Proof.
  unfold RenpyTracebackLexer.get_tokens_unprocessed, RenpyTracebackLexer.lex.
  apply (lex_tiles RenpyTracebackLexer.tokens
                   RenpyLexer.get_tokens_unprocessed text traceback_states
                   is_call true never).
  - apply traceback_table_ok.
  - apply traceback_table_tiles.
  - intros _ s. apply renpy_tiles.
  - discriminate.
Qed.

(** *** Where the round trip of [RenpyLexer] breaks *)

Lemma joined_app a b : joined (a ++ b) = (joined a ++ joined b)%string.
Proof.
  induction a as [|tk a IH]; simpl; [reflexivity|].
  unfold joined in *. simpl. rewrite IH. rewrite append_assoc. reflexivity.
Qed.

Lemma append_inv_head (a b c : string) :
  (a ++ b)%string = (a ++ c)%string -> b = c.
Proof.
  induction a as [|x a IH]; simpl; intros H; [assumption|].
  inversion H. auto.
Qed.

Lemma drop_split (s : string) (p e : nat) :
  p <= e -> drop p s = (slice p e s ++ drop e s)%string.
Proof.
  intros H. unfold slice.
  replace (drop e s) with (drop (e - p) (drop p s))
    by (rewrite drop_drop; f_equal; lia).
  generalize (drop p s) (e - p). clear.
  intros s n. revert s. induction n as [|n IH]; intros [|c s]; simpl; auto.
  rewrite <- IH. reflexivity.
Qed.

Lemma get_app_right (a b : string) (n : nat) :
  String.get (String.length a + n) (a ++ b) = String.get n b.
Proof.
  induction a as [|x a IH]; simpl; [reflexivity | assumption].
Qed.

Lemma get_app_left (a b : string) (n : nat) :
  n < String.length a -> String.get n (a ++ b) = String.get n a.
Proof.
  revert n. induction a as [|x a IH]; intros n H; simpl in *; [lia|].
  destruct n; [reflexivity | apply IH; lia].
Qed.

(** The tokens of the call rule do not read as the text where they were
    matched: its second token repeats the first letters of the match where
    the text has the opening parenthesis. *)
Lemma call_rule_breaks text pos e g rest :
  Matches text (rule_rx call_rule) pos [] e g -> pos <= String.length text ->
  (joined (emit (fun _ => []) text (rule_action call_rule) pos e g) ++ rest)%string
  <> drop pos text.
Proof.
  intros M Hp E.
  destruct (call_rule_match _ _ _ _ M Hp)
    as (q & p1 & span3 & -> & Hq & Hp1 & Hlt & Hlp & Hc).
  unfold call_rule, rule_action, emit in E. simpl snd in E. simpl fst in E.
  cbn [bygroups group Nat.eqb] in E.
  destruct (is_empty (slice pos p1 text)) eqn:E1.
  { assert (L : String.length (slice pos p1 text) = 0)
      by (destruct (slice pos p1 text); [reflexivity | discriminate]).
    rewrite length_slice in L by lia. lia. }
  destruct (is_empty (slice pos q text)) eqn:E2.
  { assert (L : String.length (slice pos q text) = 0)
      by (destruct (slice pos q text); [reflexivity | discriminate]).
    rewrite length_slice in L by lia. lia. }
  cbn [app joined fold_right tok_value snd] in E.
  assert (G : String.get (p1 - pos) (drop pos text) = Some "("%char).
  { rewrite get_drop. replace (pos + (p1 - pos)) with p1 by lia. exact Hlp. }
  rewrite <- E in G. rewrite !append_assoc in G.
  assert (L1 : String.length (slice pos p1 text) = p1 - pos)
    by (apply length_slice; lia).
  rewrite <- L1 in G.
  replace (String.length (slice pos p1 text))
    with (String.length (slice pos p1 text) + 0) in G by lia.
  rewrite get_app_right in G.
  rewrite get_app_left in G by (rewrite length_slice; lia).
  rewrite get_slice in G by lia. rewrite Nat.add_0_r in G.
  unfold char_at in Hc. destruct Hc as [Hc|Hc]; rewrite Hc in G;
    discriminate G.
Qed.

Lemma renpy_clean_emit text r pos e g :
  yields_call r = false ->
  clean is_call (emit (fun _ => []) text (rule_action r) pos e g) = true.
Proof.
  intros Hy. unfold clean. apply forallb_forall. intros tk Hin.
  pose proof (emit_types (fun _ => []) text (rule_action r) pos e g
                         (fun _ => eq_refl)) as F.
  rewrite Forall_forall in F. specialize (F tk Hin).
  apply negb_true_iff. destruct (is_call (tok_type tk)) eqn:C; [|reflexivity].
  unfold yields_call in Hy.
  assert (existsb is_call (action_types (rule_action r)) = true).
  { apply existsb_exists. eauto. }
  congruence.
Qed.

Lemma renpy_run_breaks text : forall fuel pos stack,
  stack_inv text renpy_states pos stack ->
  clean is_call (fst (run RenpyLexer.tokens (fun _ => []) text fuel pos stack))
  = false ->
  joined (fst (run RenpyLexer.tokens (fun _ => []) text fuel pos stack))
  <> drop pos text.
Proof.
  induction fuel as [|fuel IH]; intros pos stack HI Hcl; [discriminate Hcl|].
  simpl in *.
  destruct (step RenpyLexer.tokens (fun _ => []) text pos stack)
    as [|toks pos' stack'] eqn:E; [discriminate Hcl|].
  assert (HI' : stack_inv text renpy_states pos' stack').
  { eapply (step_inv RenpyLexer.tokens (fun _ => []) text renpy_states
                     renpy_table_ok (fun _ => True)); eauto.
    intros. apply Forall_forall. auto. }
  specialize (IH pos' stack' HI').
  destruct (run RenpyLexer.tokens (fun _ => []) text fuel pos' stack')
    as [rest fin].
  simpl in *. rewrite clean_app in Hcl. rewrite joined_app.
  destruct (clean is_call toks) eqn:C1.
  - simpl in Hcl. specialize (IH Hcl).
    destruct (step_tiles RenpyLexer.tokens (fun _ => []) text renpy_states
                is_call false yields_call renpy_table_tiles
                (no_using_tiles is_call) (renpy_call_except text)
                _ _ _ _ _ HI E C1) as [T Hle].
    pose proof (tiles_le _ _ _ _ T) as Hpp.
    rewrite (tiles_joined _ _ _ _ T Hle).
    rewrite (drop_split text pos pos' Hpp).
    intros H. apply append_inv_head in H. contradiction.
  - clear Hcl IH.
    pose proof (top_listed _ _ _ _ HI) as Htop.
    assert (Hp : pos <= String.length text) by (destruct HI; assumption).
    unfold step in E.
    destruct (first_match text (rules_of RenpyLexer.tokens (top stack)) pos)
      as [[r [e g]]|] eqn:F.
    + inversion E; subst; clear E.
      destruct (yields_call r) eqn:Hy.
      * destruct (renpy_call_fired _ _ _ _ _ _ Htop Hp F Hy) as [-> M].
        apply call_rule_breaks; assumption.
      * rewrite renpy_clean_emit in C1 by assumption. discriminate.
    + destruct (String.get pos text) as [c|]; [|discriminate].
      destruct (Ascii.eqb c NL); inversion E; subst; discriminate C1.
Qed.

Lemma renpy_breaks text :
  clean is_call (RenpyLexer.get_tokens_unprocessed text) = false ->
  joined (RenpyLexer.get_tokens_unprocessed text) <> text.
Proof.
  intros H.
  apply (renpy_run_breaks text _ 0 [root]
           (init_inv RenpyLexer.tokens (fun _ => []) text renpy_states
                     renpy_table_ok)).
  exact H.
Qed.

(* ================================================================== *)
(** ** The stack of the lexers *)

Section Shallow.
Variable defs : tokendefs.
Variable sublexer : string -> list token.
Variable text : string.
Variable above : list state.
Hypothesis Hpush : pushes_from_root defs above = true.

Lemma step_shallow pos stack toks pos' stack' :
  shallow above stack ->
  step defs sublexer text pos stack = Next toks pos' stack' ->
  shallow above stack'.
Proof.
  intros Hs H. unfold pushes_from_root in Hpush.
  apply andb_true_iff in Hpush. destruct Hpush as [Hroot Hab].
  unfold step in H.
  destruct (first_match text (rules_of defs (top stack)) pos)
    as [[r [e g]]|] eqn:E.
  - inversion H; subst; clear H.
    apply first_match_some in E. destruct E as [Hin _].
    destruct Hs as [->|(s & Hs & ->)].
    + simpl in Hin. rewrite forallb_forall in Hroot.
      specialize (Hroot r Hin). unfold transition.
      destruct (rule_new r) as [|n|[|s [|s' l]]]; try discriminate.
      * left. reflexivity.
      * left. simpl. destruct n; reflexivity.
      * right. exists s. split; [apply mem_state_In; assumption | reflexivity].
    + simpl in Hin. rewrite forallb_forall in Hab.
      specialize (Hab s Hs). rewrite forallb_forall in Hab.
      specialize (Hab r Hin). unfold transition.
      destruct (rule_new r) as [|n|l]; try discriminate.
      * right. eauto.
      * destruct n as [|[|n]]; simpl.
        -- right. eauto.
        -- left. reflexivity.
        -- left. reflexivity.
  - destruct (String.get pos text) as [c|]; [|discriminate].
    destruct (Ascii.eqb c NL); inversion H; subst; clear H.
    + left. reflexivity.
    + assumption.
Qed.

End Shallow.

Section ReachableFacts.
Variable defs : tokendefs.
Variable sublexer : string -> list token.
Variable text : string.
Variable states : list state.
Variable above : list state.
Hypothesis Hok : table_ok defs states = true.
Hypothesis Hpush : pushes_from_root defs above = true.

Lemma reachable_inv pos stack :
  reachable defs sublexer text pos stack ->
  stack_inv text states pos stack /\ shallow above stack.
Proof.
  induction 1 as [|pos stack toks pos' stack' _ [IH1 IH2] Hstep].
  - split; [apply (init_inv defs sublexer text states Hok) | left; reflexivity].
  - split.
    + eapply (step_inv defs sublexer text states Hok (fun _ => True)); eauto.
      intros. apply Forall_forall. auto.
    + eapply step_shallow; eauto.
Qed.

End ReachableFacts.

Lemma renpy_pushes :
  pushes_from_root RenpyLexer.tokens (tl renpy_states) = true.
Proof. vm_compute. reflexivity. Qed.

Lemma traceback_pushes :
  pushes_from_root RenpyTracebackLexer.tokens (tl traceback_states) = true.
Proof. vm_compute. reflexivity. Qed.

Lemma finishes_some {A B : Type} (x : A * option B) :
  snd x <> None -> exists a b, x = (a, Some b).
Proof.
  destruct x as [a [b|]]; simpl; intros H; [eauto | congruence].
Qed.

Section RunReaches.
Variable defs : tokendefs.
Variable sublexer : string -> list token.
Variable text : string.
Variable states : list state.
Hypothesis Hok : table_ok defs states = true.

Lemma run_reaches : forall fuel pos stack toks fin,
  reachable defs sublexer text pos stack ->
  stack_inv text states pos stack ->
  run defs sublexer text fuel pos stack = (toks, Some fin) ->
  reachable defs sublexer text (String.length text) fin.
Proof.
  induction fuel as [|fuel IH]; intros pos stack toks fin HR HI H;
    simpl in H; [discriminate|].
  destruct (step defs sublexer text pos stack) as [|tk pos' stack'] eqn:E.
  - inversion H; subst; clear H.
    replace (String.length text) with pos; [assumption|].
    destruct HI as (Hp & _). unfold step in E.
    destruct (first_match text (rules_of defs (top fin)) pos)
      as [[r [e g]]|]; [discriminate|].
    destruct (String.get pos text) as [c|] eqn:G.
    + destruct (Ascii.eqb c NL); discriminate.
    + apply get_none_ge in G. lia.
  - destruct (run defs sublexer text fuel pos' stack') as [rest fin'] eqn:R.
    inversion H; subst; clear H.
    eapply IH; [| |exact R].
    + eapply reach_step; eauto.
    + eapply (step_inv defs sublexer text states Hok (fun _ => True)); eauto.
      intros. apply Forall_forall. auto.
Qed.

Lemma lex_reaches :
  exists toks stack,
    lex defs sublexer text = (toks, Some stack)
    /\ reachable defs sublexer text (String.length text) stack.
Proof.
  destruct (finishes_some _ (lex_finishes defs sublexer text states Hok))
    as (toks & stack & E).
  exists toks, stack. split; [assumption|].
  unfold lex in E.
  eapply run_reaches; [apply reach_start | | exact E].
  apply (init_inv defs sublexer text states Hok).
Qed.

End RunReaches.

(* ================================================================== *)
(** ** Kinds that stand for a list of words *)

Section WordRules.
Variable text : string.

Lemma simple_slice a p g e g' ws :
  simple a = true -> Matches text a p g e g' ->
  forallb (fun w => mem_string w ws) (lang a) = true ->
  In (slice p e text) ws /\ e = p + String.length (slice p e text).
Proof.
  intros Hs M Hall.
  destruct (lang_sound text a _ _ _ _ Hs M) as (w & Hin & Hl & -> & _).
  rewrite (slice_lit text w p Hl).
  rewrite forallb_forall in Hall. split; [|reflexivity].
  apply mem_string_In. auto.
Qed.

Lemma word_lang_sound r : forall p g e g' l ws,
  word_lang r = Some l -> Matches text r p g e g' ->
  forallb (fun w => mem_string w ws) l = true ->
  In (slice p e text) ws.
Proof.
  induction r as [ | s | items | items | | a IHa b IHb | a IHa b IHb
                 | a IHa | a IHa | i a IHa | | | | | | a IHa | items ];
    intros p g e g' l ws W M Hall; simpl in W; try discriminate.
  inversion M; subst; clear M.
  destruct a; try discriminate;
    try (destruct b; try discriminate;
         match type of W with
         | (if simple ?x then _ else _) = _ =>
             destruct (simple x) eqn:Hs; [|discriminate]
         end;
         inversion W; subst; clear W;
         match goal with
         | M2 : Matches _ WordB _ _ _ _ |- _ => inversion M2; subst; clear M2
         end;
         match goal with
         | M1 : Matches _ _ _ _ _ _ |- _ =>
             solve [ apply (simple_slice _ _ _ _ _ ws Hs M1 Hall) ]
         end).
  - (* Eps *)
    match goal with
    | M1 : Matches _ Eps _ _ _ _ |- _ => inversion M1; subst; clear M1
    end.
    eapply IHb; eauto.
  - (* Grp *)
    destruct b; try discriminate.
    destruct (simple a) eqn:Hs; [|discriminate].
    inversion W; subst; clear W.
    match goal with
    | M2 : Matches _ WordB _ _ _ _ |- _ => inversion M2; subst; clear M2
    end.
    match goal with
    | M1 : Matches _ (Grp _ _) _ _ _ _ |- _ => inversion M1; subst; clear M1
    end.
    match goal with
    | M1 : Matches _ _ _ _ _ _ |- _ =>
        apply (simple_slice _ _ _ _ _ ws Hs M1 Hall)
    end.
  - (* NotBehind *)
    match goal with
    | M1 : Matches _ (NotBehind _) _ _ _ _ |- _ =>
        inversion M1; subst; clear M1
    end.
    eapply IHb; eauto.
Qed.

Lemma emit_unclassified a pos e g :
  existsb classified (action_types a) = false ->
  Forall token_is_word (emit (fun _ => []) text a pos e g).
Proof.
  intros Hk.
  eapply Forall_impl; [|apply emit_types; reflexivity].
  intros tk Hin ws K.
  assert (existsb classified (action_types a) = true).
  { apply existsb_exists. exists (tok_type tk). split; [assumption|].
    unfold classified. rewrite K. reflexivity. }
  congruence.
Qed.

Lemma rule_words_sound r pos e g :
  rule_words_ok r = true ->
  Matches text (rule_rx r) pos [] e g -> pos <= String.length text ->
  Forall token_is_word (emit (fun _ => []) text (rule_action r) pos e g).
Proof.
  intros Hok M Hp. unfold rule_words_ok in Hok.
  destruct (rule_action r) as [|t|args] eqn:Ea.
  - constructor.
  - simpl. constructor; [|constructor]. intros ws K.
    unfold tok_type, tok_value in *. simpl in *. rewrite K in Hok.
    destruct (word_lang (rule_rx r)) as [l|] eqn:W; [|discriminate].
    eapply word_lang_sound; eauto.
  - assert (Hdef : negb (existsb classified (action_types (AByGroups args)))
                   = true ->
                   Forall token_is_word
                          (emit (fun _ => []) text (AByGroups args) pos e g)).
    { intros H. apply emit_unclassified. apply negb_true_iff. exact H. }
    destruct (rule_rx r) as [ | | | | | a b | | | | | | | | | | | ]; auto.
    destruct a as [ | | | | | | | | | i a | | | | | | | ]; auto.
    destruct i as [|[|i]]; auto.
    destruct a as [ |kw| | | | | | | | | | | | | | | ]; auto.
    destruct b as [ | | | | | | | | | j b | | | | | | | ]; auto.
    destruct j as [|[|[|j]]]; auto.
    destruct args as [|[|t|] [|[|t2|] [|x args]]]; auto.
    clear Hdef.
    apply andb_true_iff in Hok. destruct Hok as [Hok Hkw].
    apply andb_true_iff in Hok. destruct Hok as [Hgf Hc2].
    apply negb_true_iff in Hc2.
    inversion M; subst; clear M.
    repeat match goal with
           | M1 : Matches _ (Grp _ _) _ _ _ _ |- _ =>
               inversion M1; subst; clear M1
           end.
    match goal with
    | M1 : Matches _ (Lit _) _ _ _ _ |- _ => inversion M1; subst; clear M1
    end.
    match goal with
    | M1 : Matches _ b _ _ _ _ |- _ =>
        pose proof (Matches_group_free _ _ _ _ _ _ M1 Hgf); subst
    end.
    simpl emit. cbn [bygroups group Nat.eqb app].
    apply Forall_app. split; [|apply Forall_app; split; [|constructor]].
    + destruct (is_empty (slice pos (pos + String.length kw) text));
        constructor; [|constructor].
      intros ws K. unfold tok_type, tok_value in *. simpl in *.
      rewrite K in Hkw.
      match goal with
      | L : lit_at _ _ _ = true |- _ => rewrite (slice_lit _ _ _ L)
      end.
      apply mem_string_In. assumption.
    + destruct (is_empty (slice (pos + String.length kw) e text));
        constructor; [|constructor].
      intros ws K. unfold tok_type in K. simpl in K.
      unfold classified in Hc2. rewrite K in Hc2. discriminate.
Qed.

End WordRules.

Lemma renpy_rules_words :
  forallb (fun st => forallb rule_words_ok (rules_of RenpyLexer.tokens st))
          renpy_states = true.
Proof. vm_compute. reflexivity. Qed.

Lemma renpy_tokens_are_words text :
  Forall token_is_word (RenpyLexer.get_tokens_unprocessed text).
Proof.
  unfold RenpyLexer.get_tokens_unprocessed.
  apply tokens_have with (states := renpy_states).
  - apply renpy_table_ok.
  - intros st r pos e g Hst Hp H.
    pose proof (first_match_span _ _ _ _ _ _ Hp H) as [M _].
    apply first_match_some in H. destruct H as [Hin _].
    pose proof renpy_rules_words as G.
    rewrite forallb_forall in G. specialize (G st Hst).
    rewrite forallb_forall in G. specialize (G r Hin).
    apply rule_words_sound; assumption.
  - intros pos c _. split; intros ws K; discriminate K.
Qed.

(* ================================================================== *)
(** ** [Error] tokens *)

Lemma in_all_ascii c : In c all_ascii.
Proof.
  unfold all_ascii. rewrite <- (ascii_nat_embedding c).
  apply in_map. apply in_seq. pose proof (nat_ascii_bounded c). lia.
Qed.

Section Unmatched.
Variable defs : tokendefs.
Variable sublexer : string -> list token.
Variable text : string.
Variable states : list state.
Hypothesis Hok : table_ok defs states = true.

(** As [tokens_have], with the state and the failure of its rules at
    hand for the two fallback tokens. *)
Lemma tokens_have_at (P : token -> Prop) :
  (forall st r pos e g,
      In st states -> pos <= String.length text ->
      first_match text (rules_of defs st) pos = Some (r, (e, g)) ->
      Forall P (emit sublexer text (rule_action r) pos e g)) ->
  (forall st pos c,
      In st states ->
      first_match text (rules_of defs st) pos = None ->
      String.get pos text = Some c ->
      P (pos, (if Ascii.eqb c NL then Text else Error), String c EmptyString)) ->
  Forall P (get_tokens_unprocessed defs sublexer text).
Proof.
  intros Hrule Hfall. unfold get_tokens_unprocessed, lex.
  apply run_tokens with (Inv := stack_inv text states);
    [|apply (init_inv defs sublexer text states Hok)].
  intros pos stack toks pos' stack' HI H. split.
  - pose proof (top_listed _ _ _ _ HI) as Htop.
    assert (Hp : pos <= String.length text) by (destruct HI; assumption).
    unfold step in H.
    destruct (first_match text (rules_of defs (top stack)) pos)
      as [[r [e g]]|] eqn:E.
    + inversion H; subst; clear H. eapply Hrule; eauto.
    + destruct (String.get pos text) as [c|] eqn:G; [|discriminate].
      specialize (Hfall _ _ _ Htop E G).
      destruct (Ascii.eqb c NL) eqn:Ec; inversion H; subst; clear H.
      * apply Ascii.eqb_eq in Ec. subst c.
        constructor; [exact Hfall | constructor].
      * constructor; [exact Hfall | constructor].
  - eapply (step_inv defs sublexer text states Hok (fun _ => True)); eauto.
    intros. apply Forall_forall. auto.
Qed.

Lemma starts_with_char_complete c r pos :
  starts_with_char c (rule_rx r) = true -> String.get pos text = Some c ->
  match_at text (rule_rx r) pos <> None.
Proof.
  intros Hs Hc. unfold starts_with_char in Hs.
  destruct (rule_rx r) as [ | | | | | a b | | | | | | | | | | | ];
    try discriminate.
  destruct a as [ | |s|s| | | | | | | | | | | | | ]; try discriminate;
    destruct b as [ | | | | | | |b| | | | | | | | | ]; try discriminate.
  - unfold match_at.
    change (match char_at text pos with
            | Some c =>
                if in_set s c
                then rmatch text (Star b) (S pos) [] (fun e g => Some (e, g))
                else None
            | None => None
            end <> None).
    unfold char_at. rewrite Hc, Hs. apply star_total. discriminate.
  - unfold match_at.
    change (match char_at text pos with
            | Some c =>
                if in_set s c
                then None
                else rmatch text (Star b) (S pos) [] (fun e g => Some (e, g))
            | None => None
            end <> None).
    unfold char_at. rewrite Hc. apply negb_true_iff in Hs. rewrite Hs.
    apply star_total. discriminate.
Qed.

Lemma errors_ok (sub_clean : forall s, sublexer s = [])
      (p : ascii -> bool) :
  no_error_rule defs states = true ->
  always_matched defs states p = true ->
  Forall (error_token_ok text p) (get_tokens_unprocessed defs sublexer text).
Proof.
  intros Hne Ham. apply tokens_have_at.
  - intros st r pos e g Hst Hp H.
    apply first_match_some in H. destruct H as [Hin _].
    unfold no_error_rule in Hne. rewrite forallb_forall in Hne.
    specialize (Hne st Hst). rewrite forallb_forall in Hne.
    specialize (Hne r Hin). apply negb_true_iff in Hne.
    eapply Forall_impl; [|apply emit_types; assumption].
    intros tk Hin' E. exfalso. unfold mentions in Hne.
    assert (existsb (ttype_eqb Error) (action_types (rule_action r)) = true).
    { apply existsb_exists. exists (tok_type tk). split; [assumption|].
      rewrite E. reflexivity. }
    congruence.
  - intros st pos c Hst Hnone Hc.
    destruct (Ascii.eqb c NL) eqn:Ec; [intros K; discriminate K|].
    intros _. exists c. unfold tok_value, tok_index. simpl.
    repeat split; try assumption.
    destruct (p c) eqn:Hpc; [|reflexivity]. exfalso.
    unfold always_matched in Ham. rewrite forallb_forall in Ham.
    specialize (Ham st Hst). rewrite forallb_forall in Ham.
    specialize (Ham c (in_all_ascii c)). rewrite Hpc in Ham. simpl in Ham.
    apply existsb_exists in Ham. destruct Ham as (r & Hin & Hs).
    apply (starts_with_char_complete c r pos Hs Hc).
    eapply first_match_none; eauto.
Qed.

End Unmatched.

Lemma renpy_no_error_rule : no_error_rule RenpyLexer.tokens renpy_states = true.
Proof. vm_compute. reflexivity. Qed.

Lemma renpy_letters_matched :
  always_matched RenpyLexer.tokens renpy_states (in_set letters_) = true.
Proof. vm_compute. reflexivity. Qed.

Lemma renpy_errors_ok text :
  Forall (error_token_ok text (in_set letters_))
         (RenpyLexer.get_tokens_unprocessed text).
Proof.
  unfold RenpyLexer.get_tokens_unprocessed.
  apply errors_ok with (states := renpy_states).
  - apply renpy_table_ok.
  - reflexivity.
  - apply renpy_no_error_rule.
  - apply renpy_letters_matched.
Qed.

(* ================================================================== *)
(** ** The state ['properties'] of [RenpyLexer] *)

Section SameRules.
Variable defs defs' : tokendefs.
Variable sublexer : string -> list token.
Variable text : string.
Variable states : list state.
Hypothesis Hok : table_ok defs states = true.
Hypothesis Hsame :
  forall st, In st states -> rules_of defs' st = rules_of defs st.

Lemma run_same_rules : forall fuel pos stack,
  stack_inv text states pos stack ->
  run defs' sublexer text fuel pos stack = run defs sublexer text fuel pos stack.
Proof.
  induction fuel as [|fuel IH]; intros pos stack HI; [reflexivity|].
  pose proof (top_listed _ _ _ _ HI) as Htop.
  assert (E : step defs' sublexer text pos stack
              = step defs sublexer text pos stack).
  { unfold step. rewrite (Hsame _ Htop). reflexivity. }
  simpl. rewrite E.
  destruct (step defs sublexer text pos stack) as [|toks pos' stack'] eqn:S;
    [reflexivity|].
  rewrite IH; [reflexivity|].
  eapply (step_inv defs sublexer text states Hok (fun _ => True)); eauto.
  intros. apply Forall_forall. auto.
Qed.

Lemma lex_same_rules : lex defs' sublexer text = lex defs sublexer text.
Proof.
  unfold lex. apply run_same_rules.
  apply (init_inv defs sublexer text states Hok).
Qed.

End SameRules.

Section WithState.
Variable table : tokendefs.
Variable name : string.
Variable rules : list tdef.
Variable k : nat.
Hypothesis Hno : never_included name table = true.

Lemma lookup_app (a b : tokendefs) n :
  lookup (a ++ b) n =
  match lookup a n with Some l => Some l | None => lookup b n end.
Proof.
  induction a as [|[m l] a IH]; simpl; [reflexivity|].
  destruct (String.eqb m n); [reflexivity | assumption].
Qed.

Lemma lookup_with_state n :
  n <> name -> lookup (with_state k name rules table) n = lookup table n.
Proof.
  intros Hn. unfold with_state. rewrite lookup_app. simpl.
  destruct (String.eqb name n) eqn:E;
    [apply String.eqb_eq in E; congruence|].
  rewrite <- lookup_app. rewrite firstn_skipn. reflexivity.
Qed.

Lemma lookup_listed (defs : tokendefs) n l :
  lookup defs n = Some l -> In (n, l) defs.
Proof.
  induction defs as [|[m l'] defs IH]; simpl; [discriminate|].
  destruct (String.eqb m n) eqn:E.
  - apply String.eqb_eq in E. intros H. inversion H; subst. auto.
  - auto.
Qed.

Lemma process_state_with_state : forall fuel n,
  n <> name ->
  process_state fuel (with_state k name rules table) n
  = process_state fuel table n.
Proof.
  induction fuel as [|fuel IH]; intros n Hn; [reflexivity|].
  simpl. rewrite lookup_with_state by assumption.
  destruct (lookup table n) as [l|] eqn:E; [|reflexivity].
  apply lookup_listed in E.
  unfold never_included in Hno. rewrite forallb_forall in Hno.
  specialize (Hno _ E). simpl in Hno. clear E.
  induction l as [|d l IHl]; [reflexivity|].
  simpl in Hno. apply andb_true_iff in Hno. destruct Hno as [Hd Hl].
  simpl. rewrite (IHl Hl). f_equal.
  destruct d as [rx a ns|m]; [reflexivity|].
  apply IH. intros ->. rewrite String.eqb_refl in Hd. discriminate.
Qed.

Lemma length_with_state :
  List.length (with_state k name rules table) = S (List.length table).
Proof.
  unfold with_state. rewrite length_app. simpl.
  replace (List.length table)
    with (List.length (firstn k table ++ skipn k table))
    by (rewrite firstn_skipn; reflexivity).
  rewrite length_app. lia.
Qed.

End WithState.

Lemma renpy_never_properties :
  never_included "properties" RenpyLexer.tokens = true.
Proof. vm_compute. reflexivity. Qed.

(** One more unit of fuel does not change the rules of a state. *)
Lemma renpy_rules_fuel st :
  In st renpy_states ->
  match st with
  | Named n =>
      process_state (S (List.length RenpyLexer.tokens)) RenpyLexer.tokens n
  | Combined l =>
      flat_map (process_state (S (List.length RenpyLexer.tokens))
                              RenpyLexer.tokens) l
  end = rules_of RenpyLexer.tokens st.
Proof.
  intros H.
  repeat (destruct H as [<-|H]; [vm_compute; reflexivity|]).
  destruct H.
Qed.

Lemma properties_never_read rules st :
  In st renpy_states ->
  rules_of (tokens_with_properties rules) st = rules_of RenpyLexer.tokens st.
Proof.
  intros H. rewrite <- (renpy_rules_fuel st H).
  unfold rules_of, tokens_with_properties.
  rewrite length_with_state.
  destruct st as [n|l].
  - apply process_state_with_state; [apply renpy_never_properties|].
    repeat (destruct H as [H|H]; [inversion H; discriminate|]).
    destruct H.
  - assert (Hl : Forall (fun n => n <> "properties") l).
    { repeat (destruct H as [H|H];
              [inversion H; subst; repeat constructor; discriminate|]).
      destruct H. }
    clear H. induction Hl as [|n l Hn Hl IH]; cbn [flat_map]; [reflexivity|].
    rewrite IH.
    rewrite (process_state_with_state RenpyLexer.tokens "properties" rules 4
               renpy_never_properties _ n Hn).
    reflexivity.
Qed.

(* ================================================================== *)
(** ** The lines of a transcript *)

Lemma is_line_cons c s :
  is_line (String c s) = true ->
  (s = EmptyString /\ c = NL)
  \/ (Ascii.eqb c NL = false /\ is_line s = true).
Proof.
  simpl. destruct s as [|d s].
  - intros H. apply Ascii.eqb_eq in H. auto.
  - intros H. apply andb_true_iff in H. destruct H as [H1 H2].
    apply negb_true_iff in H1. auto.
Qed.

Lemma is_line_length s : is_line s = true -> 0 < String.length s.
Proof. destruct s; simpl; [discriminate | lia]. Qed.

Section LineMatch.
Variable text : string.

(** One iteration of [.*?] and of [.*]. *)
Lemma lazy_any_unfold (R : Type) p g (k : nat -> groups -> option R) :
  rmatch text (LazyStar Any) p g k =
  match k p g with
  | Some x => Some x
  | None =>
      match String.get p text with
      | Some c =>
          if Ascii.eqb c NL then None
          else rmatch text (LazyStar Any) (S p) g k
      | None => None
      end
  end.
Proof.
  cbn [rmatch]. unfold char_at.
  destruct (String.length text - p) as [|n] eqn:E.
  - destruct (k p g); [reflexivity|].
    destruct (String.get p text) as [c|] eqn:G; [|reflexivity].
    apply get_some_lt in G. lia.
  - destruct (k p g); [reflexivity|].
    destruct (String.get p text) as [c|]; [|reflexivity].
    destruct (Ascii.eqb c NL); [reflexivity|].
    rewrite (proj2 (Nat.ltb_lt p (S p)) ltac:(lia)).
    replace (String.length text - S p) with n by lia. reflexivity.
Qed.

Lemma star_any_unfold (R : Type) p g (k : nat -> groups -> option R) :
  rmatch text (Star Any) p g k =
  match String.get p text with
  | Some c =>
      if Ascii.eqb c NL then k p g
      else match rmatch text (Star Any) (S p) g k with
           | Some x => Some x
           | None => k p g
           end
  | None => k p g
  end.
Proof.
  cbn [rmatch]. unfold char_at.
  destruct (String.length text - p) as [|n] eqn:E.
  - destruct (String.get p text) as [c|] eqn:G; [|reflexivity].
    apply get_some_lt in G. lia.
  - destruct (String.get p text) as [c|]; [|reflexivity].
    destruct (Ascii.eqb c NL); [reflexivity|].
    rewrite (proj2 (Nat.ltb_lt p (S p)) ltac:(lia)).
    replace (String.length text - S p) with n by lia. reflexivity.
Qed.

Lemma lit_nl_at p :
  lit_at text nl p =
  match String.get p text with Some c => Ascii.eqb c NL | None => false end.
Proof.
  unfold nl. cbn [lit_at]. unfold char_at.
  destruct (String.get p text) as [c|]; [|reflexivity].
  rewrite andb_true_r. apply Ascii.eqb_sym.
Qed.

Lemma rmatch_seq (R : Type) a b p g (k : nat -> groups -> option R) :
  rmatch text (Seq a b) p g k =
  rmatch text a p g (fun p1 g1 => rmatch text b p1 g1 k).
Proof. reflexivity. Qed.

Lemma rmatch_nl (R : Type) p g (k : nat -> groups -> option R) :
  rmatch text (Chr NL) p g k =
  match String.get p text with
  | Some c => if Ascii.eqb c NL then k (S p) g else None
  | None => None
  end.
Proof.
  unfold Chr. cbn [rmatch]. change (String NL EmptyString) with nl.
  rewrite lit_nl_at. simpl String.length. rewrite Nat.add_1_r.
  destruct (String.get p text) as [c|]; reflexivity.
Qed.

(** [line_re] matches from [p] up to the first newline, that newline
    included. *)
Lemma line_re_match : forall n p,
  (forall i, i < n -> exists c, String.get (p + i) text = Some c
                                /\ Ascii.eqb c NL = false) ->
  String.get (p + n) text = Some NL ->
  match_at text line_re p = Some (S (p + n), []).
Proof.
  unfold match_at, line_re. intros n p. rewrite rmatch_seq. revert p.
  induction n as [|n IH]; intros p Hc Hn.
  - rewrite Nat.add_0_r in *.
    rewrite lazy_any_unfold, rmatch_nl, Hn, Ascii.eqb_refl. reflexivity.
  - rewrite lazy_any_unfold, rmatch_nl.
    destruct (Hc 0 ltac:(lia)) as (c & G & E). rewrite Nat.add_0_r in G.
    rewrite G, E.
    replace (p + S n) with (S p + n) in * by lia.
    apply IH; [|assumption].
    intros i Hi. specialize (Hc (S i) ltac:(lia)).
    replace (S p + i) with (p + S i) by lia. exact Hc.
Qed.

(** [line_re] does not match where no newline follows. *)
Lemma line_re_none : forall n p,
  String.length text - p <= n ->
  (forall i c, p <= i -> String.get i text = Some c ->
               Ascii.eqb c NL = false) ->
  match_at text line_re p = None.
Proof.
  unfold match_at, line_re. intros n p. rewrite rmatch_seq. revert p.
  induction n as [|n IH]; intros p Hn Hc.
  - rewrite lazy_any_unfold, rmatch_nl.
    destruct (String.get p text) as [c|] eqn:G; [|reflexivity].
    apply get_some_lt in G. lia.
  - rewrite lazy_any_unfold, rmatch_nl.
    destruct (String.get p text) as [c|] eqn:G; [|reflexivity].
    rewrite (Hc p c (Nat.le_refl _) G).
    apply IH; [lia|]. intros i d Hi. apply Hc. lia.
Qed.

End LineMatch.

Lemma is_line_chars l :
  is_line l = true ->
  (forall i, i < String.length l - 1 ->
             exists c, String.get i l = Some c /\ Ascii.eqb c NL = false)
  /\ String.get (String.length l - 1) l = Some NL.
Proof.
  induction l as [|c l IH]; [discriminate|].
  intros H. apply is_line_cons in H.
  destruct H as [[-> ->]|[Hc Hl]].
  - simpl. split; [intros i Hi; lia | reflexivity].
  - destruct (IH Hl) as [IH1 IH2]. pose proof (is_line_length _ Hl) as L.
    simpl String.length. split.
    + intros [|i] Hi; simpl; [eauto|]. apply IH1. lia.
    + replace (S (String.length l) - 1) with (S (String.length l - 1)) by lia.
      simpl. exact IH2.
Qed.

Lemma no_newline_chars s :
  no_newline s = true ->
  forall i c, String.get i s = Some c -> Ascii.eqb c NL = false.
Proof.
  induction s as [|d s IH]; intros H i c G; [destruct i; discriminate|].
  simpl in H. apply andb_true_iff in H. destruct H as [H1 H2].
  apply negb_true_iff in H1. destruct i as [|i]; simpl in G.
  - inversion G; subst. assumption.
  - eapply IH; eauto.
Qed.

Lemma lit_at_mid (pre l rest : string) :
  lit_at (pre ++ l ++ rest) l (String.length pre) = true.
Proof.
  replace l with (slice (String.length pre)
                        (String.length pre + String.length l)
                        (pre ++ l ++ rest)) at 2.
  - apply lit_at_slice; [lia|]. rewrite !length_append. lia.
  - unfold slice.
    replace (drop (String.length pre) (pre ++ l ++ rest)) with (l ++ rest)%string.
    + replace (String.length pre + String.length l - String.length pre)
        with (String.length l) by lia.
      clear. induction l as [|c l IH]; simpl.
      * destruct rest; reflexivity.
      * rewrite IH. reflexivity.
    + clear. induction pre as [|c pre IH]; simpl; auto.
Qed.

Lemma finditer_none (text : string) : forall fuel p,
  (forall i c, p <= i -> String.get i text = Some c ->
               Ascii.eqb c NL = false) ->
  finditer_from fuel line_re text p = [].
Proof.
  induction fuel as [|fuel IH]; intros p Hc; [reflexivity|].
  cbn [finditer_from].
  destruct (Nat.ltb (String.length text) p); [reflexivity|].
  rewrite (line_re_none text (String.length text - p) p (Nat.le_refl _) Hc).
  apply IH. intros i c Hi. apply Hc. lia.
Qed.

(** The matches of [line_re] in a text made of lines and of a rest
    without a newline are the lines. *)
Lemma finditer_lines (tail : string) : forall ls pre fuel,
  Forall (fun l => is_line l = true) ls -> no_newline tail = true ->
  String.length (pre ++ concat_lines ls ++ tail) + 1
  <= fuel + String.length pre ->
  map (fun m => (fst m,
                 slice (fst m) (snd m) (pre ++ concat_lines ls ++ tail)))
      (finditer_from fuel line_re (pre ++ concat_lines ls ++ tail)
                     (String.length pre))
  = with_offsets (String.length pre) ls.
Proof.
  induction ls as [|l ls IH]; intros pre fuel Hls Htail Hfuel.
  - simpl concat_lines. rewrite finditer_none; [reflexivity|].
    intros i c Hi G. simpl in G.
    replace i with (String.length pre + (i - String.length pre)) in G by lia.
    rewrite get_app_right in G. eapply no_newline_chars; eauto.
  - inversion Hls as [|? ? Hl Hls']; subst.
    pose proof (is_line_length _ Hl) as Ll.
    destruct (is_line_chars _ Hl) as [C1 C2].
    simpl concat_lines in *.
    remember (pre ++ (l ++ concat_lines ls) ++ tail)%string as text eqn:Et.
    assert (Et' : text = ((pre ++ l) ++ concat_lines ls ++ tail)%string).
    { subst text. rewrite !append_assoc. reflexivity. }
    assert (Et'' : text = (pre ++ l ++ (concat_lines ls ++ tail))%string).
    { subst text. rewrite !append_assoc. reflexivity. }
    assert (Hlen : String.length pre + String.length l <= String.length text).
    { rewrite Et'. rewrite !length_append. lia. }
    destruct fuel as [|fuel]; [lia|].
    cbn [finditer_from].
    rewrite (proj2 (Nat.ltb_ge _ _)) by lia.
    assert (G : forall i, i < String.length l ->
                          String.get (String.length pre + i) text
                          = String.get i l).
    { intros i Hi. rewrite Et''. rewrite get_app_right.
      apply get_app_left. assumption. }
    rewrite (line_re_match text (String.length l - 1) (String.length pre)).
    + replace (S (String.length pre + (String.length l - 1)))
        with (String.length pre + String.length l) by lia.
      rewrite (proj2 (Nat.eqb_neq _ _)) by lia.
      cbn [map fst snd with_offsets]. f_equal.
      * f_equal. rewrite Et''. apply slice_lit. apply lit_at_mid.
      * rewrite <- length_append. rewrite Et'.
        apply IH; try assumption.
        rewrite <- Et'. rewrite length_append. lia.
    + intros i Hi. rewrite G by lia. apply C1. assumption.
    + rewrite G by lia. exact C2.
Qed.

Lemma lines_of_lines ls tail :
  Forall (fun l => is_line l = true) ls -> no_newline tail = true ->
  RenpyConsoleLexer.lines_of (concat_lines ls ++ tail) = with_offsets 0 ls.
Proof.
  intros Hls Htail. unfold RenpyConsoleLexer.lines_of, finditer.
  apply (finditer_lines tail ls EmptyString); try assumption.
  simpl. lia.
Qed.

Lemma append_empty_r (s : string) : (s ++ "")%string = s.
Proof. induction s as [|c s IH]; simpl; [reflexivity | rewrite IH; reflexivity]. Qed.

Section ConsoleOutput.
Import RenpyConsoleLexer.

Lemma output_line_facts line :
  output_line line = true ->
  is_line line = true /\ is_prompt line = false /\ is_header line = false
  /\ String.eqb line ("KeyboardInterrupt" ++ nl) = false
  /\ String.eqb (rstrip line) "..." = false.
Proof.
  unfold output_line, plain_line. intros H.
  apply andb_true_iff in H. destruct H as [H H5].
  apply andb_true_iff in H. destruct H as [H1 H].
  apply andb_true_iff in H. destruct H as [H H4].
  apply andb_true_iff in H. destruct H as [H2 H3].
  apply negb_true_iff in H2, H3, H4, H5. auto.
Qed.

(** A line of plain output met while no code is pending and no traceback
    block is open. *)
Lemma do_line_output v start line :
  is_empty (curcode v) = true -> tb v = false -> output_line line = true ->
  do_line v start line = ([(start, Generic_Output, line)], v).
Proof.
  intros Hcode Htb Hout.
  destruct (output_line_facts _ Hout) as (_ & Hp & Hh & Hk & He).
  unfold do_line. rewrite Hp, He, Hcode, Hh, Hk, Htb. reflexivity.
Qed.

Lemma do_lines_output : forall lines v,
  is_empty (curcode v) = true -> tb v = false ->
  Forall (fun x => output_line (snd x) = true) lines ->
  do_lines v lines
  = (map (fun x => (fst x, Generic_Output, snd x)) lines, v).
Proof.
  induction lines as [|[start line] lines IH]; intros v Hcode Htb Hall;
    [reflexivity|].
  inversion Hall as [|? ? Hl Hrest]; subst. simpl in Hl.
  cbn [do_lines]. rewrite do_line_output by assumption.
  rewrite IH by assumption. reflexivity.
Qed.

Lemma with_offsets_snd p ls (P : string -> Prop) :
  Forall P ls -> Forall (fun x => P (snd x)) (with_offsets p ls).
Proof.
  intros H. revert p. induction H as [|l ls Hl _ IH]; intros p; simpl;
    constructor; auto.
Qed.

Lemma console_output_tokens ls tail :
  Forall (fun l => output_line l = true) ls -> no_newline tail = true ->
  get_tokens_unprocessed (concat_lines ls ++ tail)
  = map (fun x => (fst x, Generic_Output, snd x)) (with_offsets 0 ls).
Proof.
  intros Hls Htail. unfold get_tokens_unprocessed.
  rewrite lines_of_lines; [|
    eapply Forall_impl; [|exact Hls];
    intros l Hl; apply output_line_facts in Hl; tauto | assumption].
  rewrite do_lines_output;
    [|reflexivity|reflexivity|
      apply (with_offsets_snd 0 ls (fun l => output_line l = true) Hls)].
  unfold finish, init. simpl. apply app_nil_r.
Qed.

Lemma console_tail_dropped ls tail :
  Forall (fun l => is_line l = true) ls -> no_newline tail = true ->
  lines_of (concat_lines ls ++ tail) = lines_of (concat_lines ls)
  /\ get_tokens_unprocessed (concat_lines ls ++ tail)
     = get_tokens_unprocessed (concat_lines ls).
Proof.
  intros Hls Htail.
  assert (E : lines_of (concat_lines ls ++ tail) = lines_of (concat_lines ls)).
  { rewrite lines_of_lines by assumption.
    rewrite <- (append_empty_r (concat_lines ls)).
    rewrite lines_of_lines by (assumption || reflexivity). reflexivity. }
  split; [exact E|]. unfold get_tokens_unprocessed. rewrite E. reflexivity.
Qed.

End ConsoleOutput.

(* ================================================================== *)
(** ** [NullLexer] *)

Section Lines.
Variable text : string.

Lemma star_any_chars p g p' g' :
  Matches text (Star Any) p g p' g' ->
  forall i, p <= i < p' ->
            exists c, String.get i text = Some c /\ Ascii.eqb c NL = false.
Proof.
  intros M. remember (Star Any) as r eqn:Er.
  induction M; try discriminate; inversion Er; subst.
  - intros i Hi. lia.
  - intros i Hi.
    match goal with
    | Ma : Matches _ Any _ _ _ _ |- _ => inversion Ma; subst
    end.
    destruct (Nat.eq_dec i p) as [->|Hne]; [eauto|].
    apply IHM2; [reflexivity | lia].
Qed.

Lemma slice_cons p e c :
  String.get p text = Some c -> p < e ->
  slice p e text = String c (slice (S p) e text).
Proof.
  intros G H. unfold slice. rewrite (drop_cons _ _ _ G).
  replace (e - p) with (S (e - S p)) by lia. reflexivity.
Qed.

Lemma is_line_slice : forall n p,
  (forall i, p <= i < p + n ->
             exists c, String.get i text = Some c /\ Ascii.eqb c NL = false) ->
  String.get (p + n) text = Some NL ->
  is_line (slice p (S (p + n)) text) = true.
Proof.
  induction n as [|n IH]; intros p Hc Hn.
  - rewrite Nat.add_0_r in *. rewrite (slice_cons _ _ _ Hn) by lia.
    unfold slice. rewrite Nat.sub_diag.
    destruct (drop (S p) text); simpl; reflexivity.
  - destruct (Hc p ltac:(lia)) as (c & G & E).
    rewrite (slice_cons _ _ _ G) by lia.
    replace (p + S n) with (S p + n) in * by lia.
    specialize (IH (S p) ltac:(intros i Hi; apply Hc; lia) Hn).
    destruct (slice (S p) (S (S p + n)) text) as [|d s] eqn:Es;
      [discriminate IH|].
    change (is_line (String c (String d s)))
      with (negb (Ascii.eqb c NL) && is_line (String d s))%bool.
    rewrite E, IH. reflexivity.
Qed.

End Lines.

Lemma null_table_ok : table_ok NullLexer.tokens [root] = true.
Proof. vm_compute. reflexivity. Qed.

Lemma null_table_tiles :
  table_tiles false NullLexer.tokens [root] never = true.
Proof. vm_compute. reflexivity. Qed.

Lemma null_tiles text :
  tiles text 0 (NullLexer.get_tokens_unprocessed text) (String.length text).
Proof.
  unfold NullLexer.get_tokens_unprocessed.
  apply lex_tiles with (states := [root]) (bad := no_kind) (sub := false)
                       (except := never).
  - apply null_table_ok.
  - apply null_table_tiles.
  - discriminate.
  - discriminate.
  - apply clean_no_kind.
Qed.

Lemma null_tokens_ok text :
  Forall null_token_ok (NullLexer.get_tokens_unprocessed text).
Proof.
  unfold NullLexer.get_tokens_unprocessed.
  apply tokens_have_at with (states := [root]).
  - apply null_table_ok.
  - intros st r pos e g [<-|[]] Hp H.
    pose proof (first_match_span _ _ _ _ _ _ Hp H) as [M [_ He]].
    apply first_match_some in H. destruct H as [[<-|[]] _].
    simpl in M. unfold rule_rx in M. simpl fst in M.
    simpl. constructor; [|constructor].
    left. unfold tok_type, tok_value. simpl. split; [reflexivity|]. right.
    inversion M; subst; clear M.
    match goal with
    | M1 : Matches _ (Lit " ") _ _ _ _ |- _ => inversion M1; subst; clear M1
    end.
    match goal with
    | M1 : Matches _ (Seq _ _) _ _ _ _ |- _ => inversion M1; subst; clear M1
    end.
    match goal with
    | M1 : Matches _ (Chr NL) _ _ _ _ |- _ => inversion M1; subst; clear M1
    end.
    repeat match goal with
           | L : lit_at _ _ _ = true |- _ =>
               apply lit_at_cons in L; destruct L as [L _]
           end.
    match goal with
    | M1 : Matches _ (Star Any) _ _ ?q _ |- _ =>
        pose proof (star_any_chars _ _ _ _ _ M1) as Hc;
        pose proof (Matches_bounds _ _ _ _ _ _ M1) as Hb
    end.
    match goal with
    | L1 : char_at _ pos = Some " "%char,
      L2 : char_at _ ?q = Some NL |- _ =>
        pose proof (char_at_lt _ _ _ L1) as Hlt;
        specialize (Hb ltac:(simpl; lia)); simpl in Hb;
        replace (q + String.length (String NL EmptyString)) with (S q)
          by (simpl; lia);
        split;
        [ rewrite get_slice by lia; rewrite Nat.add_0_r; exact L1 |
          replace q with (pos + (q - pos)) by lia;
          apply is_line_slice;
          [ intros i Hi; destruct (Nat.eq_dec i pos) as [->|Hne];
            [ exists " "%char; split; [exact L1 | reflexivity]
            | apply Hc; simpl; lia ]
          | replace (pos + (q - pos)) with q by lia; exact L2 ] ]
    end.
  - intros st pos c _ _ G.
    destruct (Ascii.eqb c NL) eqn:E.
    + left. unfold tok_type, tok_value. simpl. split; [reflexivity|].
      left. apply Ascii.eqb_eq in E. subst. reflexivity.
    + right. unfold tok_type, tok_value. simpl. split; [reflexivity|].
      exists c. auto.
Qed.

Lemma no_pushes_single (defs : tokendefs) :
  pushes_from_root defs [] = true ->
  forall stack, shallow [] stack -> stack = [root].
Proof. intros _ stack [H|(s & [] & _)]. exact H. Qed.

(* ================================================================== *)
(** ** [RenpyTracebackLexer] on lines that open no traceback *)

Lemma traceback_root_rules :
  rules_of RenpyTracebackLexer.tokens root =
  [tb_header_rule; tb_file_rule; tb_other_rule].
Proof. reflexivity. Qed.

(** A literal without a newline that stands where a line starts is a
    prefix of the line. *)
Lemma lit_at_prefix w : forall pre l rest,
  lit_at (pre ++ l ++ rest) w (String.length pre) = true ->
  no_newline w = true -> is_line l = true ->
  String.prefix w l = true.
Proof.
  induction w as [|c w IH]; intros pre l rest L Hw Hl.
  - destruct l; reflexivity.
  - apply lit_at_cons in L. destruct L as [Lc Lw].
    simpl in Hw. apply andb_true_iff in Hw. destruct Hw as [Hc Hw].
    apply negb_true_iff in Hc.
    destruct l as [|d l]; [discriminate|].
    unfold char_at in Lc.
    replace (String.length pre) with (String.length pre + 0) in Lc by lia.
    rewrite get_app_right in Lc. simpl in Lc. inversion Lc; subst d.
    apply is_line_cons in Hl. destruct Hl as [[-> ->]|[_ Hl]].
    { rewrite Ascii.eqb_refl in Hc. discriminate. }
    simpl. destruct (ascii_dec c c) as [_|N]; [|congruence].
    apply (IH (pre ++ String c EmptyString)%string l rest); try assumption.
    rewrite append_assoc. simpl.
    rewrite length_append. simpl. rewrite Nat.add_1_r. exact Lw.
Qed.

Section PlainLine.
Variable text : string.

Lemma rmatch_bol (R : Type) p g (k : nat -> groups -> option R) :
  rmatch text Bol p g k = if at_bol text p then k p g else None.
Proof. reflexivity. Qed.

Lemma star_any_line (R : Type) (k : nat -> groups -> option R) g x :
  forall n p,
    (forall i, i < n -> exists c, String.get (p + i) text = Some c
                                  /\ Ascii.eqb c NL = false) ->
    String.get (p + n) text = Some NL ->
    k (S (p + n)) g = Some x ->
    rmatch text (Star Any) p g (fun p1 g1 => rmatch text (Chr NL) p1 g1 k)
    = Some x.
Proof.
  induction n as [|n IH]; intros p Hc Hn Hk.
  - rewrite Nat.add_0_r in *.
    rewrite star_any_unfold, Hn, Ascii.eqb_refl, rmatch_nl, Hn,
      Ascii.eqb_refl.
    exact Hk.
  - rewrite star_any_unfold.
    destruct (Hc 0 ltac:(lia)) as (c & G & E). rewrite Nat.add_0_r in G.
    rewrite G, E.
    replace (p + S n) with (S p + n) in * by lia.
    rewrite IH; [reflexivity | | assumption | assumption].
    intros i Hi. specialize (Hc (S i) ltac:(lia)).
    replace (S p + i) with (p + S i) by lia. exact Hc.
Qed.

Lemma other_rule_match n p :
  at_bol text p = true ->
  (forall i, i < n -> exists c, String.get (p + i) text = Some c
                                /\ Ascii.eqb c NL = false) ->
  String.get (p + n) text = Some NL ->
  match_at text (rule_rx tb_other_rule) p = Some (S (p + n), []).
Proof.
  intros Hb Hc Hn. unfold match_at, tb_other_rule, rule_rx. simpl fst.
  cbn [seqs]. rewrite rmatch_seq, rmatch_bol, Hb, rmatch_seq.
  apply star_any_line with (n := n); auto.
Qed.

End PlainLine.

Lemma other_line_facts l :
  other_line l = true ->
  is_line l = true /\ String.prefix "Traceback" l = false
  /\ String.prefix "^CTraceback" l = false
  /\ String.prefix ("  File " ++ dq) l = false.
Proof.
  unfold other_line, startswith. intros H.
  apply andb_true_iff in H. destruct H as [H H4].
  apply andb_true_iff in H. destruct H as [H H3].
  apply andb_true_iff in H. destruct H as [H1 H2].
  apply negb_true_iff in H2, H3, H4. auto.
Qed.

(** At the start of a line that opens no traceback, the first two rules
    of ['root'] fail. *)
Lemma header_rule_fails pre l rest :
  other_line l = true ->
  match_at (pre ++ l ++ rest) (rule_rx tb_header_rule) (String.length pre)
  = None.
Proof.
  intros Ho. destruct (other_line_facts _ Ho) as (Hl & H1 & H2 & _).
  destruct (match_at (pre ++ l ++ rest) (rule_rx tb_header_rule)
                     (String.length pre)) as [[e g]|] eqn:E; [|reflexivity].
  exfalso. apply match_at_sound in E.
  unfold tb_header_rule, rule_rx in E. simpl fst in E. cbn [seqs] in E.
  inversion E; subst; clear E.
  match goal with
  | M : Matches _ Bol _ _ _ _ |- _ => inversion M; subst; clear M
  end.
  match goal with
  | M : Matches _ (Seq _ _) _ _ _ _ |- _ => inversion M; subst; clear M
  end.
  match goal with
  | M : Matches _ (Grp 2 _) _ _ _ _ |- _ => inversion M; subst; clear M
  end.
  match goal with
  | M : Matches _ (Seq (Lit "Traceback") _) _ _ _ _ |- _ =>
      inversion M; subst; clear M
  end.
  match goal with
  | M : Matches _ (Lit "Traceback") _ _ _ _ |- _ =>
      inversion M; subst; clear M
  end.
  match goal with
  | M : Matches _ (Opt _) _ _ _ _ |- _ =>
      unfold Opt in M; inversion M; subst; clear M
  end.
  - match goal with
    | M : Matches _ (Grp 1 _) _ _ _ _ |- _ => inversion M; subst; clear M
    end.
    match goal with
    | M : Matches _ (Lit "^C") _ _ _ _ |- _ => inversion M; subst; clear M
    end.
    assert (L : lit_at (pre ++ l ++ rest) ("^C" ++ "Traceback")
                       (String.length pre) = true).
    { apply lit_at_app. split; assumption. }
    apply lit_at_prefix in L; [|reflexivity|assumption].
    simpl in L, H2. congruence.
  - match goal with
    | M : Matches _ Eps _ _ _ _ |- _ => inversion M; subst; clear M
    end.
    match goal with
    | L : lit_at _ "Traceback" _ = true |- _ =>
        apply lit_at_prefix in L; [|reflexivity|assumption]
    end.
    congruence.
Qed.

Lemma file_rule_fails pre l rest :
  other_line l = true ->
  match_at (pre ++ l ++ rest) (rule_rx tb_file_rule) (String.length pre)
  = None.
Proof.
  intros Ho. destruct (other_line_facts _ Ho) as (Hl & _ & _ & H3).
  destruct (match_at (pre ++ l ++ rest) (rule_rx tb_file_rule)
                     (String.length pre)) as [[e g]|] eqn:E; [|reflexivity].
  exfalso. apply match_at_sound in E.
  unfold tb_file_rule, rule_rx in E. simpl fst in E. cbn [seqs] in E.
  inversion E; subst; clear E.
  match goal with
  | M : Matches _ Bol _ _ _ _ |- _ => inversion M; subst; clear M
  end.
  match goal with
  | M : Matches _ (Ahead _) _ _ _ _ |- _ => inversion M; subst; clear M
  end.
  match goal with
  | M : Matches _ (Seq _ _) _ _ _ _ |- _ => inversion M; subst; clear M
  end.
  match goal with
  | M : Matches _ (Lit _) _ _ _ _ |- _ => inversion M; subst; clear M
  end.
  match goal with
  | L : lit_at _ _ _ = true |- _ =>
      apply lit_at_prefix in L; [|reflexivity|assumption];
      simpl in L, H3; congruence
  end.
Qed.

(** Past the end of the text no rule of ['root'] matches. *)
Lemma traceback_root_at_end text :
  first_match text (rules_of RenpyTracebackLexer.tokens root)
              (String.length text) = None.
Proof.
  rewrite traceback_root_rules. cbn [first_match].
  assert (N : forall r e g,
             Matches text r (String.length text) [] e g ->
             nullable r = false -> False).
  { intros r e g M Hn.
    pose proof (Matches_bounds _ _ _ _ _ _ M (Nat.le_refl _)).
    pose proof (Matches_progress _ _ _ _ _ _ M (Nat.le_refl _) Hn). lia. }
  destruct (match_at text (rule_rx tb_header_rule) (String.length text))
    as [[e g]|] eqn:E1.
  { exfalso. apply match_at_sound in E1. eapply N; eauto. }
  destruct (match_at text (rule_rx tb_file_rule) (String.length text))
    as [[e g]|] eqn:E2.
  { exfalso. apply match_at_sound in E2.
    unfold tb_file_rule, rule_rx in E2. simpl fst in E2.
    inversion E2; subst; clear E2.
    match goal with
    | M : Matches _ Bol _ _ _ _ |- _ => inversion M; subst; clear M
    end.
    match goal with
    | M : Matches _ (Ahead _) _ _ _ _ |- _ => inversion M; subst; clear M
    end.
    match goal with
    | M : Matches _ _ _ _ _ _ |- _ =>
        pose proof (Matches_bounds _ _ _ _ _ _ M (Nat.le_refl _));
        pose proof (Matches_progress _ _ _ _ _ _ M (Nat.le_refl _) eq_refl)
    end.
    lia. }
  destruct (match_at text (rule_rx tb_other_rule) (String.length text))
    as [[e g]|] eqn:E3; [|reflexivity].
  exfalso. apply match_at_sound in E3. eapply N; eauto.
Qed.

Lemma get_past_end (s : string) : forall p,
  String.length s <= p -> String.get p s = None.
Proof.
  induction s as [|c s IH]; intros [|p] H; simpl in *; try reflexivity;
    try lia.
  apply IH. lia.
Qed.

(** The loop of [RenpyTracebackLexer] over lines that open no
    traceback. *)
Lemma traceback_run_lines : forall ls pre fuel,
  Forall (fun l => other_line l = true) ls ->
  at_bol (pre ++ concat_lines ls) (String.length pre) = true ->
  List.length ls < fuel ->
  run RenpyTracebackLexer.tokens RenpyLexer.get_tokens_unprocessed
      (pre ++ concat_lines ls) fuel (String.length pre) [root]
  = (map (fun x => (fst x, Other, snd x))
         (with_offsets (String.length pre) ls),
     Some [root]).
Proof.
  induction ls as [|l ls IH]; intros pre fuel Hls Hb Hfuel;
    (destruct fuel as [|fuel]; [simpl in Hfuel; lia|]).
  - simpl concat_lines. rewrite append_empty_r. cbn [run]. unfold step.
    cbn [top hd]. rewrite traceback_root_at_end.
    rewrite (get_past_end _ _ (Nat.le_refl _)). reflexivity.
  - inversion Hls as [|? ? Hl Hls']; subst.
    destruct (other_line_facts _ Hl) as (Hline & _).
    pose proof (is_line_length _ Hline) as Ll.
    destruct (is_line_chars _ Hline) as [C1 C2].
    simpl concat_lines in *.
    remember (pre ++ l ++ concat_lines ls)%string as text eqn:Et.
    assert (Et' : text = ((pre ++ l) ++ concat_lines ls)%string).
    { subst text. rewrite !append_assoc. reflexivity. }
    assert (G : forall i, i < String.length l ->
                          String.get (String.length pre + i) text
                          = String.get i l).
    { intros i Hi. rewrite Et. rewrite get_app_right.
      apply get_app_left. assumption. }
    cbn [run]. unfold step. cbn [top hd].
    rewrite traceback_root_rules. cbn [first_match].
    rewrite Et at 1. rewrite (header_rule_fails pre l _ Hl).
    rewrite Et at 1. rewrite (file_rule_fails pre l _ Hl).
    rewrite (other_rule_match text (String.length l - 1) (String.length pre)
               Hb).
    + replace (S (String.length pre + (String.length l - 1)))
        with (String.length pre + String.length l) by lia.
      cbn [rule_action rule_new tb_other_rule fst snd emit transition].
      assert (Es : slice (String.length pre)
                         (String.length pre + String.length l) text = l).
      { rewrite Et. apply slice_lit. apply lit_at_mid. }
      rewrite Es. rewrite <- length_append.
      rewrite Et'. rewrite IH.
      * cbn [with_offsets map fst snd app]. rewrite length_append.
        reflexivity.
      * assumption.
      * rewrite <- Et'. rewrite length_append.
        replace (String.length pre + String.length l)
          with (S (String.length pre + (String.length l - 1))) by lia.
        cbn [at_bol]. unfold char_at. rewrite G by lia. rewrite C2.
        apply Ascii.eqb_refl.
      * simpl in Hfuel. lia.
    + intros i Hi. rewrite G by lia. apply C1. assumption.
    + rewrite G by lia. exact C2.
Qed.

(* ================================================================== *)
(** ** [RenpyConsoleLexer] on entered code *)

Lemma follow_app a : forall b p,
  follow p (a ++ b)
  = (follow p a && follow (p + String.length (joined a)) b)%bool.
Proof.
  induction a as [|tk a IH]; intros b p.
  - simpl. rewrite Nat.add_0_r. reflexivity.
  - cbn [app follow]. rewrite IH.
    change (joined (tk :: a)) with (tok_value tk ++ joined a)%string.
    rewrite length_append, Nat.add_assoc, andb_assoc. reflexivity.
Qed.

Lemma spells_nil p : spells p [] EmptyString.
Proof. split; reflexivity. Qed.

Lemma spells_app p a b s1 s2 :
  spells p a s1 -> spells (p + String.length s1) b s2 ->
  spells p (a ++ b) (s1 ++ s2).
Proof.
  intros [F1 J1] [F2 J2]. split.
  - rewrite follow_app, F1, J1, F2. reflexivity.
  - rewrite joined_app, J1, J2. reflexivity.
Qed.

Lemma spells_one p t v : spells p [(p, t, v)] v.
Proof.
  split.
  - simpl. unfold tok_index. simpl. rewrite Nat.eqb_refl. reflexivity.
  - unfold joined, tok_value. simpl. apply append_empty_r.
Qed.

Lemma spells_opt p t v :
  spells p (if is_empty v then [] else [(p, t, v)]) v.
Proof.
  destruct v as [|c v]; [apply spells_nil | apply spells_one].
Qed.

(** *** Slices of slices *)

Lemma take_take (s : string) : forall m n,
  m <= n -> take m (take n s) = take m s.
Proof.
  induction s as [|c s IH]; intros [|m] [|n] H; simpl; try reflexivity;
    try lia.
  rewrite IH by lia. reflexivity.
Qed.

Lemma take_nil (k : nat) : take k EmptyString = EmptyString.
Proof. destruct k; reflexivity. Qed.

Lemma drop_nil (k : nat) : drop k EmptyString = EmptyString.
Proof. destruct k; reflexivity. Qed.

Lemma drop_take (s : string) : forall a n,
  drop a (take n s) = take (n - a) (drop a s).
Proof.
  induction s as [|c s IH]; intros a n.
  - rewrite take_nil, !drop_nil, take_nil. reflexivity.
  - destruct a as [|a], n as [|n]; try reflexivity;
      simpl; first [apply drop_nil | apply IH].
Qed.

Lemma slice_slice (s : string) (i e a b : nat) :
  i + b <= e -> slice a b (slice i e s) = slice (i + a) (i + b) s.
Proof.
  intros H. unfold slice. rewrite drop_take, drop_drop.
  destruct (Nat.le_gt_cases a b) as [Hab|Hab].
  - rewrite take_take by lia. f_equal. lia.
  - replace (b - a) with 0 by lia. replace (i + b - (i + a)) with 0 by lia.
    destruct (take (e - i - a) (drop (i + a) s));
      destruct (drop (i + a) s); reflexivity.
Qed.

Lemma drop_as_slice (s : string) (b : nat) :
  drop b s = slice b (String.length s) s.
Proof.
  unfold slice. rewrite <- (length_drop s b).
  generalize (drop b s). clear. intros s.
  induction s as [|c s IH]; simpl; [reflexivity | rewrite <- IH; reflexivity].
Qed.

Lemma drop_all (s : string) : drop (String.length s) s = EmptyString.
Proof. induction s; simpl; auto. Qed.

Lemma py_bound_nat len a : a <= len -> py_bound len (Z.of_nat a) = a.
Proof.
  intros H. unfold py_bound.
  destruct (Z.ltb_spec (Z.of_nat a) 0) as [L|L]; [lia|].
  rewrite Z.max_r by lia. rewrite Z.min_r by lia. apply Nat2Z.id.
Qed.

Lemma py_slice_nat v a b :
  a <= String.length v -> b <= String.length v ->
  py_slice v (Z.of_nat a) (Z.of_nat b) = slice a b v.
Proof.
  intros Ha Hb. unfold py_slice. rewrite !py_bound_nat by assumption.
  reflexivity.
Qed.

(** *** [do_insertions] *)

Lemma emit_insertion_spells : forall itokens rp,
  spells rp (fst (emit_insertion itokens rp)) (joined itokens)
  /\ snd (emit_insertion itokens rp) = rp + String.length (joined itokens).
Proof.
  induction itokens as [|[[i t] v] itokens IH]; intros rp.
  - simpl. split; [apply spells_nil | lia].
  - cbn [emit_insertion]. specialize (IH (rp + String.length v)).
    destruct (emit_insertion itokens (rp + String.length v)) as [out rp'].
    simpl in *. destruct IH as [IH1 IH2].
    change (joined ((i, t, v) :: itokens)) with (v ++ joined itokens)%string.
    split.
    + apply (spells_app rp [(rp, t, v)] out); [apply spells_one | exact IH1].
    + rewrite length_append. lia.
Qed.

Section Weave.
Variable code : string.

Lemma weave_past_end pending :
  ordered (String.length code) pending (String.length code) ->
  weave code (String.length code) pending = joined_ins pending.
Proof.
  induction pending as [|[idx itoks] pending IH]; intros H; simpl.
  - apply drop_all.
  - destruct H as (H1 & H2 & H3).
    assert (idx = String.length code) by lia. subst idx.
    rewrite IH by assumption.
    unfold slice. rewrite Nat.sub_diag, drop_all. reflexivity.
Qed.

Lemma ordered_weaken b b' pending hi :
  b' <= b -> ordered b pending hi -> ordered b' pending hi.
Proof.
  destruct pending as [|[idx itoks] pending]; simpl; [auto|].
  intros H (H1 & H2 & H3). repeat split; auto. lia.
Qed.

(** The loop over the insertions that fall into the token [v], which
    stands in the code at [i] and of which [o] characters have been
    yielded. *)
Lemma insert_while_spec t v i : forall pending o rp,
  v = slice i (i + String.length v) code ->
  i + String.length v <= String.length code ->
  o <= String.length v ->
  ordered (i + o) pending (String.length code) ->
  exists out o' rp' pending' s,
    insert_while i t v (Z.of_nat o) rp pending
    = (out, (Z.of_nat o', rp', pending'))
    /\ spells rp out s /\ rp' = rp + String.length s
    /\ o' <= String.length v
    /\ ordered (i + String.length v) pending' (String.length code)
    /\ (s ++ drop o' v ++ weave code (i + String.length v) pending')%string
       = weave code (i + o) pending.
Proof.
  intros pending. induction pending as [|[idx itoks] pending IH];
    intros o rp Hv Hlen Ho Hord.
  - exists [], o, rp, [], EmptyString. cbn [insert_while weave].
    split; [reflexivity|]. split; [apply spells_nil|].
    split; [simpl; lia|]. split; [assumption|]. split; [exact I|].
    simpl String.append.
    rewrite (drop_split code (i + o) (i + String.length v)) by lia.
    f_equal. rewrite Hv at 1. rewrite drop_as_slice.
    rewrite <- Hv. rewrite Hv at 2. rewrite slice_slice by lia.
    reflexivity.
  - destruct Hord as (H1 & H2 & H3). cbn [insert_while].
    destruct (Nat.leb idx (i + String.length v)) eqn:E.
    + apply Nat.leb_le in E.
      replace (Z.of_nat idx - Z.of_nat i)%Z with (Z.of_nat (idx - i)) by lia.
      rewrite py_slice_nat by lia.
      set (tmpval := slice o (idx - i) v).
      pose proof (emit_insertion_spells itoks (rp + String.length tmpval))
        as [S2 R2].
      destruct (emit_insertion itoks (rp + String.length tmpval))
        as [out2 rp2]. simpl in S2, R2.
      destruct (IH (idx - i) rp2 Hv Hlen ltac:(lia)
                   ltac:(replace (i + (idx - i)) with idx by lia; exact H3))
        as (out3 & o' & rp' & pending' & s3 & E3 & S3 & R3 & Ho' & Hord'
            & W3).
      rewrite E3.
      exists ((if is_empty tmpval then [] else [(rp, t, tmpval)])
                ++ out2 ++ out3),
        o', rp', pending', (tmpval ++ joined itoks ++ s3)%string.
      split; [reflexivity|]. split; [|split; [|split; [|split]]];
        try assumption.
      * apply spells_app; [apply spells_opt|].
        apply spells_app; [exact S2|]. rewrite <- R2. exact S3.
      * rewrite !length_append. lia.
      * cbn [weave]. rewrite !append_assoc. rewrite W3.
        replace (i + (idx - i)) with idx by lia.
        f_equal. subst tmpval. rewrite Hv at 1.
        rewrite slice_slice by lia.
        f_equal. lia.
    + apply Nat.leb_gt in E.
      exists [], o, rp, ((idx, itoks) :: pending), EmptyString.
      split; [reflexivity|]. split; [apply spells_nil|].
      split; [simpl; lia|]. split; [assumption|]. split.
      * simpl. repeat split; try lia. assumption.
      * cbn [weave]. simpl String.append. rewrite <- append_assoc. f_equal.
        rewrite Hv at 1. rewrite drop_as_slice. rewrite <- Hv.
        rewrite Hv at 2. rewrite slice_slice by lia.
        apply slice_app; lia.
Qed.

Lemma insert_tokens_spec : forall toks i rp pending,
  tiles code i toks (String.length code) ->
  ordered i pending (String.length code) ->
  exists out rp' pending' s,
    insert_tokens toks (Some rp) pending = (out, (Some rp', pending'))
    /\ spells rp out s /\ rp' = rp + String.length s
    /\ (s ++ joined_ins pending')%string = weave code i pending.
Proof.
  induction toks as [|[[i0 t] v] toks IH]; intros i rp pending HT Hord.
  - simpl in HT. subst i.
    exists [], rp, pending, EmptyString. cbn [insert_tokens].
    split; [reflexivity|]. split; [apply spells_nil|].
    split; [simpl; lia|].
    simpl. symmetry. apply weave_past_end. assumption.
  - simpl in HT. destruct HT as (Hi & Ho & HT).
    unfold tok_index, tok_value, occurs_at in *. simpl in *. subst i0.
    pose proof (tiles_le _ _ _ _ HT) as Hle.
    assert (Hv : v = slice i (i + String.length v) code)
      by (symmetry; apply slice_lit; assumption).
    destruct (insert_while_spec t v i pending 0 rp Hv Hle ltac:(lia)
                ltac:(rewrite Nat.add_0_r; exact Hord))
      as (out1 & o' & rp1 & pending1 & s1 & E1 & S1 & R1 & Ho' & Hord1 & W1).
    change (Z.of_nat 0) with 0%Z in E1.
    cbn [insert_tokens]. rewrite E1.
    assert (E2 : (if Z.ltb (Z.of_nat o') (Z.of_nat (String.length v))
                  then ([(rp1, t, py_slice v (Z.of_nat o')
                                           (Z.of_nat (String.length v)))],
                        rp1 + Z.to_nat (Z.of_nat (String.length v)
                                        - Z.of_nat o'))
                  else ([], rp1))
                 = ((if is_empty (drop o' v) then []
                     else [(rp1, t, drop o' v)]),
                    rp1 + String.length (drop o' v))).
    { rewrite length_drop.
      rewrite py_slice_nat by lia. rewrite <- drop_as_slice.
      destruct (Z.ltb_spec (Z.of_nat o') (Z.of_nat (String.length v)))
        as [L|L].
      - destruct (drop o' v) eqn:D.
        + pose proof (length_drop v o') as LD. rewrite D in LD. simpl in LD.
          lia.
        + simpl. f_equal. lia.
      - replace (String.length v - o') with 0 by lia.
        assert (D : drop o' v = EmptyString).
        { assert (o' = String.length v) by lia. subst o'. apply drop_all. }
        rewrite D. simpl. f_equal. lia. }
    rewrite E2. clear E2.
    destruct (IH (i + String.length v) (rp1 + String.length (drop o' v))
                 pending1 HT Hord1)
      as (out3 & rp' & pending' & s3 & E3 & S3 & R3 & W3).
    rewrite E3.
    exists (out1 ++ (if is_empty (drop o' v) then []
                     else [(rp1, t, drop o' v)]) ++ out3),
      rp', pending', (s1 ++ drop o' v ++ s3)%string.
    split; [reflexivity|]. split; [|split].
    + apply spells_app; [exact S1|]. rewrite <- R1.
      apply spells_app; [apply spells_opt | exact S3].
    + rewrite !length_append. lia.
    + rewrite !append_assoc. rewrite W3.
      rewrite W1. rewrite Nat.add_0_r. reflexivity.
Qed.

Lemma insert_leftover_spells : forall pending rp,
  spells rp (insert_leftover pending rp) (joined_ins pending).
Proof.
  induction pending as [|[idx itoks] pending IH]; intros rp.
  - apply spells_nil.
  - cbn [insert_leftover joined_ins fold_right snd].
    pose proof (emit_insertion_spells itoks rp) as [S R].
    destruct (emit_insertion itoks rp) as [out rp']. simpl in S, R.
    apply spells_app; [exact S|]. rewrite <- R. apply IH.
Qed.

(** [do_insertions] on tokens that cover the code: its tokens follow
    one another from 0 and read as the code with the insertions put
    in. *)
Lemma do_insertions_spells ins toks :
  tiles code 0 toks (String.length code) ->
  ordered 0 ins (String.length code) ->
  spells 0 (do_insertions ins toks) (weave code 0 ins).
Proof.
  intros HT Hord. unfold do_insertions.
  destruct ins as [|x ins].
  - simpl. split.
    + eapply tiles_follow; eauto.
    + rewrite (tiles_joined _ _ _ _ HT (Nat.le_refl _)). apply slice_full.
  - cbv iota beta. set (pending := x :: ins) in *. clearbody pending.
    destruct toks as [|[[i t] v] toks].
    + simpl in HT. cbn [insert_tokens].
      pose proof (weave_past_end pending) as W.
      rewrite <- HT in W, Hord. rewrite (W Hord).
      simpl. apply insert_leftover_spells.
    + assert (Hi : i = 0) by (simpl in HT; tauto). subst i.
      change (insert_tokens ((0, t, v) :: toks) None pending)
        with (insert_tokens ((0, t, v) :: toks) (Some 0) pending).
      destruct (insert_tokens_spec _ 0 0 pending HT Hord)
        as (out & rp' & pending' & s & E & S & R & W).
      match goal with
      | |- context [insert_tokens ?a ?b ?c] =>
          destruct (insert_tokens a b c) as [o1 [r1 p1]] eqn:E0
      end.
      pose proof (eq_trans (eq_sym E0) E) as Q.
      inversion Q; subst o1 r1 p1. clear Q E0.
      rewrite <- W.
      apply spells_app; [exact S|]. simpl in R. rewrite <- R.
      apply insert_leftover_spells.
Qed.

End Weave.

(** *** Lines of entered code *)

Lemma prefix_split w : forall l,
  String.prefix w l = true ->
  take (String.length w) l = w /\ l = (w ++ drop (String.length w) l)%string.
Proof.
  induction w as [|c w IH]; intros l H.
  - simpl. split; [destruct l; reflexivity | reflexivity].
  - destruct l as [|d l]; [discriminate|]. simpl in H.
    destruct (ascii_dec c d) as [->|]; [|discriminate].
    destruct (IH l H) as [IH1 IH2]. simpl. rewrite IH1. split; [reflexivity|].
    f_equal. exact IH2.
Qed.

Lemma rstrip_cons c s :
  rstrip (String c s)
  = if (is_empty (rstrip s) && is_space c)%bool then EmptyString
    else String c (rstrip s).
Proof. reflexivity. Qed.

Lemma rstrip_ellipsis l :
  String.eqb (rstrip l) "..." = true -> l = ("..." ++ drop 3 l)%string.
Proof.
  intros H. apply String.eqb_eq in H.
  destruct l as [|c1 l]; [discriminate|]. rewrite rstrip_cons in H.
  destruct (is_empty (rstrip l) && is_space c1)%bool; [discriminate|].
  injection H as E1 H1.
  destruct l as [|c2 l]; [discriminate|]. rewrite rstrip_cons in H1.
  destruct (is_empty (rstrip l) && is_space c2)%bool; [discriminate|].
  injection H1 as E2 H2.
  destruct l as [|c3 l]; [discriminate|]. rewrite rstrip_cons in H2.
  destruct (is_empty (rstrip l) && is_space c3)%bool; [discriminate|].
  injection H2 as E3 H3.
  rewrite E1, E2, E3. reflexivity.
Qed.

Lemma code_line_facts l :
  code_line l = true ->
  is_line l = true /\ l = (prompt_of l ++ code_of l)%string
  /\ no_newline (prompt_of l) = true.
Proof.
  unfold code_line, prompt_of, code_of. intros H.
  apply andb_true_iff in H. destruct H as [Hl H]. split; [assumption|].
  unfold RenpyConsoleLexer.is_prompt, startswith in *.
  destruct (String.prefix ">>> " l) eqn:P1.
  - destruct (prefix_split _ _ P1) as [T E]. simpl String.length in *.
    simpl orb. rewrite T. split; [exact E | reflexivity].
  - destruct (String.prefix "... " l) eqn:P2.
    + destruct (prefix_split _ _ P2) as [T E]. simpl String.length in *.
      simpl orb. rewrite T. split; [exact E | reflexivity].
    + simpl in H. simpl orb. split; [|reflexivity].
      apply rstrip_ellipsis. assumption.
Qed.

Lemma code_of_nonempty l :
  code_line l = true -> is_empty (code_of l) = false.
Proof.
  intros H. destruct (code_line_facts _ H) as (Hl & E & Hp).
  destruct (code_of l) eqn:C; [|reflexivity]. exfalso.
  rewrite append_empty_r in E.
  destruct (is_line_chars _ Hl) as [_ G]. rewrite <- E in Hp.
  pose proof (no_newline_chars _ Hp _ _ G) as N.
  rewrite Ascii.eqb_refl in N. discriminate.
Qed.

Lemma entered_cons l ls : entered (l :: ls) = (code_of l ++ entered ls)%string.
Proof. reflexivity. Qed.

Lemma concat_lines_cons l ls :
  concat_lines (l :: ls) = (l ++ concat_lines ls)%string.
Proof. reflexivity. Qed.

Section ConsoleCode.
Import RenpyConsoleLexer.

Lemma do_line_code v start l :
  code_line l = true -> tb v = false ->
  do_line v start l =
  ([], {| curcode := curcode v ++ code_of l;
          insertions := insertions v ++
            [(String.length (curcode v), [(0, Generic_Prompt, prompt_of l)])];
          curtb := curtb v; tbindex := tbindex v; tb := false |}).
Proof.
  intros H Htb. unfold code_line in H.
  apply andb_true_iff in H. destruct H as [_ H].
  unfold do_line, prompt_of, code_of.
  destruct (is_prompt l); [reflexivity|].
  simpl in H. rewrite H, Htb. reflexivity.
Qed.

Lemma do_lines_code : forall ls v p,
  Forall (fun l => code_line l = true) ls -> tb v = false ->
  do_lines v (with_offsets p ls) =
  ([], {| curcode := curcode v ++ entered ls;
          insertions := insertions v
                        ++ prompts_at (String.length (curcode v)) ls;
          curtb := curtb v; tbindex := tbindex v; tb := false |}).
Proof.
  induction ls as [|l ls IH]; intros v p Hls Htb.
  - destruct v as [cc ins ct ti tbv]. simpl in *. subst tbv.
    unfold entered. simpl. rewrite append_empty_r, app_nil_r. reflexivity.
  - inversion Hls as [|? ? Hl Hls']; subst.
    cbn [with_offsets do_lines]. rewrite do_line_code by assumption.
    rewrite IH by (assumption || reflexivity).
    cbn [curcode insertions curtb tbindex tb prompts_at app].
    rewrite entered_cons.
    rewrite append_assoc, <- app_assoc, length_append. reflexivity.
Qed.

End ConsoleCode.

Lemma weave_prompts : forall ls pre b,
  Forall (fun l => code_line l = true) ls -> b <= String.length pre ->
  weave (pre ++ entered ls) b (prompts_at (String.length pre) ls)
  = (slice b (String.length pre) (pre ++ entered ls)
     ++ concat_lines ls)%string.
Proof.
  induction ls as [|l ls IH]; intros pre b Hls Hb.
  - unfold entered. simpl. rewrite !append_empty_r.
    apply drop_as_slice.
  - inversion Hls as [|? ? Hl Hls']; subst.
    destruct (code_line_facts _ Hl) as (_ & El & _).
    rewrite entered_cons, concat_lines_cons. cbn [prompts_at weave].
    assert (Ec : (pre ++ code_of l ++ entered ls)%string
                 = ((pre ++ code_of l) ++ entered ls)%string)
      by (rewrite append_assoc; reflexivity).
    f_equal.
    change (joined [(0, Generic_Prompt, prompt_of l)])
      with (prompt_of l ++ "")%string.
    rewrite append_empty_r.
    rewrite <- (length_append pre (code_of l)). rewrite Ec.
    rewrite (IH (pre ++ code_of l)%string (String.length pre) Hls')
      by (rewrite length_append; lia).
    rewrite <- Ec. rewrite length_append.
    rewrite (slice_lit _ (code_of l) (String.length pre)
               (lit_at_mid pre (code_of l) (entered ls))).
    rewrite El at 3. rewrite !append_assoc. reflexivity.
Qed.

Lemma ordered_prompts : forall ls pre b,
  b <= String.length pre ->
  ordered b (prompts_at (String.length pre) ls)
          (String.length (pre ++ entered ls)).
Proof.
  induction ls as [|l ls IH]; intros pre b Hb; [exact I|].
  rewrite entered_cons. cbn [prompts_at ordered].
  split; [assumption|]. split; [rewrite length_append; lia|].
  rewrite <- (length_append pre (code_of l)).
  rewrite <- append_assoc. apply IH. rewrite length_append. lia.
Qed.

Lemma entered_empty ls :
  Forall (fun l => code_line l = true) ls ->
  is_empty (entered ls) = true -> ls = [].
Proof.
  intros Hls H. destruct ls as [|l ls]; [reflexivity|]. exfalso.
  inversion Hls as [|? ? Hl _]; subst.
  pose proof (code_of_nonempty _ Hl) as N.
  unfold entered in H. simpl in H.
  destruct (code_of l); [discriminate N | discriminate H].
Qed.

(** A transcript of lines of entered code whose code [RenpyLexer] lexes
    without a token of the call rule. *)
Lemma console_code_spells ls tail :
  Forall (fun l => code_line l = true) ls -> no_newline tail = true ->
  clean is_call (RenpyLexer.get_tokens_unprocessed (entered ls)) = true ->
  spells 0 (RenpyConsoleLexer.get_tokens_unprocessed
              (concat_lines ls ++ tail))
         (concat_lines ls).
Proof.
  intros Hls Htail Hcl. unfold RenpyConsoleLexer.get_tokens_unprocessed.
  rewrite lines_of_lines; [|
    eapply Forall_impl; [|exact Hls];
    intros l Hl; apply code_line_facts in Hl; tauto | assumption].
  rewrite (do_lines_code ls RenpyConsoleLexer.init 0 Hls eq_refl).
  unfold RenpyConsoleLexer.finish.
  cbn [RenpyConsoleLexer.curcode RenpyConsoleLexer.curtb
       RenpyConsoleLexer.init RenpyConsoleLexer.insertions
       RenpyConsoleLexer.tbindex app String.append String.length is_empty].
  rewrite app_nil_r.
  destruct (is_empty (entered ls)) eqn:Em.
  - rewrite (entered_empty ls Hls Em). apply spells_nil.
  - unfold RenpyConsoleLexer.flush_code.
    cbn [RenpyConsoleLexer.curcode RenpyConsoleLexer.insertions app
         String.append].
    pose proof (do_insertions_spells (entered ls) (prompts_at 0 ls)
                  (RenpyLexer.get_tokens_unprocessed (entered ls))
                  (renpy_tiles _ Hcl)
                  (ordered_prompts ls EmptyString 0 (Nat.le_refl _))) as S.
    pose proof (weave_prompts ls EmptyString 0 Hls (Nat.le_refl _)) as W.
    cbn [String.append String.length] in W, S. rewrite W in S.
    unfold slice in S. cbn [Nat.sub take String.append] in S.
    exact S.
Qed.

(* ================================================================== *)
(** ** Prompt and output tokens of [RenpyConsoleLexer] *)

Section Kinds.
Variable defs : tokendefs.
Variable sublexer : string -> list token.
Variable text : string.
Variable states : list state.
Variable q : ttype -> bool.
Hypothesis Hok : table_ok defs states = true.
Hypothesis Hnever : never_yields q defs states = true.
Hypothesis Hsub : forall s, clean q (sublexer s) = true.
Hypothesis Hfall : q Text = false /\ q Error = false.

Lemma bygroups_kinds args : forall i g,
  existsb q (action_types (AByGroups args)) = false ->
  clean q (bygroups sublexer text args i g) = true.
Proof.
  induction args as [|a args IH]; intros i g Hq; [reflexivity|].
  cbn [bygroups]. rewrite clean_app.
  assert (Hq' : existsb q (action_types (AByGroups args)) = false).
  { simpl in *. rewrite existsb_app in Hq. apply orb_false_iff in Hq. tauto. }
  rewrite (IH _ _ Hq'), andb_true_r.
  destruct a as [|t|]; destruct (group g i) as [[s e]|]; try reflexivity.
  - destruct (is_empty (slice s e text)); [reflexivity|].
    simpl in Hq. apply orb_false_iff in Hq. destruct Hq as [Hq _].
    unfold clean. simpl. unfold tok_type. simpl. rewrite Hq. reflexivity.
  - rewrite clean_shift. apply Hsub.
Qed.

Lemma lexer_kinds : clean q (get_tokens_unprocessed defs sublexer text) = true.
Proof.
  assert (F : Forall (fun tk => q (tok_type tk) = false)
                     (get_tokens_unprocessed defs sublexer text)).
  { apply tokens_have with (states := states); [exact Hok| |].
    - intros st r pos e g Hst Hp H.
      apply first_match_some in H. destruct H as [Hin _].
      unfold never_yields in Hnever. rewrite forallb_forall in Hnever.
      specialize (Hnever st Hst). rewrite forallb_forall in Hnever.
      specialize (Hnever r Hin). apply negb_true_iff in Hnever.
      assert (C : clean q (emit sublexer text (rule_action r) pos e g) = true).
      { destruct (rule_action r) as [|t|args]; simpl.
        - reflexivity.
        - simpl in Hnever. rewrite orb_false_r in Hnever.
          unfold clean. simpl. unfold tok_type. simpl. rewrite Hnever.
          reflexivity.
        - apply bygroups_kinds. exact Hnever. }
      unfold clean in C. rewrite forallb_forall in C.
      apply Forall_forall. intros tk Htk. apply negb_true_iff. auto.
    - intros pos c _. unfold tok_type. simpl. tauto. }
  unfold clean. apply forallb_forall. intros tk Htk.
  rewrite Forall_forall in F. apply negb_true_iff. auto.
Qed.

End Kinds.

Lemma renpy_never_console :
  never_yields console_kind RenpyLexer.tokens renpy_states = true.
Proof. vm_compute. reflexivity. Qed.

Lemma traceback_never_console :
  never_yields console_kind RenpyTracebackLexer.tokens traceback_states = true.
Proof. vm_compute. reflexivity. Qed.

Lemma renpy_console_kinds s :
  clean console_kind (RenpyLexer.get_tokens_unprocessed s) = true.
Proof.
  unfold RenpyLexer.get_tokens_unprocessed.
  apply lexer_kinds with (states := renpy_states).
  - apply renpy_table_ok.
  - apply renpy_never_console.
  - reflexivity.
  - split; reflexivity.
Qed.

Lemma traceback_console_kinds s :
  clean console_kind (RenpyTracebackLexer.get_tokens_unprocessed s) = true.
Proof.
  unfold RenpyTracebackLexer.get_tokens_unprocessed, RenpyTracebackLexer.lex.
  apply (lexer_kinds RenpyTracebackLexer.tokens
                     RenpyLexer.get_tokens_unprocessed s traceback_states
                     console_kind).
  - apply traceback_table_ok.
  - apply traceback_never_console.
  - apply renpy_console_kinds.
  - split; reflexivity.
Qed.

(** *** Where the tokens of [do_insertions] come from *)

Section Origin.
Variable Pi : ttype -> string -> Prop.
Variable R : ttype -> Prop.

Lemma emit_insertion_origin : forall itokens rp,
  Forall (fun tk => Pi (tok_type tk) (tok_value tk)) itokens ->
  Forall (from_either Pi R) (fst (emit_insertion itokens rp)).
Proof.
  induction itokens as [|[[i t] v] itokens IH]; intros rp H; [constructor|].
  inversion H as [|? ? H1 H2]; subst. cbn [emit_insertion].
  specialize (IH (rp + String.length v) H2).
  destruct (emit_insertion itokens (rp + String.length v)) as [out rp'].
  simpl in *. constructor; [left; exact H1 | exact IH].
Qed.

Lemma insert_while_origin i t v : forall pending oldi rp,
  R t -> ins_ok Pi pending ->
  Forall (from_either Pi R) (fst (insert_while i t v oldi rp pending))
  /\ ins_ok Pi (snd (snd (insert_while i t v oldi rp pending))).
Proof.
  induction pending as [|[idx itoks] pending IH]; intros oldi rp Ht Hp.
  - simpl. split; constructor.
  - inversion Hp as [|? ? H1 H2]; subst. cbn [insert_while].
    destruct (Nat.leb idx (i + String.length v)); [|simpl; split;
      [constructor | exact Hp]].
    pose proof (emit_insertion_origin itoks
                  (rp + String.length
                          (py_slice v oldi (Z.of_nat idx - Z.of_nat i)))
                  H1) as O2.
    destruct (emit_insertion itoks _) as [out2 rp2]. simpl in O2.
    specialize (IH (Z.of_nat idx - Z.of_nat i)%Z rp2 Ht H2).
    destruct (insert_while i t v (Z.of_nat idx - Z.of_nat i) rp2 pending)
      as [out3 [[o3 r3] p3]].
    simpl in *. destruct IH as [IH1 IH2]. split; [|exact IH2].
    apply Forall_app. split.
    + destruct (is_empty _); constructor; [right; exact Ht | constructor].
    + apply Forall_app. split; assumption.
Qed.

Lemma insert_tokens_origin : forall toks rp pending,
  Forall (fun tk => R (tok_type tk)) toks -> ins_ok Pi pending ->
  Forall (from_either Pi R) (fst (insert_tokens toks rp pending))
  /\ ins_ok Pi (snd (snd (insert_tokens toks rp pending))).
Proof.
  induction toks as [|[[i t] v] toks IH]; intros rp pending Ht Hp.
  - simpl. split; [constructor | exact Hp].
  - inversion Ht as [|? ? H1 H2]; subst. unfold tok_type in H1. simpl in H1.
    cbn [insert_tokens].
    pose proof (insert_while_origin i t v pending 0%Z
                  (match rp with Some r => r | None => i end) H1 Hp) as O1.
    destruct (insert_while i t v 0 _ pending) as [out1 [[oldi rp1] pending1]].
    simpl in O1. destruct O1 as [O1 P1].
    destruct (Z.ltb oldi (Z.of_nat (String.length v))).
    + specialize (IH (Some (rp1 + Z.to_nat (Z.of_nat (String.length v) - oldi)))
                     pending1 H2 P1).
      destruct (insert_tokens toks _ pending1) as [out3 st].
      simpl in *. destruct IH as [IH1 IH2]. split; [|exact IH2].
      apply Forall_app. split; [exact O1|].
      constructor; [right; exact H1 | exact IH1].
    + specialize (IH (Some rp1) pending1 H2 P1).
      destruct (insert_tokens toks _ pending1) as [out3 st].
      simpl in *. destruct IH as [IH1 IH2]. split; [|exact IH2].
      apply Forall_app. split; assumption.
Qed.

Lemma insert_leftover_origin : forall pending rp,
  ins_ok Pi pending -> Forall (from_either Pi R) (insert_leftover pending rp).
Proof.
  induction pending as [|[idx itoks] pending IH]; intros rp Hp; [constructor|].
  inversion Hp as [|? ? H1 H2]; subst. cbn [insert_leftover].
  pose proof (emit_insertion_origin itoks rp H1) as O.
  destruct (emit_insertion itoks rp) as [out rp']. simpl in O.
  apply Forall_app. split; [exact O | apply IH; exact H2].
Qed.

(** A token of [do_insertions] is a token of an insertion, with its kind
    and its value, or it has the kind of one of the tokens. *)
Lemma do_insertions_origin ins toks :
  ins_ok Pi ins -> Forall (fun tk => R (tok_type tk)) toks ->
  Forall (from_either Pi R) (do_insertions ins toks).
Proof.
  intros Hi Ht. unfold do_insertions. destruct ins as [|x ins].
  - eapply Forall_impl; [|exact Ht]. intros tk H. right. exact H.
  - pose proof (insert_tokens_origin toks None (x :: ins) Ht Hi) as O.
    destruct (insert_tokens toks None (x :: ins)) as [out [rp pending]].
    simpl in O. destruct O as [O1 O2].
    apply Forall_app. split; [exact O1|].
    apply insert_leftover_origin. exact O2.
Qed.

End Origin.

(** *** The lines that [line_re] finds *)

Section FoundLines.
Variable text : string.

Lemma lazy_any_chars p g p' g' :
  Matches text (LazyStar Any) p g p' g' ->
  forall i, p <= i < p' ->
            exists c, String.get i text = Some c /\ Ascii.eqb c NL = false.
Proof.
  intros M. remember (LazyStar Any) as r eqn:Er.
  induction M; try discriminate; inversion Er; subst.
  - intros i Hi. lia.
  - intros i Hi.
    match goal with
    | Ma : Matches _ Any _ _ _ _ |- _ => inversion Ma; subst
    end.
    destruct (Nat.eq_dec i p) as [->|Hne]; [eauto|].
    apply IHM2; [reflexivity | lia].
Qed.

Lemma line_re_line p e g :
  match_at text line_re p = Some (e, g) -> p <= String.length text ->
  lit_at text (slice p e text) p = true /\ is_line (slice p e text) = true.
Proof.
  intros H Hp. apply match_at_sound in H.
  pose proof (Matches_bounds _ _ _ _ _ _ H Hp) as [Hle He].
  split; [apply lit_at_slice; assumption|].
  unfold line_re in H. inversion H; subst; clear H.
  match goal with
  | M : Matches _ (Chr NL) _ _ _ _ |- _ => inversion M; subst; clear M
  end.
  match goal with
  | L : lit_at _ _ _ = true |- _ =>
      apply lit_at_cons in L; destruct L as [L _]
  end.
  match goal with
  | M : Matches _ (LazyStar Any) _ _ ?q _ |- _ =>
      pose proof (lazy_any_chars _ _ _ _ M) as Hc;
      pose proof (Matches_bounds _ _ _ _ _ _ M Hp) as [Hq _];
      replace (q + String.length (String NL EmptyString)) with (S q)
        by (simpl; lia);
      replace q with (p + (q - p)) by lia;
      apply is_line_slice;
      [ intros i Hi; apply Hc; lia
      | replace (p + (q - p)) with q by lia; assumption ]
  end.
Qed.

Lemma finditer_spans r : forall fuel p,
  Forall (fun m => (exists g, match_at text r (fst m) = Some (snd m, g))
                   /\ fst m <= String.length text)
         (finditer_from fuel r text p).
Proof.
  induction fuel as [|fuel IH]; intros p; [constructor|].
  cbn [finditer_from].
  destruct (Nat.ltb (String.length text) p) eqn:E; [constructor|].
  apply Nat.ltb_ge in E.
  destruct (match_at text r p) as [[e g]|] eqn:M; [|apply IH].
  constructor; [|apply IH]. simpl. split; [eauto | assumption].
Qed.

Lemma lines_of_ok :
  Forall (fun x => lit_at text (snd x) (fst x) = true
                   /\ is_line (snd x) = true)
         (RenpyConsoleLexer.lines_of text).
Proof.
  unfold RenpyConsoleLexer.lines_of, finditer.
  apply Forall_map.
  eapply Forall_impl; [|apply finditer_spans].
  intros [p e] [[g M] Hp]. simpl in *. eapply line_re_line; eauto.
Qed.

End FoundLines.

(** *** The tokens of [RenpyConsoleLexer] *)

Section ConsoleTokens.
Import RenpyConsoleLexer.
Variable text : string.

Lemma from_either_ok tk :
  from_either is_prompt_token not_console tk -> console_token_ok text tk.
Proof.
  intros [[Ht Hv]|H]; split; intros K.
  - exact Hv.
  - rewrite K in Ht. discriminate.
  - unfold not_console in H. rewrite K in H. discriminate.
  - unfold not_console in H. rewrite K in H. discriminate.
Qed.

Lemma clean_not_console toks :
  clean console_kind toks = true ->
  Forall (fun tk => not_console (tok_type tk)) toks.
Proof.
  unfold clean. rewrite forallb_forall. intros H.
  apply Forall_forall. intros tk Hin. apply negb_true_iff. auto.
Qed.

Lemma not_console_ok toks :
  Forall (fun tk => not_console (tok_type tk)) toks ->
  Forall (console_token_ok text) toks.
Proof.
  apply Forall_impl. intros tk H. apply from_either_ok. right. exact H.
Qed.

Lemma flush_code_ok v :
  ins_ok is_prompt_token (insertions v) ->
  Forall (console_token_ok text) (flush_code v).
Proof.
  intros H. unfold flush_code.
  eapply Forall_impl; [apply from_either_ok|].
  apply do_insertions_origin; [exact H|].
  apply clean_not_console. apply renpy_console_kinds.
Qed.

Lemma flush_tb_ok idx block :
  Forall (console_token_ok text) (flush_tb idx block).
Proof.
  unfold flush_tb. apply not_console_ok. apply clean_not_console.
  rewrite clean_shift. apply traceback_console_kinds.
Qed.

Lemma ins_ok_snoc pending idx p :
  ins_ok is_prompt_token pending -> In p prompts ->
  ins_ok is_prompt_token (pending ++ [(idx, [(0, Generic_Prompt, p)])]).
Proof.
  intros H Hp. apply Forall_app. split; [exact H|].
  constructor; [|constructor]. simpl. constructor; [|constructor].
  split; [reflexivity | exact Hp].
Qed.

Lemma prompt_taken line :
  is_prompt line = true -> In (take 4 line) prompts.
Proof.
  unfold is_prompt, startswith. intros H. apply orb_true_iff in H.
  destruct H as [H|H]; apply prefix_split in H; destruct H as [H _];
    simpl String.length in H; rewrite H; simpl; auto.
Qed.

Lemma do_line_ok v start line :
  ins_ok is_prompt_token (insertions v) ->
  lit_at text line start = true -> is_line line = true ->
  Forall (console_token_ok text) (fst (do_line v start line))
  /\ ins_ok is_prompt_token (insertions (snd (do_line v start line))).
Proof.
  intros Hi Hl Hline. unfold do_line.
  destruct (is_prompt line) eqn:Ep.
  { simpl. split; [constructor|].
    apply ins_ok_snoc; [exact Hi | apply prompt_taken; exact Ep]. }
  destruct (String.eqb (rstrip line) "..." && negb (tb v))%bool.
  { simpl. split; [constructor|].
    apply ins_ok_snoc; [exact Hi | simpl; auto]. }
  match goal with
  | |- context [if is_empty (curcode v) then ?a else ?b] =>
      set (mid := if is_empty (curcode v) then a else b)
  end.
  assert (H1 : Forall (console_token_ok text) (fst mid)
               /\ ins_ok is_prompt_token (insertions (snd mid))).
  { subst mid. destruct (is_empty (curcode v)); simpl.
    - split; [constructor | exact Hi].
    - split; [apply flush_code_ok; exact Hi | constructor]. }
  clearbody mid. destruct mid as [out v1].
  simpl in H1. destruct H1 as [Ho Hv1].
  destruct (is_header line); [simpl; split; assumption|].
  destruct (String.eqb line ("KeyboardInterrupt" ++ nl)).
  { simpl. split; [|exact Hv1]. apply Forall_app. split; [exact Ho|].
    constructor; [|constructor]. split; intros K; discriminate K. }
  destruct (tb v1).
  { destruct (negb (startswith " " line || String.eqb (strip line) "..."));
      simpl; split; try assumption.
    apply Forall_app. split; [exact Ho | apply flush_tb_ok]. }
  simpl. split; [|exact Hv1]. apply Forall_app. split; [exact Ho|].
  constructor; [|constructor]. split; intros K; [discriminate K|].
  unfold occurs_at, tok_value, tok_index. simpl. auto.
Qed.

Lemma do_lines_ok : forall lines v,
  ins_ok is_prompt_token (insertions v) ->
  Forall (fun x => lit_at text (snd x) (fst x) = true
                   /\ is_line (snd x) = true) lines ->
  Forall (console_token_ok text) (fst (do_lines v lines))
  /\ ins_ok is_prompt_token (insertions (snd (do_lines v lines))).
Proof.
  induction lines as [|[start line] lines IH]; intros v Hi Hall.
  - simpl. split; [constructor | exact Hi].
  - inversion Hall as [|? ? [Hl Hline] Hrest]; subst. simpl in Hl, Hline.
    cbn [do_lines].
    destruct (do_line_ok v start line Hi Hl Hline) as [O1 I1].
    destruct (do_line v start line) as [out1 v1]. simpl in O1, I1.
    destruct (IH v1 I1 Hrest) as [O2 I2].
    destruct (do_lines v1 lines) as [out2 v2]. simpl in *.
    split; [apply Forall_app; split; assumption | exact I2].
Qed.

Lemma console_tokens_ok :
  Forall (console_token_ok text) (get_tokens_unprocessed text).
Proof.
  unfold get_tokens_unprocessed.
  destruct (do_lines_ok (lines_of text) init (Forall_nil _)
                        (lines_of_ok text)) as [O I0].
  destruct (do_lines init (lines_of text)) as [out v]. simpl in O, I0.
  apply Forall_app. split; [exact O|]. unfold finish.
  apply Forall_app. split.
  - destruct (is_empty (curcode v)); [constructor|].
    apply flush_code_ok. exact I0.
  - destruct (is_empty (curtb v)); [constructor | apply flush_tb_ok].
Qed.

End ConsoleTokens.

(* ================================================================== *)
(** ** Tokens that stand in the text *)

Section Occurs.
Variable text : string.

Lemma Matches_spans r p g p' g' :
  Matches text r p g p' g' ->
  p <= String.length text -> Forall (span_ok text) g ->
  Forall (span_ok text) g'.
Proof.
  induction 1; intros Hp Hg; auto.
  - pose proof (Matches_bounds _ _ _ _ _ _ H Hp). apply IHMatches2; [lia|].
    auto.
  - pose proof (Matches_bounds _ _ _ _ _ _ H Hp). apply IHMatches2; [lia|].
    auto.
  - pose proof (Matches_bounds _ _ _ _ _ _ H Hp). apply IHMatches2; [lia|].
    auto.
  - pose proof (Matches_bounds _ _ _ _ _ _ H Hp).
    constructor; [unfold span_ok; simpl; lia | auto].
Qed.

Lemma group_span_ok g i s e :
  Forall (span_ok text) g -> group g i = Some (s, e) ->
  s <= e <= String.length text.
Proof.
  induction 1 as [|[j sp] g Hx _ IH]; simpl; [discriminate|].
  destruct (Nat.eqb i j); [|exact IH].
  intros E. inversion E; subst. exact Hx.
Qed.

Lemma shift_occurs s e toks :
  Forall (occurs_at (slice s e text)) toks ->
  Forall (occurs_at text) (map (shift s) toks).
Proof.
  intros H. apply Forall_map. eapply Forall_impl; [|exact H].
  intros [[i t] v]. unfold occurs_at, shift, tok_value, tok_index. simpl.
  apply lit_at_in_slice.
Qed.

Variable sublexer : string -> list token.
Hypothesis Hsub : forall s, Forall (occurs_at s) (sublexer s).

Lemma bygroups_occurs g : Forall (span_ok text) g -> forall args i,
  Forall (occurs_at text) (bygroups sublexer text args i g).
Proof.
  intros Hg. induction args as [|a args IH]; intros i; [constructor|].
  cbn [bygroups]. apply Forall_app. split; [|apply IH].
  destruct a as [|t|]; destruct (group g i) as [[s e]|] eqn:G;
    try constructor.
  - pose proof (group_span_ok _ _ _ _ Hg G) as [H1 H2].
    destruct (is_empty (slice s e text)); constructor; [|constructor].
    unfold occurs_at, tok_value, tok_index. simpl.
    apply lit_at_slice; assumption.
  - apply (shift_occurs s e). apply Hsub.
Qed.

Lemma emit_occurs a pos e g :
  pos <= e <= String.length text -> Forall (span_ok text) g ->
  Forall (occurs_at text) (emit sublexer text a pos e g).
Proof.
  intros [H1 H2] Hg. destruct a as [|t|args]; simpl.
  - constructor.
  - constructor; [|constructor].
    unfold occurs_at, tok_value, tok_index. simpl.
    apply lit_at_slice; assumption.
  - apply bygroups_occurs. exact Hg.
Qed.

Variable defs : tokendefs.
Variable states : list state.
Hypothesis Hok : table_ok defs states = true.

Lemma lexer_occurs :
  Forall (occurs_at text) (get_tokens_unprocessed defs sublexer text).
Proof.
  apply (tokens_have_at defs sublexer text states Hok).
  - intros st r pos e g Hst Hp H.
    pose proof (first_match_span _ _ _ _ _ _ Hp H) as [M B].
    apply emit_occurs; [exact B|].
    apply (Matches_spans _ _ _ _ _ M Hp). constructor.
  - intros st pos c _ _ Hc.
    unfold occurs_at, tok_value, tok_index. simpl.
    unfold char_at. rewrite Hc, Ascii.eqb_refl. reflexivity.
Qed.

End Occurs.

Lemma renpy_occurs text :
  Forall (occurs_at text) (RenpyLexer.get_tokens_unprocessed text).
Proof.
  unfold RenpyLexer.get_tokens_unprocessed.
  apply lexer_occurs with (states := renpy_states).
  - intros s. constructor.
  - apply renpy_table_ok.
Qed.

Lemma traceback_occurs text :
  Forall (occurs_at text) (RenpyTracebackLexer.get_tokens_unprocessed text).
Proof.
  unfold RenpyTracebackLexer.get_tokens_unprocessed, RenpyTracebackLexer.lex.
  apply (lexer_occurs text RenpyLexer.get_tokens_unprocessed renpy_occurs
                      RenpyTracebackLexer.tokens traceback_states
                      traceback_table_ok).
Qed.

Lemma concat_lines_length ls :
  Forall (fun l => is_line l = true) ls ->
  List.length ls <= String.length (concat_lines ls).
Proof.
  induction 1 as [|l ls Hl _ IH]; [simpl; lia|].
  rewrite concat_lines_cons, length_append. cbn [List.length].
  pose proof (is_line_length l Hl). lia.
Qed.

(** ** Further properties of the lexers *)

(** X1: the values of the tokens of [RenpyBlockLexer] add up to the
    text, and each token starts where the one before it ended, the first
    one at offset 0. *)
Theorem block_lexer_round_trip (text : string) :
  joined (RenpyBlockLexer.get_tokens_unprocessed text) = text
  /\ follow 0 (RenpyBlockLexer.get_tokens_unprocessed text) = true.
Proof. apply tiles_round_trip. apply block_tiles. Qed.

(** X2: when [RenpyLexer] yields no token of the kind
    [Renpy.Function.Builtin], the values of its tokens add up to the text
    and each token starts where the one before it ended, the first one at
    offset 0. *)
Theorem renpy_round_trip_without_calls (text : string) :
  clean is_call (RenpyLexer.get_tokens_unprocessed text) = true ->
  joined (RenpyLexer.get_tokens_unprocessed text) = text
  /\ follow 0 (RenpyLexer.get_tokens_unprocessed text) = true.
Proof. intros H. apply tiles_round_trip. apply renpy_tiles. exact H. Qed.

Lemma renpy_round_trip_without_calls_witness :
  clean is_call (RenpyLexer.get_tokens_unprocessed label_text) = true
  /\ joined (RenpyLexer.get_tokens_unprocessed label_text) = label_text
  /\ follow 0 (RenpyLexer.get_tokens_unprocessed label_text) = true.
Proof.
  split; [vm_compute; reflexivity|].
  exact (renpy_round_trip_without_calls
           label_text ltac:(vm_compute; reflexivity)).
Defined.

(** X3: whenever [RenpyLexer] yields a token of the kind
    [Renpy.Function.Builtin], the values of its tokens do not add up to
    the text. *)
Theorem renpy_call_breaks_round_trip (text : string) :
  clean is_call (RenpyLexer.get_tokens_unprocessed text) = false ->
  joined (RenpyLexer.get_tokens_unprocessed text) <> text.
Proof. apply renpy_breaks. Qed.

Lemma renpy_call_breaks_round_trip_witness :
  clean is_call (RenpyLexer.get_tokens_unprocessed call_text) = false
  /\ joined (RenpyLexer.get_tokens_unprocessed call_text) <> call_text.
Proof.
  split; [vm_compute; reflexivity|].
  exact (renpy_call_breaks_round_trip
           call_text ltac:(vm_compute; reflexivity)).
Defined.

(** X4: when [RenpyTracebackLexer] yields no token of the kind
    [Renpy.Function.Builtin] (they come from the code lines that it hands
    to [RenpyLexer]), the values of its tokens add up to the text and each
    token starts where the one before it ended. *)
Theorem traceback_round_trip_without_calls (text : string) :
  clean is_call (RenpyTracebackLexer.get_tokens_unprocessed text) = true ->
  joined (RenpyTracebackLexer.get_tokens_unprocessed text) = text
  /\ follow 0 (RenpyTracebackLexer.get_tokens_unprocessed text) = true.
Proof. intros H. apply tiles_round_trip. apply traceback_tiles. exact H. Qed.

Lemma traceback_round_trip_without_calls_witness :
  clean is_call (RenpyTracebackLexer.get_tokens_unprocessed traceback_text)
  = true
  /\ joined (RenpyTracebackLexer.get_tokens_unprocessed traceback_text)
     = traceback_text
  /\ follow 0 (RenpyTracebackLexer.get_tokens_unprocessed traceback_text)
     = true.
Proof.
  split; [vm_compute; reflexivity|].
  exact (traceback_round_trip_without_calls
           traceback_text ltac:(vm_compute; reflexivity)).
Defined.

(** X5: on every text the loop of [RenpyLexer] comes to an end, and it
    does so at the end of the text: no rule of its table lets it stay at
    one position for ever. *)
Theorem renpy_lexer_reaches_end (text : string) :
  exists toks stack,
    lex RenpyLexer.tokens (fun _ => []) text = (toks, Some stack)
    /\ reachable RenpyLexer.tokens (fun _ => []) text
                 (String.length text) stack.
Proof. exact (lex_reaches _ _ text renpy_states renpy_table_ok). Qed.

(** X6: before every iteration of the loop of [RenpyLexer] the position
    lies within the text and the stack is the root state alone or one
    other state on top of it: only rules of the root state push, and
    each of them one state. *)
Theorem renpy_stack_depth (text : string) (pos : nat) (stack : list state) :
  reachable RenpyLexer.tokens (fun _ => []) text pos stack ->
  pos <= String.length text
  /\ (stack = [root]
      \/ exists s, In s (tl renpy_states) /\ stack = [s; root]).
Proof.
  intros H.
  destruct (reachable_inv _ _ text renpy_states (tl renpy_states)
                          renpy_table_ok renpy_pushes pos stack H)
    as [[Hp _] Hs].
  split; [exact Hp | exact Hs].
Qed.

Lemma renpy_stack_depth_witness :
  reachable RenpyLexer.tokens (fun _ => []) "def f" 4 [Named "funcname"; root]
  /\ 4 <= String.length "def f"
  /\ ([Named "funcname"; root] = [root]
      \/ exists s, In s (tl renpy_states)
                   /\ [Named "funcname"; root] = [s; root]).
Proof.
  assert (R : reachable RenpyLexer.tokens (fun _ => []) "def f" 4
                        [Named "funcname"; root]).
  { apply (reach_step _ _ _ 0 [root] [(0, Keyword, "def"); (3, Text, " ")]);
      [apply reach_start | vm_compute; reflexivity]. }
  split; [exact R|].
  exact (renpy_stack_depth "def f" 4 [Named "funcname"; root] R).
Defined.

(** X7: on every text the loop of [RenpyTracebackLexer] comes to an end,
    with the stack [root] or [intb; root]. *)
Theorem traceback_lexer_ends (text : string) :
  exists toks stack,
    RenpyTracebackLexer.lex text = (toks, Some stack)
    /\ (stack = [root] \/ stack = [Named "intb"; root]).
Proof.
  destruct (lex_reaches RenpyTracebackLexer.tokens
                        RenpyLexer.get_tokens_unprocessed text
                        traceback_states traceback_table_ok)
    as (toks & stack & E & R).
  exists toks, stack. split; [exact E|].
  destruct (reachable_inv _ _ text traceback_states (tl traceback_states)
                          traceback_table_ok traceback_pushes _ _ R)
    as [_ [Hs|(s & Hin & Hs)]]; [left; exact Hs|].
  right. destruct Hin as [<-|[]]. exact Hs.
Qed.

(** X8: a token of [RenpyLexer] of a kind that stands for a list of
    words (keywords, reserved and declaration words, namespace keywords,
    word operators, builtins, pseudo builtins, exceptions, magic functions
    and magic variables) has one of the words of that list as its
    value. *)
Theorem renpy_word_tokens_are_listed (text : string) (tk : token)
        (ws : list string) :
  In tk (RenpyLexer.get_tokens_unprocessed text) ->
  kind_words (tok_type tk) = Some ws ->
  In (tok_value tk) ws.
Proof.
  intros Hin K. pose proof (renpy_tokens_are_words text) as H.
  rewrite Forall_forall in H. exact (H tk Hin ws K).
Qed.

Lemma renpy_word_tokens_are_listed_witness :
  In (17, Renpy_Reserved, "jump") (RenpyLexer.get_tokens_unprocessed label_text)
  /\ kind_words (tok_type (17, Renpy_Reserved, "jump"))
     = Some RenpyLexer.reserved_words
  /\ In (tok_value (17, Renpy_Reserved, "jump")) RenpyLexer.reserved_words.
Proof.
  split; [vm_compute; tauto|].
  split; [reflexivity|].
  exact (renpy_word_tokens_are_listed
           label_text (17, Renpy_Reserved, "jump") RenpyLexer.reserved_words
           ltac:(vm_compute; tauto) eq_refl).
Defined.



(** X10: the state ['properties'] of [RenpyLexer] is never used: no
    rule pushes it and no state includes it, so that the tokens are the
    same whatever rules stand under that name. *)
Theorem properties_state_unused (rules : list tdef) (text : string) :
  get_tokens_unprocessed (tokens_with_properties rules) (fun _ => []) text
  = RenpyLexer.get_tokens_unprocessed text.
Proof.
  unfold RenpyLexer.get_tokens_unprocessed, get_tokens_unprocessed.
  rewrite (lex_same_rules RenpyLexer.tokens (tokens_with_properties rules)
                          (fun _ => []) text renpy_states renpy_table_ok
                          (properties_never_read rules)).
  reflexivity.
Qed.

(** X11: [line_re.finditer] finds the lines of a text that end with a
    newline, each with its offset, and nothing of what follows the last
    newline; [RenpyConsoleLexer] yields no token for that rest. *)
Theorem console_lines_found (ls : list string) (tail : string) :
  Forall (fun l => is_line l = true) ls -> no_newline tail = true ->
  RenpyConsoleLexer.lines_of (concat_lines ls ++ tail) = with_offsets 0 ls
  /\ RenpyConsoleLexer.get_tokens_unprocessed (concat_lines ls ++ tail)
     = RenpyConsoleLexer.get_tokens_unprocessed (concat_lines ls).
Proof.
  intros Hl Ht. split.
  - apply lines_of_lines; assumption.
  - apply console_tail_dropped; assumption.
Qed.

Lemma console_lines_found_witness :
  Forall (fun l => is_line l = true) output_lines
  /\ no_newline "rest" = true
  /\ RenpyConsoleLexer.lines_of (concat_lines output_lines ++ "rest")
     = with_offsets 0 output_lines
  /\ RenpyConsoleLexer.get_tokens_unprocessed
       (concat_lines output_lines ++ "rest")
     = RenpyConsoleLexer.get_tokens_unprocessed (concat_lines output_lines).
Proof.
  assert (H : Forall (fun l => is_line l = true) output_lines)
    by (repeat constructor).
  split; [exact H|].
  split; [reflexivity|].
  exact (console_lines_found output_lines "rest" H eq_refl).
Defined.

(** X12: for a transcript of plain lines (no prompt, no ellipsis, no
    traceback header, no [KeyboardInterrupt] line) [RenpyConsoleLexer]
    yields one [Generic.Output] token for each line, at the offset of
    the line in the transcript. *)
Theorem console_output_lines (ls : list string) (tail : string) :
  Forall (fun l => output_line l = true) ls -> no_newline tail = true ->
  RenpyConsoleLexer.get_tokens_unprocessed (concat_lines ls ++ tail)
  = map (fun x => (fst x, Generic_Output, snd x)) (with_offsets 0 ls).
Proof. apply console_output_tokens. Qed.

Lemma console_output_lines_witness :
  Forall (fun l => output_line l = true) output_lines
  /\ no_newline "rest" = true
  /\ RenpyConsoleLexer.get_tokens_unprocessed
       (concat_lines output_lines ++ "rest")
     = map (fun x => (fst x, Generic_Output, snd x))
           (with_offsets 0 output_lines).
Proof.
  assert (H : Forall (fun l => output_line l = true) output_lines)
    by (repeat constructor).
  split; [exact H|].
  split; [reflexivity|].
  exact (console_output_lines output_lines "rest" H eq_refl).
Defined.

(** X13: the values of the tokens of [NullLexer] add up to the text, and
    each token starts where the one before it ended, the first one at
    offset 0. *)
Theorem null_lexer_round_trip (text : string) :
  joined (NullLexer.get_tokens_unprocessed text) = text
  /\ follow 0 (NullLexer.get_tokens_unprocessed text) = true.
Proof. apply tiles_round_trip. apply null_tiles. Qed.


(** X15: on a text of lines that open no traceback (none starts with
    [Traceback], with [^CTraceback] or with two blanks, [File], a blank
    and a double quote) [RenpyTracebackLexer] yields one [Other] token
    for each line, at the offset of the line, and ends in the root
    state. *)
Theorem traceback_plain_lines (ls : list string) :
  Forall (fun l => other_line l = true) ls ->
  RenpyTracebackLexer.lex (concat_lines ls)
  = (map (fun x => (fst x, Other, snd x)) (with_offsets 0 ls), Some [root]).
Proof.
  intros H. unfold RenpyTracebackLexer.lex, lex.
  apply (traceback_run_lines ls EmptyString); [exact H | reflexivity |].
  assert (Hl : Forall (fun l => is_line l = true) ls).
  { eapply Forall_impl; [|exact H]. intros l Hl.
    apply other_line_facts in Hl. tauto. }
  pose proof (concat_lines_length ls Hl). simpl String.append. lia.
Qed.

Lemma traceback_plain_lines_witness :
  Forall (fun l => other_line l = true) other_lines
  /\ RenpyTracebackLexer.lex (concat_lines other_lines)
     = (map (fun x => (fst x, Other, snd x)) (with_offsets 0 other_lines),
        Some [root]).
Proof.
  assert (H : Forall (fun l => other_line l = true) other_lines)
    by (repeat constructor).
  split; [exact H|].
  exact (traceback_plain_lines other_lines H).
Defined.

(** X16: for a transcript of entered code alone (every line starts with
    a prompt, or is an ellipsis), whose code [RenpyLexer] lexes without a
    token of the kind [Renpy.Function.Builtin], the values of the tokens
    of [RenpyConsoleLexer] add up to the lines of the transcript and
    each token starts where the one before it ended, the first one at
    offset 0. *)
Theorem console_code_round_trip (ls : list string) (tail : string) :
  Forall (fun l => code_line l = true) ls -> no_newline tail = true ->
  clean is_call (RenpyLexer.get_tokens_unprocessed (entered ls)) = true ->
  joined (RenpyConsoleLexer.get_tokens_unprocessed (concat_lines ls ++ tail))
  = concat_lines ls
  /\ follow 0 (RenpyConsoleLexer.get_tokens_unprocessed
                 (concat_lines ls ++ tail)) = true.
Proof.
  intros Hl Ht Hc.
  destruct (console_code_spells ls tail Hl Ht Hc) as [F J].
  split; assumption.
Qed.

Lemma console_code_round_trip_witness :
  Forall (fun l => code_line l = true) code_lines
  /\ no_newline "" = true
  /\ clean is_call (RenpyLexer.get_tokens_unprocessed (entered code_lines))
     = true
  /\ joined (RenpyConsoleLexer.get_tokens_unprocessed
               (concat_lines code_lines ++ ""))
     = concat_lines code_lines
  /\ follow 0 (RenpyConsoleLexer.get_tokens_unprocessed
                 (concat_lines code_lines ++ "")) = true.
Proof.
  assert (H : Forall (fun l => code_line l = true) code_lines)
    by (repeat constructor).
  split; [exact H|].
  split; [reflexivity|].
  split; [vm_compute; reflexivity|].
  exact (console_code_round_trip code_lines "" H eq_refl
                                 ltac:(vm_compute; reflexivity)).
Defined.



(** X18: every token of [RenpyLexer] and of [RenpyTracebackLexer] holds
    the characters of the text that stand at its index, also where the
    tokens do not add up to the text. *)
Theorem tokens_stand_in_text (text : string) :
  Forall (occurs_at text) (RenpyLexer.get_tokens_unprocessed text)
  /\ Forall (occurs_at text)
            (RenpyTracebackLexer.get_tokens_unprocessed text).
Proof. split; [apply renpy_occurs | apply traceback_occurs]. Qed.
